(** * wx-stubs: a shallow embedding of [stub-outliner.py] and [update.py]

    The two scripts reflect over the live [wx] package and print type stubs.
    The embedding keeps the program's own structure:

    - Python strings are [string]s (characters are code points below 256);
    - an exception is a constructor of [exn], a call that may raise returns a
      [result];
    - code that prints while it may raise runs in [Out], a writer over the
      lines printed so far paired with a [result];
    - dictionaries whose iteration order the code relies on are association
      lists, the others are [gmap]s, sets are [gset]s;
    - what the scripts obtain from [wx], [ast], [inspect] and [pyparsing] at
      run time is a field of the [Runtime] record or of the reflected
      snapshot of a class, a module or the namespace. *)

From Stdlib Require Import ZArith Ascii String.
From stdpp Require Import base option list strings gmap sorting.

Local Open Scope string_scope.
Local Open Scope list_scope.

(** ** Python primitives *)

Module Py.

Inductive exn : Type :=
  | IndexError | KeyError | ValueError | AssertionError | NameError
  | AttributeError | TypeError.

Inductive result (A : Type) : Type :=
  | Ok (a : A)
  | Raise (e : exn).
Arguments Ok {A} a.
Arguments Raise {A} e.

Definition rbind {A B : Type} (m : result A) (k : A -> result B) : result B :=
  match m with
  | Ok a => k a
  | Raise e => Raise e
  end.

(** Printing code: the lines already printed go in, the lines printed so far
    come out, also when the call raises. *)
Definition Out (A : Type) : Type := list string -> list string * result A.

Definition oret {A : Type} (a : A) : Out A := fun w => (w, Ok a).
Definition oraise {A : Type} (e : exn) : Out A := fun w => (w, Raise e).
Definition obind {A B : Type} (m : Out A) (k : A -> Out B) : Out B :=
  fun w =>
    match m w with
    | (w', Ok a) => k a w'
    | (w', Raise e) => (w', Raise e)
    end.
Definition olift {A : Type} (r : result A) : Out A := fun w => (w, r).
(** [print(...)] of one complete line. *)
Definition print (line : string) : Out unit := fun w => (w ++ [line], Ok tt).

Fixpoint rmap {A B : Type} (f : A -> result B) (l : list A) : result (list B) :=
  match l with
  | [] => Ok []
  | x :: r =>
      match f x with
      | Ok y => match rmap f r with Ok ys => Ok (y :: ys) | Raise e => Raise e end
      | Raise e => Raise e
      end
  end.

Fixpoint rfold {A S : Type} (f : S -> A -> result S) (s : S) (l : list A) : result S :=
  match l with
  | [] => Ok s
  | x :: r => match f s x with Ok s' => rfold f s' r | Raise e => Raise e end
  end.

Fixpoint ofor {A : Type} (body : A -> Out unit) (l : list A) : Out unit :=
  match l with
  | [] => oret tt
  | x :: r => obind (body x) (fun _ => ofor body r)
  end.

(** *** [str] methods *)

Definition newline : string := String (ascii_of_nat 10) EmptyString.

Definition nonempty (s : string) : bool :=
  match s with EmptyString => false | String _ _ => true end.

(** [s.startswith(p)] *)
Definition startswith (s p : string) : bool := String.prefix p s.

(** [s.endswith(p)] *)
Fixpoint endswith (s p : string) : bool :=
  String.eqb s p ||
  match s with
  | EmptyString => false
  | String _ s' => endswith s' p
  end.

(** [sub in s] *)
Fixpoint contains (sub s : string) : bool :=
  String.prefix sub s ||
  match s with
  | EmptyString => false
  | String _ s' => contains sub s'
  end.

Fixpoint mem_char (a : ascii) (chars : string) : bool :=
  match chars with
  | EmptyString => false
  | String c r => Ascii.eqb a c || mem_char a r
  end.

Fixpoint lstrip (chars s : string) : string :=
  match s with
  | EmptyString => EmptyString
  | String a s' => if mem_char a chars then lstrip chars s' else s
  end.

Fixpoint rstrip (chars s : string) : string :=
  match s with
  | EmptyString => EmptyString
  | String a s' =>
      match rstrip chars s' with
      | EmptyString => if mem_char a chars then EmptyString else String a EmptyString
      | r => String a r
      end
  end.

(** [s.strip(chars)] *)
Definition strip (chars s : string) : string := rstrip chars (lstrip chars s).

(** [s[i]] for [i >= 0] *)
Definition getitem (s : string) (i : nat) : result ascii :=
  match String.get i s with
  | Some c => Ok c
  | None => Raise IndexError
  end.

(** [c.isupper()] of a one-character string: the code points with the
    Uppercase property below 256. *)
Definition isupper (c : ascii) : bool :=
  let n := N_of_ascii c in
  ((65 <=? n) && (n <=? 90) || (192 <=? n) && (n <=? 214)
   || (216 <=? n) && (n <=? 222))%N.

(** [s[n:]] *)
Fixpoint drop_str (n : nat) (s : string) : string :=
  match n, s with
  | O, _ => s
  | S k, EmptyString => EmptyString
  | S k, String _ s' => drop_str k s'
  end.

(** [s[:n]] *)
Fixpoint take_str (n : nat) (s : string) : string :=
  match n, s with
  | O, _ => EmptyString
  | S k, EmptyString => EmptyString
  | S k, String a s' => String a (take_str k s')
  end.

(** [s.partition(sep)], for a non-empty [sep] *)
Fixpoint partition (sep s : string) : string * string * string :=
  if String.prefix sep s then (EmptyString, sep, drop_str (String.length sep) s)
  else
    match s with
    | EmptyString => (EmptyString, EmptyString, EmptyString)
    | String a s' =>
        let '(b, m, t) := partition sep s' in (String a b, m, t)
    end.

(** [s.replace(old, new)], for a non-empty [old]: every occurrence, left to
    right, without overlap. [skip] counts the characters of a match that are
    still to be passed over. *)
Fixpoint replace_from (old new : string) (skip : nat) (s : string) : string :=
  match s with
  | EmptyString => EmptyString
  | String a s' =>
      match skip with
      | S k => replace_from old new k s'
      | O =>
          if String.prefix old s
          then new +:+ replace_from old new (String.length old - 1) s'
          else String a (replace_from old new 0 s')
      end
  end.
Definition replace (old new s : string) : string := replace_from old new 0 s.

(** [s.removeprefix(p)] *)
Definition removeprefix (p s : string) : string :=
  if String.prefix p s then drop_str (String.length p) s else s.

(** [sep.join(l)] *)
Definition join (sep : string) (l : list string) : string := String.concat sep l.

(** [l.sort(key=key)] and [l.sort(key=key, reverse=True)]: Python's sort is
    stable in both directions, so the result is the one of a stable insertion
    sort; [le] compares two keys. *)
Section Sort.
Context {A K : Type} (key : A -> K) (le : K -> K -> bool).

Fixpoint insert_by (x : A) (l : list A) : list A :=
  match l with
  | [] => [x]
  | y :: r => if le (key x) (key y) then x :: y :: r else y :: insert_by x r
  end.

Definition sort_by (l : list A) : list A := foldr insert_by [] l.
End Sort.

Definition sort_by_rev {A K : Type} (key : A -> K) (le : K -> K -> bool)
  : list A -> list A := sort_by key (fun a b => le b a).

(** [d[k]] and [k in d] on a dictionary literal *)
Fixpoint assoc {V : Type} (k : string) (d : list (string * V)) : option V :=
  match d with
  | [] => None
  | (k', v) :: r => if String.eqb k k' then Some v else assoc k r
  end.

(** [l.remove(x)] *)
Fixpoint list_remove (x : string) (l : list string) : result (list string) :=
  match l with
  | [] => Raise ValueError
  | y :: r =>
      if String.eqb x y then Ok r
      else match list_remove x r with Ok r' => Ok (y :: r') | Raise e => Raise e end
  end.

(** [sorted(l)] of a list of strings *)
Definition sorted (l : list string) : list string := sort_by id String.leb l.

End Py.

Notation "x <- c1 ;; c2" := (Py.rbind c1 (fun x => c2))
  (at level 100, c1 at next level, right associativity).
Notation "x <~ c1 ;; c2" := (Py.obind c1 (fun x => c2))
  (at level 100, c1 at next level, right associativity).
Notation "c1 ;;; c2" := (Py.obind c1 (fun _ => c2))
  (at level 100, right associativity).

(** ** stub-outliner.py *)

Module StubOutliner.
Import Py.

(** [type(x)] as the script reads it: [__name__] and [__module__]. *)
Record PyType : Type := { tp_name : string; tp_module : string }.

(** One match of the [func] grammar: [parsed["name"]], [parsed["args"]] and
    [parsed["return"][0]]. *)
Record Parsed : Type := {
  p_name : string;
  p_args : list string;
  p_return : string
}.

(** What the script takes from the interpreter, [pyparsing], [ast], [inspect]
    and the live [wx] package. *)
Record Runtime : Type := {
  (* the first components of [func.scanString(doc)], in order *)
  scanString : string -> list Parsed;
  (* [s.isidentifier()] *)
  isidentifier : string -> bool;
  (* [type(getattr(wx, s, None))], [None] when the value is [None] *)
  wx_getattr : string -> option PyType;
  (* [type(ast.literal_eval(s))], [None] when it raises or gives [None] *)
  literal_eval : string -> option PyType;
  (* [hasattr(wx, s)] *)
  wx_hasattr : string -> bool;
  (* the keys of [object.__dict__] *)
  object_dict : gset string;
  (* [signature_using_inspect(object.__init__, add_any)] *)
  object_init_inspect : bool -> string;
  (* [signature_using_inspect(wx.Abort, add_any)] *)
  abort_inspect : bool -> string
}.

(** *** Type heuristics *)

Definition type_to_arg : list (string * list string) :=
  [ ("int", ["x*"; "y*"; "h*"; "width"; "height"]);
    ("wx._WindowID", ["windid"; "winid"]);
    ("PointLike", ["pt*"; "point"]);
    ("SizeLike", ["dim"; "sz"; "size"]);
    ("RectLike", ["rect"]);
    ("wx.Bitmap", ["bitmap*"; "bmp*"; "*Bitmap"]);
    ("wx.Window", ["window"]);
    ("wx._EventType", ["*eventType"; "evtType"]);
    ("wx.DC", ["dc"]);
    ("String", ["label"; "text"; "str"; "string"]);
    ("Any", ["clientData"]);
    ("wx.Icon", ["icon"]);
    ("wx.Colour", ["*Colour"; "colour"]);
    ("wx.Font", ["font"]);
    ("wx.ImageList", ["imageList"]) ].

(** [len] of a 2-tuple, the key [patern_and_type.sort] is given. *)
Definition tuple_len {A B : Type} (x : A * B) : Z := 2.

(** [[(p, t) for t, v in type_to_arg.items() for p in v]], then
    [.sort(key=len, reverse=True)]. *)
Definition patern_and_type : list (string * string) :=
  sort_by_rev tuple_len Z.leb
    (flat_map (fun tv => map (fun p => (p, fst tv)) (snd tv)) type_to_arg).

(** The three disjuncts of [match], each as the source evaluates it. *)
Definition match_exact (str patern : string) : bool :=
  String.eqb str (strip "*" patern).

Definition match_leading (str patern : string) : bool :=
  startswith patern "*" && endswith str (strip "*" patern).

Definition match_trailing (str patern : string) : result bool :=
  let stem := strip "*" patern in
  if endswith patern "*" && startswith str stem
  then c <- getitem str (String.length stem) ;; Ok (isupper c)
  else Ok false.

(** [match(string, patern)], the first parameter written [str] here; [or]
    evaluates a disjunct only when the ones before it are false. *)
Definition match_ (str patern : string) : result bool :=
  if match_exact str patern then Ok true
  else if match_leading str patern then Ok true
  else match_trailing str patern.

Definition convert_arg_type : list (string * string) :=
  [ ("str", "String"); ("bytes", "String"); ("list", "Sequence[]");
    ("StandardID", "wx._WindowID"); ("Point", "PointLike");
    ("Size", "SizeLike"); ("Rect", "RectLike") ].

Definition bool_type : PyType := {| tp_name := "bool"; tp_module := "builtins" |}.

Definition get_type_from_default (rt : Runtime) (str : string) : option string :=
  let x :=
    if String.eqb str "True" || String.eqb str "False" then Some bool_type
    else if isidentifier rt str then wx_getattr rt str
    else literal_eval rt str in
  match x with
  | None => None
  | Some tp =>
      let name := tp_name tp in
      match assoc name convert_arg_type with
      | Some r => Some r
      | None =>
          if startswith (tp_module tp) "wx" then Some ("wx." +:+ name)
          else Some name
      end
  end.

Definition ret_trans_table : list (string * string) :=
  [ ("PyUserData", "Any"); ("ClientData", "Any"); ("PyObject", "?");
    ("String", "str"); ("double", "float"); ("long", "int");
    ("LongLong", "int"); ("unsignedchar", "int"); ("unsignedint", "int");
    ("Uint32", "int"); ("UIntPtr", "int"); ("Coord", "int");
    ("size_t", "int"); ("IntPtr", "int"); ("Uint16", "int");
    ("unsignedlong", "int"); ("ArrayString", "list[str]");
    ("ArrayInt", "list[int]") ].

Definition modify_ret (rt : Runtime) (ret : string) : string :=
  match assoc ret ret_trans_table with
  | Some r => r
  | None => if wx_hasattr rt ret then "wx." +:+ ret else ret
  end.

(** *** Signatures *)

Record Arg : Type := mkArg {
  name : string;
  tp : option string;
  deafult : bool
}.

(** The [for a, t in patern_and_type] loop of [parse_args]: the call is
    [match(a, name)], the table's pattern first. *)
Fixpoint first_match (name : string) (table : list (string * string))
  : result (option string) :=
  match table with
  | [] => Ok None
  | (a, t) :: r =>
      b <- match_ a name ;;
      if b then Ok (Some t) else first_match name r
  end.

Definition parse_arg (rt : Runtime) (add_any : bool) (arg : string) : result Arg :=
  let '(name, _, default) := partition "=" arg in
  tp <- (if nonempty default then Ok (get_type_from_default rt default)
         else first_match name patern_and_type) ;;
  let tp := match tp with
            | None => if add_any then Some "Any" else None
            | Some t => Some t
            end in
  Ok (mkArg name tp (nonempty default)).

Definition parse_args (rt : Runtime) (args : list string) (add_any : bool)
  : result (list Arg) :=
  rmap (parse_arg rt add_any) args.

Record Signature : Type := mkSignature {
  retanot : string;
  sig_name : string;
  args : list Arg
}.

Definition Signature_init (rt : Runtime) (parsed : Parsed)
    (init meth add_any : bool) : result Signature :=
  let meth := init || meth in
  let retanot := modify_ret rt (p_return parsed) in
  let name := if init then "__init__" else p_name parsed in
  let args := if meth then [mkArg "self" None false] else [] in
  rest <- parse_args rt (p_args parsed) add_any ;;
  Ok (mkSignature retanot name (args ++ rest)).

(** [self.args[i].tp = tp] *)
Definition set_type (sig : Signature) (i : nat) (tp : string) : result Signature :=
  match args sig !! i with
  | Some a =>
      Ok (mkSignature (retanot sig) (sig_name sig)
            (<[i := mkArg (name a) (Some tp) (deafult a)]> (args sig)))
  | None => Raise IndexError
  end.

(** The pieces [Signature.print] appends for one argument. *)
Definition arg_pieces (arg : Arg) : list string :=
  [name arg]
  ++ match tp arg with Some t => [": "; t] | None => [] end
  ++ (if deafult arg then [" = ..."] else [])
  ++ [", "].

(** The line [Signature.print] writes. *)
Definition sig_line (indent : string) (sig : Signature) : string :=
  let pieces := flat_map arg_pieces (args sig) in
  let pieces := removelast pieces in
  indent +:+ "def " +:+ sig_name sig +:+ "(" +:+ join EmptyString pieces
    +:+ ") -> " +:+ retanot sig +:+ ": ...".

Definition find_signatures (rt : Runtime) (doc name : string)
    (init meth add_any : bool) : result (list Signature) :=
  rmap (fun parsed => Signature_init rt parsed init meth add_any)
       (filter (fun parsed => p_name parsed = name) (scanString rt doc)).

(** A parameter of an [inspect.Signature]: its name, its annotation
    ([None] for [Parameter.empty]) and whatever else [str] prints of it. *)
Record Param : Type := {
  prm_name : string;
  prm_annotation : option string;
  prm_rest : string
}.

(** [p.replace(annotation=a)] *)
Definition replace_annotation (a : option string) (p : Param) : Param :=
  {| prm_name := prm_name p; prm_annotation := a; prm_rest := prm_rest p |}.

(** [signature_using_inspect(func, add_any)]. [signature] is
    [inspect.signature(func)], [None] when it raises [ValueError]; [str_sig]
    is [str] of a signature with the parameters given. *)
Definition signature_using_inspect (str_sig : list Param -> string)
    (signature : option (list Param)) (add_any : bool) : result string :=
  match signature with
  | None =>
      if add_any then Ok "(self, /, *args: Any, **kwargs: Any)"
      else Ok "(self, /, *args, **kwargs)"
  | Some sig =>
      if add_any then
        let parameters := map (replace_annotation (Some "Any")) sig in
        match parameters with
        | [] => Raise IndexError
        | p0 :: rest =>
            let parameters :=
              if String.eqb (prm_name p0) "self"
              then replace_annotation None p0 :: rest
              else parameters in
            Ok (str_sig parameters)
        end
      else Ok (str_sig sig)
  end.

(** *** Stub file *)

(** The categories of [make_stub], decided by [type(obj)]. *)
Inductive Kind : Type :=
  | KMethod      (* [type(obj) in method_descripters] *)
  | KProperty    (* [type(obj) is property] *)
  | KEnumClass   (* [type(obj) is sip_enum] *)
  | KPlain.      (* anything else *)

(** A value of [cls.__dict__] as [make_stub] reads it. *)
Record Member : Type := {
  m_kind : Kind;
  (* [getattr(cls, name).__doc__] *)
  m_doc : string;
  (* [inspect.signature(getattr(cls, name))]; [None] when it raises
     [ValueError] *)
  m_signature : option (list Param);
  (* [str] of that signature with the parameters given *)
  m_str_sig : list Param -> string;
  (* [formatannotation(type(obj))] *)
  m_annot : string;
  (* the keys [k] of [cls.__dict__] with [isinstance(obj, cls.__dict__[k])] *)
  m_instance_of : list string
}.

Record Base : Type := {
  b_name : string;
  b_module : string;
  (* [base in (object, sip_object)] *)
  b_root : bool
}.

#[global] Instance Base_eq_dec : EqDecision Base.
Proof. solve_decision. Defined.

(** A class as [make_stub] reflects it. *)
Record Class : Type := {
  c_name : string;
  c_bases : list Base;
  c_doc : option string;
  (* [cls.__init__.__doc__] *)
  c_init_doc : option string;
  (* [signature_using_inspect(cls.__init__)] *)
  c_init_inspect : string;
  (* [cls.__dict__], in its order *)
  c_dict : list (string * Member);
  (* the keys of [supercls.__dict__] for the classes of [cls.mro()[1:]] *)
  c_inherited : gset string;
  (* [issubclass(cls, wx.Window)], [wx.TopLevelWindow], [wx.Event] *)
  c_window : bool;
  c_toplevel : bool;
  c_event : bool
}.

Definition deafult_signatures (rt : Runtime) : list string :=
  [ object_init_inspect rt false; object_init_inspect rt true;
    abort_inspect rt false; abort_inspect rt true ].

Record Categories : Type := {
  method : list string;
  property : list string;
  other : list string;
  enumclass : list string
}.

Definition ignore_names (rt : Runtime) (cls : Class) (all_methods : bool)
  : gset string :=
  let ignore : gset string :=
    list_to_set ["__module__"; "__weakref__"; "__iadd__"; "__isub__";
                 "__dict__"; "__bool__"; "__nonzero__"] in
  if all_methods
  then (ignore ∪ object_dict rt) ∖ list_to_set ["__ge__"; "__gt__"; "__lt__"; "__le__"]
  else ignore ∪ c_inherited cls.

(** One turn of [for name, obj in cls_dict.items()]. *)
Definition categorize (ignore : gset string) (cats : Categories)
    (item : string * Member) : result Categories :=
  let '(name, obj) := item in
  if bool_decide (name ∈ ignore) then Ok cats
  else
    match m_kind obj with
    | KMethod =>
        Ok {| method := method cats ++ [name]; property := property cats;
              other := other cats; enumclass := enumclass cats |}
    | KProperty =>
        Ok {| method := method cats; property := property cats ++ [name];
              other := other cats; enumclass := enumclass cats |}
    | KEnumClass =>
        Ok {| method := method cats; property := property cats;
              other := other cats; enumclass := enumclass cats ++ [name] |}
    | KPlain =>
        c <- getitem name 0 ;;
        if negb (Ascii.eqb c "_") || (startswith name "__" && endswith name "__")
        then Ok {| method := method cats; property := property cats;
                   other := other cats ++ [name]; enumclass := enumclass cats |}
        else Ok cats
    end.

(** The text between the parentheses of the class header. *)
Definition base_text (hide_mod : list Base) (base : Base) : option string :=
  if b_root base then None
  else if bool_decide (base ∈ hide_mod) then Some (b_name base)
  else if startswith (b_module base) "wx" then Some ("wx." +:+ b_name base)
  else Some (b_module base +:+ "." +:+ b_name base).

Definition header_line (cls : Class) (hide_mod : list Base) : string :=
  "class " +:+ c_name cls +:+ "("
    +:+ join ", " (omap (base_text hide_mod) (c_bases cls)) +:+ "):".

(** [d or " "] for a docstring. *)
Definition doc_or_blank (d : option string) : string :=
  match d with
  | Some s => if nonempty s then s else " "
  | None => " "
  end.

(** The [issubclass(cls, wx.Event)] branch: [for i in range(1, min(3, len(sig.args)))]. *)
Definition event_arg (sig : Signature) (i : nat) : result Signature :=
  match args sig !! i with
  | None => Raise IndexError
  | Some a =>
      if contains "Type" (name a) then set_type sig i "wx._EventType"
      else if bool_decide (name a ∈ ["id"; "winid"; "windid"])
      then set_type sig i "wx._WindowID"
      else Ok sig
  end.

(** The body of [for sig in sigs] in the constructor part of [make_stub]. *)
Definition init_heuristics (cls : Class) (sig : Signature) : result Signature :=
  if (List.length (args sig) <? 2)%nat then Ok sig
  else
    match args sig !! 1 with
    | None => Raise IndexError
    | Some a1 =>
        if c_window cls && String.eqb (name a1) "parent" then
          sig1 <- set_type sig 1
                    (if c_toplevel cls then "Optional[wx.Window]" else "wx.Window") ;;
          match args sig1 !! 2 with
          | None => Raise IndexError
          | Some a2 =>
              if String.eqb (name a2) "id" then set_type sig1 2 "wx._WindowID"
              else Ok sig1
          end
        else if c_event cls then
          rfold event_arg sig (seq 1 (Nat.min 3 (List.length (args sig)) - 1))
        else Ok sig
    end.

(** Printing one signature or an overload group. *)
Definition print_sigs (indent : string) (sigs : list Signature) : Out unit :=
  match sigs with
  | [] => oret tt
  | [sig] => print (sig_line indent sig)
  | _ => ofor (fun sig => print (indent +:+ "@overload") ;;; print (sig_line indent sig)) sigs
  end.

(** [# First do __init__] *)
Definition stub_init (rt : Runtime) (cls : Class) (add_any : bool) : Out unit :=
  sigs <~ olift (find_signatures rt (doc_or_blank (c_doc cls)) (c_name cls)
                   true true add_any) ;;
  sigs <~ (match sigs with
           | [] => olift (find_signatures rt (doc_or_blank (c_init_doc cls))
                            (c_name cls) true true add_any)
           | _ => oret sigs
           end) ;;
  match sigs with
  | [] =>
      let s := c_init_inspect cls in
      if bool_decide (s ∈ deafult_signatures rt) then oret tt
      else print ("    def __init__" +:+ s +:+ " -> None: ...")
  | _ =>
      sigs <~ olift (rmap (init_heuristics cls) sigs) ;;
      print_sigs "    " sigs
  end.

(** [getattr(cls, name)] for a key of [cls.__dict__]. *)
Definition getattr (cls : Class) (name : string) : result Member :=
  match assoc name (c_dict cls) with
  | Some obj => Ok obj
  | None => Raise AttributeError
  end.

(** The [len(sigs) == 1] branch of the method loop: the getter records, the
    setter takes. *)
Definition getter_setter (setters : gmap string string) (name : string)
    (sig : Signature) : result (gmap string string * Signature) :=
  if startswith (sig_name sig) "Get" then
    let t := default (retanot sig)
               (assoc (removeprefix "wx." (retanot sig)) convert_arg_type) in
    Ok (<[replace "Get" "Set" (sig_name sig) := t]> setters, sig)
  else if bool_decide (is_Some (setters !! sig_name sig))
          && (List.length (args sig) =? 2)%nat
          && match args sig !! 1 with
             | Some a => bool_decide (tp a = None) || bool_decide (tp a = Some "Any")
             | None => false
             end
  then
    match setters !! name with
    | None => Raise KeyError
    | Some t =>
        sig' <- set_type sig 1 t ;;
        Ok (delete name setters, sig')
    end
  else Ok (setters, sig).

(** One turn of [for name in sorted(objects_by_category["method"])]. *)
Definition stub_method (rt : Runtime) (cls : Class) (add_any : bool)
    (setters : gmap string string) (name : string) : Out (gmap string string) :=
  obj <~ olift (getattr cls name) ;;
  sigs <~ olift (find_signatures rt (m_doc obj) name false true add_any) ;;
  match sigs with
  | [] =>
      s <~ olift (signature_using_inspect (m_str_sig obj) (m_signature obj) add_any) ;;
      print ("    def " +:+ name +:+ s +:+ " -> Any: ...") ;;;
      oret setters
  | [sig] =>
      r <~ olift (getter_setter setters name sig) ;;
      print (sig_line "    " (snd r)) ;;;
      oret (fst r)
  | _ =>
      print_sigs "    " sigs ;;; oret setters
  end.

Fixpoint stub_methods (rt : Runtime) (cls : Class) (add_any : bool)
    (setters : gmap string string) (names : list string) : Out unit :=
  match names with
  | [] => oret tt
  | name :: rest =>
      setters' <~ stub_method rt cls add_any setters name ;;
      stub_methods rt cls add_any setters' rest
  end.

Definition in_dict (cls : Class) (name : string) : bool :=
  bool_decide (is_Some (assoc name (c_dict cls))).

(** One turn of [for name in sorted(objects_by_category["property"])]. *)
Definition property_line (cls : Class) (name : string) : string :=
  let g := if in_dict cls ("Get" +:+ name) then "Get" +:+ name
           else if in_dict cls ("Is" +:+ name) then "Is" +:+ name
           else "None" in
  let s := "Set" +:+ name in
  "    " +:+ name +:+ " = property(" +:+ g
    +:+ (if in_dict cls s then ", " +:+ s else EmptyString) +:+ ")".

(** [for element in elements: print(...); objects_by_category["other"].remove(element)] *)
Fixpoint enum_elements (elements other : list string) : Out (list string) :=
  match elements with
  | [] => oret other
  | element :: rest =>
      print ("        " +:+ element +:+ " = ...") ;;;
      other' <~ olift (list_remove element other) ;;
      enum_elements rest other'
  end.

(** One turn of [for name in objects_by_category["enumclass"]]. *)
Definition stub_enum (cls : Class) (other : list string) (name : string)
  : Out (list string) :=
  print ("    class " +:+ name +:+ "(wx._WxSipEnumtype):") ;;;
  let elements :=
    sorted (map fst (filter (fun item => name ∈ m_instance_of (snd item)) (c_dict cls))) in
  other' <~ enum_elements elements other ;;
  ofor (fun element => print ("    " +:+ element +:+ ": " +:+ name)) elements ;;;
  oret other'.

Fixpoint stub_enums (cls : Class) (other : list string) (names : list string)
  : Out (list string) :=
  match names with
  | [] => oret other
  | name :: rest =>
      other' <~ stub_enum cls other name ;;
      stub_enums cls other' rest
  end.

(** One turn of [for name in sorted(objects_by_category["other"])]. *)
Definition stub_other (cls : Class) (name : string) : Out unit :=
  match assoc name (c_dict cls) with
  | None => oraise KeyError
  | Some obj => print ("    " +:+ name +:+ ": " +:+ m_annot obj)
  end.

Definition no_categories : Categories :=
  {| method := []; property := []; other := []; enumclass := [] |}.

Definition make_stub (rt : Runtime) (cls : Class) (add_any all_methods : bool)
    (hide_mod : list Base) : Out unit :=
  cats <~ olift (rfold (categorize (ignore_names rt cls all_methods))
                   no_categories (c_dict cls)) ;;
  print (header_line cls hide_mod) ;;;
  stub_init rt cls add_any ;;;
  stub_methods rt cls add_any ∅ (sorted (method cats)) ;;;
  ofor (fun name => print (property_line cls name)) (sorted (property cats)) ;;;
  other' <~ stub_enums cls (other cats) (enumclass cats) ;;
  ofor (stub_other cls) (sorted other').

(** A plain function as [make_function_stub] reads it. *)
Record Function : Type := {
  f_name : string;           (* [obj.__name__] *)
  f_doc : option string      (* [obj.__doc__] *)
}.

(** The module's globals that [make_function_stub] looks up at call time:
    [name] is [None] while the global is unbound. *)
Record Globals : Type := { g_name : option string }.

(** The globals once the module body has run: line 32 is
    [del ident, val, arg, args, name, tp_repr, ret]. *)
Definition module_globals : Globals := {| g_name := None |}.

Definition make_function_stub (rt : Runtime) (g : Globals) (obj : Function)
    (add_any : bool) : Out unit :=
  sigs <~ olift (find_signatures rt (doc_or_blank (f_doc obj)) (f_name obj)
                   false false add_any) ;;
  match sigs with
  | [] =>
      match g_name g with
      | None => oraise NameError
      | Some name => print ("def " +:+ name +:+ "(*args, **kwargs) -> Any: ...")
      end
  | _ => print_sigs EmptyString sigs
  end.

(** What [eval(name, wx.__dict__)] gives in the command-line loop. *)
Inductive WxObject : Type :=
  | OClass (cls : Class)         (* [isinstance(obj, type)] *)
  | OFunction (f : Function)     (* callable, with [__name__] and [__doc__] *)
  | OUnrecognized.

(** The loop of the [__main__] block: [for name in args.cls] binds the
    module's global [name]. [eval_wx] is [eval(name, wx.__dict__)] and
    [write_recursive] the call of that function with the options given. *)
Fixpoint main_loop (rt : Runtime) (eval_wx : string -> result WxObject)
    (write_recursive : Class -> Out unit)
    (add_any subclasses all_methods : bool) (g : Globals) (names : list string)
  : Out Globals :=
  match names with
  | [] => oret g
  | name :: rest =>
      let g := {| g_name := Some name |} in
      obj <~ olift (eval_wx name) ;;
      (match obj with
       | OClass cls =>
           if subclasses then write_recursive cls
           else make_stub rt cls add_any all_methods []
       | OFunction f => make_function_stub rt g f add_any
       | OUnrecognized => oraise TypeError
       end) ;;;
      print EmptyString ;;;
      main_loop rt eval_wx write_recursive add_any subclasses all_methods g rest
  end.

End StubOutliner.

(** ** update.py *)

Module Update.
Import Py.

(** *** The declaration classes *)

Record Import_ : Type := mkImport { imp_name : string; imp_mod : string }.

Definition Import_str (imp : Import_) : string :=
  "from " +:+ imp_mod imp +:+ " import " +:+ imp_name imp +:+ " as " +:+ imp_name imp.

Record ImportGroup : Type := mkImportGroup {
  ig_mod : string;
  ig_imports : list Import_
}.

(** [ImportGroup.__init__] *)
Definition ImportGroup_init (imports : list Import_) : result ImportGroup :=
  match imports with
  | [] => Raise AssertionError
  | imp0 :: _ =>
      let mod_ := imp_mod imp0 in
      if forallb (fun imp => String.eqb (imp_mod imp) mod_) imports
      then Ok (mkImportGroup mod_ imports)
      else Raise ValueError
  end.

Definition ImportGroup_str (g : ImportGroup) : string :=
  let names := map (fun imp => imp_name imp +:+ " as " +:+ imp_name imp) (ig_imports g) in
  let r := "from " +:+ ig_mod g +:+ " import " +:+ join ", " names in
  if (String.length r <=? 80)%nat then r
  else "from " +:+ ig_mod g +:+ " import (" +:+ newline +:+ "    "
         +:+ join ("," +:+ newline +:+ "    ") names +:+ newline +:+ "    )".

(** [data] is [None] when the constructor was not given one: reading it is
    then an [AttributeError]. *)
Record Anotation : Type := mkAnotation {
  a_name : string;
  a_type : string;
  a_comment : string;
  a_data : option Z
}.

Definition Anotation_str (a : Anotation) : string :=
  if nonempty (a_comment a)
  then a_name a +:+ ": " +:+ a_type a +:+ "  # " +:+ a_comment a
  else a_name a +:+ ": " +:+ a_type a.

Record EnumValue : Type := mkEnumValue { ev_name : string; ev_cls : string }.

Record EnumClass : Type := mkEnumClass {
  ec_name : string;
  ec_values : option (list EnumValue)
}.

(** [EnumClass.__init__] *)
Definition EnumClass_init (name : string) (values : option (list EnumValue))
  : result EnumClass :=
  match values with
  | Some vals =>
      if forallb (fun val => String.eqb (ev_cls val) name) vals
      then Ok (mkEnumClass name values)
      else Raise ValueError
  | None => Ok (mkEnumClass name values)
  end.

Definition EnumClass_str (e : EnumClass) : result string :=
  match ec_values e with
  | None => Raise ValueError
  | Some vals =>
      let name := ec_name e in
      head_lines <- rmap (fun val =>
                      if String.eqb (ev_cls val) name
                      then Ok ("    " +:+ ev_name val +:+ " = ...")
                      else Raise ValueError) vals ;;
      let tail_lines :=
        map (fun val => ev_name val +:+ ": Literal[" +:+ name +:+ "."
                          +:+ ev_name val +:+ "]") vals in
      Ok (join newline
            (("class " +:+ name +:+ "(_WxSipEnumtype):") :: head_lines
               ++ [EmptyString] ++ tail_lines))
  end.

(** The members of [def_err]: a [Class] or an [Assignment]. *)
Inductive ErrDef : Type :=
  | Class_ (name : string) (bases : list string)
  | Assignment (name value : string).

Definition err_name (d : ErrDef) : string :=
  match d with
  | Class_ name _ => name
  | Assignment name _ => name
  end.

Definition ErrDef_str (d : ErrDef) : string :=
  match d with
  | Class_ name bases => "class " +:+ name +:+ "(" +:+ join ", " bases +:+ "): pass"
  | Assignment name value => name +:+ " = " +:+ value
  end.

(** *** The override directory *)

(** An argument of a method in an override file: its name and whether it is
    annotated. *)
Record ArgNode : Type := { arg : string; annotation : bool }.

(** An expression where the script reads [.id]: an [ast.Name], or any other
    node ([ast.Attribute], [ast.Call], [ast.Subscript], ...), which has no
    such attribute. *)
Inductive Expr : Type :=
  | Name (id : string)
  | NotName.

#[global] Instance Expr_eq_dec : EqDecision Expr.
Proof. solve_decision. Defined.

(** [e.id] *)
Definition expr_id (e : Expr) : result string :=
  match e with
  | Name id => Ok id
  | NotName => Raise AttributeError
  end.

(** [ast.FunctionDef]: [args] is [posonlyargs + args]. *)
Record FunctionDef : Type := {
  fd_name : string;
  fd_args : list ArgNode;
  decorator_list : list Expr
}.

Inductive Node : Type :=
  | ClassDef (name : string) (body : list (option FunctionDef))
  | FuncDef (f : FunctionDef)
  | AnnAssign (target : Expr)
  | OtherNode.

(** An override file that passed the filter on [stub_dir.glob]. *)
Record Module_ : Type := { stem : string; mod_body : list Node }.

Definition dotted (modname cls meth : string) : string :=
  modname +:+ "." +:+ cls +:+ "." +:+ meth.

(** The body of [check_has_anotations] for one [FunctionDef] of the class. *)
Definition check_method (modname cls : string) (node : FunctionDef) : Out unit :=
  let args := fd_args node in
  let first_is_self :=
    match args with
    | a :: _ => String.eqb (arg a) "self"
    | [] => false
    end in
  decorators <~ olift (rmap expr_id (decorator_list node)) ;;
  (if bool_decide ("staticmethod" ∈ decorators) then
     if first_is_self
     then print ("Error: 'self' argument to staticmethod at "
                   +:+ dotted modname cls (fd_name node))
     else oret tt
   else
     if negb first_is_self
     then print ("Error: missing 'self' argument to method at "
                   +:+ dotted modname cls (fd_name node))
     else oret tt) ;;;
  let missing :=
    map arg (filter (fun a => annotation a = false /\ arg a <> "self") args) in
  match missing with
  | [] => oret tt
  | _ => print ("Error: method " +:+ dotted modname cls (fd_name node)
                  +:+ " is missing anotation for arguments: " +:+ join ", " missing)
  end.

Definition check_has_anotations (cls : string) (body : list (option FunctionDef))
    (modname : string) : Out unit :=
  ofor (fun node => match node with
                    | Some f => check_method modname cls f
                    | None => oret tt
                    end) body.

(** *** The namespace *)

(** A value of [wx.__dict__], by the test of the classification loop it
    passes. *)
Inductive WxValue : Type :=
  | VEnumType                                   (* [tp is sipenum] *)
  | VInt (repr : string)                        (* [tp is int] *)
  | VStr (repr : string)                        (* [tp in (str, bytes)] *)
  | VEnumValue (tp_name : string)               (* [isinstance(tp, sipenum)] *)
  | VEventBinder                                (* [tp is wx.PyEventBinder] *)
  | VSipObject (tp_name : string)               (* [isinstance(tp, siptype)] *)
  | VException (obj_name : string) (bases : list string)
  | VClass (qualname : string) (dialog control window : bool)
  | VFunction (qualname : string)
  | VModule
  | VUnknown (tp_name repr : string).

(** [mod_dict]: iteration follows insertion order and keys are unique. *)
Definition Namespace : Type := list (string * WxValue).

(** [d.pop(name)] *)
Fixpoint dict_pop (name : string) (d : Namespace) : result Namespace :=
  match d with
  | [] => Raise KeyError
  | (k, v) :: r =>
      if String.eqb name k then Ok r
      else match dict_pop name r with
           | Ok r' => Ok ((k, v) :: r')
           | Raise e => Raise e
           end
  end.

(** [d.pop(name, None)] *)
Definition dict_discard (name : string) (d : Namespace) : Namespace :=
  match dict_pop name d with
  | Ok d' => d'
  | Raise _ => d
  end.

(** [name[0] != "_"] *)
Definition public (name : string) : result bool :=
  c <- getitem name 0 ;; Ok (negb (Ascii.eqb c "_")).

(** The state the loop over the override files carries. *)
Record Overrides : Type := mkOverrides {
  mod_dict : Namespace;
  classes_stubed : gset string;
  def_import : list ImportGroup
}.

(** The state of the loop over one file's nodes. *)
Record FileScan : Type := mkFileScan {
  fs_dict : Namespace;
  fs_stubed : gset string;
  fs_i : list Import_;
  last_overload : string
}.

Definition add_import (modstem name : string) (i : list Import_) : list Import_ :=
  i ++ [mkImport name ("wx." +:+ modstem)].

(** One turn of [for node in mod_node.body]. *)
Definition scan_node (modstem : string) (st : FileScan) (node : Node) : Out FileScan :=
  match node with
  | ClassDef name body =>
      pub <~ olift (public name) ;;
      if pub then
        check_has_anotations name body modstem ;;;
        let i := add_import modstem name (fs_i st) in
        match dict_pop name (fs_dict st) with
        | Raise _ =>
            (if bool_decide (name ∈ fs_stubed st)
             then print ("Error: duplicate class definition - " +:+ name)
             else print ("Error: class " +:+ modstem +:+ "." +:+ name
                           +:+ " does not corespond to an object in the wx namespace"
                           +:+ newline)) ;;;
            oret (mkFileScan (fs_dict st) (fs_stubed st) i (last_overload st))
        | Ok d =>
            oret (mkFileScan d ({[name]} ∪ fs_stubed st) i (last_overload st))
        end
      else oret st
  | FuncDef f =>
      let name := fd_name f in
      pub <~ olift (public name) ;;
      if pub then
        r <~ (match decorator_list f with
              | [] => oret (Some (last_overload st))
              | d0 :: _ =>
                  id <~ olift (expr_id d0) ;;
                  if String.eqb id "overload" then
                    if String.eqb (last_overload st) name then oret None
                    else oret (Some name)
                  else oraise AssertionError
              end) ;;
        match r with
        | None => oret st
        | Some last =>
            let i := add_import modstem name (fs_i st) in
            match dict_pop name (fs_dict st) with
            | Raise _ =>
                print ("Error: function " +:+ modstem +:+ "." +:+ name
                         +:+ " does not corespond to an object in the wx namespace"
                         +:+ newline) ;;;
                oret (mkFileScan (fs_dict st) (fs_stubed st) i last)
            | Ok d => oret (mkFileScan d (fs_stubed st) i last)
            end
        end
      else oret st
  | AnnAssign target =>
      name <~ olift (expr_id target) ;;
      pub <~ olift (public name) ;;
      if pub then
        oret (mkFileScan (dict_discard name (fs_dict st)) (fs_stubed st)
                (add_import modstem name (fs_i st)) (last_overload st))
      else oret st
  | OtherNode => oret st
  end.

Fixpoint scan_nodes (modstem : string) (st : FileScan) (nodes : list Node)
  : Out FileScan :=
  match nodes with
  | [] => oret st
  | node :: rest =>
      st' <~ scan_node modstem st node ;;
      scan_nodes modstem st' rest
  end.

(** One turn of [for mod in modules]. *)
Definition scan_module (ov : Overrides) (mod_ : Module_) : Out Overrides :=
  st <~ scan_nodes (stem mod_)
          (mkFileScan (mod_dict ov) (classes_stubed ov) [] EmptyString)
          (mod_body mod_) ;;
  match fs_i st with
  | [] =>
      print ("Error: nothing to import from module: " +:+ stem mod_) ;;;
      oret (mkOverrides (fs_dict st) (fs_stubed st) (def_import ov))
  | i =>
      g <~ olift (ImportGroup_init i) ;;
      oret (mkOverrides (fs_dict st) (fs_stubed st) (def_import ov ++ [g]))
  end.

Fixpoint scan_modules (ov : Overrides) (modules : list Module_) : Out Overrides :=
  match modules with
  | [] => oret ov
  | mod_ :: rest =>
      ov' <~ scan_module ov mod_ ;;
      scan_modules ov' rest
  end.

(** *** Classification of the namespace *)

Definition overloads : list (string * string) :=
  [ ("PlatformInfo", "tuple[str, ...]");
    ("VERSION", "tuple[int, int, int, str]");
    ("TIMER_CONTINUOUS", "bool");
    ("TIMER_ONE_SHOT", "bool") ].

Definition remove : list string :=
  [ "PyDataObjectSimple"; "PyRegionIterator"; "deprecated"; "deprecatedMsg";
    "ImageArray"; "CommandList"; "FileHistoryMenuList"; "MenuItemList";
    "MenuList"; "PointList"; "SizerItemList"; "WindowList" ].

(** The output lists, and [def_val], a [defaultdict(list)]. *)
Record Buckets : Type := mkBuckets {
  def_undef : list Anotation;
  def_const : list Anotation;
  def_evt : list Anotation;
  def_err : list ErrDef;
  def_enum : list EnumClass;
  def_val : gmap string (list EnumValue)
}.

Definition add_undef (a : Anotation) (b : Buckets) : Buckets :=
  mkBuckets (def_undef b ++ [a]) (def_const b) (def_evt b) (def_err b)
    (def_enum b) (def_val b).
Definition add_const (a : Anotation) (b : Buckets) : Buckets :=
  mkBuckets (def_undef b) (def_const b ++ [a]) (def_evt b) (def_err b)
    (def_enum b) (def_val b).
Definition add_evt (a : Anotation) (b : Buckets) : Buckets :=
  mkBuckets (def_undef b) (def_const b) (def_evt b ++ [a]) (def_err b)
    (def_enum b) (def_val b).
Definition add_err (d : ErrDef) (b : Buckets) : Buckets :=
  mkBuckets (def_undef b) (def_const b) (def_evt b) (def_err b ++ [d])
    (def_enum b) (def_val b).
Definition add_enum (e : EnumClass) (b : Buckets) : Buckets :=
  mkBuckets (def_undef b) (def_const b) (def_evt b) (def_err b)
    (def_enum b ++ [e]) (def_val b).
(** [def_val[cls].append(v)] *)
Definition add_val (cls : string) (v : EnumValue) (b : Buckets) : Buckets :=
  mkBuckets (def_undef b) (def_const b) (def_evt b) (def_err b) (def_enum b)
    (<[cls := default [] (def_val b !! cls) ++ [v]]> (def_val b)).

(** [for name, anot in overloads] *)
Definition pop_overload (st : Namespace * list Anotation) (o : string * string)
  : result (Namespace * list Anotation) :=
  d <- dict_pop (fst o) (fst st) ;;
  Ok (d, snd st ++ [mkAnotation (fst o) (snd o) EmptyString (Some 3%Z)]).

Definition skipped (name : string) : bool :=
  startswith name "_" || startswith name "test" || endswith name "_iterator".

(** One turn of [for name, obj in mod_dict.items()]. *)
Definition classify (b : Buckets) (item : string * WxValue) : Out Buckets :=
  let '(name, obj) := item in
  if skipped name then oret b
  else if startswith name "wxEVT"
  then oret (add_evt (mkAnotation name "_EventType" EmptyString None) b)
  else
    match obj with
    | VEnumType =>
        e <~ olift (EnumClass_init name (Some [])) ;;
        oret (add_enum e b)
    | VInt repr =>
        oret (add_const (mkAnotation name ("Literal[" +:+ repr +:+ "]")
                           EmptyString (Some 1%Z)) b)
    | VStr repr =>
        oret (add_const (mkAnotation name ("Literal[" +:+ repr +:+ "]")
                           EmptyString (Some 2%Z)) b)
    | VEnumValue tp_name =>
        oret (add_val tp_name (mkEnumValue name tp_name) b)
    | VEventBinder =>
        oret (add_const (mkAnotation name "PyEventBinder" EmptyString (Some 4%Z)) b)
    | VSipObject tp_name =>
        oret (add_const (mkAnotation name tp_name EmptyString (Some 3%Z)) b)
    | VException obj_name bases =>
        if String.eqb name obj_name then oret (add_err (Class_ name bases) b)
        else oret (add_err (Assignment name obj_name) b)
    | VClass qualname dialog control window =>
        if contains "DeprecatedClassProxy" qualname then oret b
        else
          let comment := if dialog then "dialog"
                         else if control then "control"
                         else if window then "window"
                         else EmptyString in
          oret (add_undef (mkAnotation name "Any" comment None) b)
    | VFunction qualname =>
        if contains "deprecated_func" qualname then oret b
        else oret (add_undef (mkAnotation name "Any" "function" None) b)
    | VModule => oret b
    | VUnknown tp_name repr =>
        print ("Error: Encountered unknown object of type '" +:+ tp_name
                 +:+ "' at name '" +:+ name +:+ "': " +:+ repr) ;;;
        oret b
    end.

Fixpoint classify_all (b : Buckets) (items : Namespace) : Out Buckets :=
  match items with
  | [] => oret b
  | item :: rest =>
      b' <~ classify b item ;;
      classify_all b' rest
  end.

(** [for enum in def_enum: enum.values = def_val.pop(enum.name)]; what is
    left of [def_val] comes back with the enumerations. *)
Fixpoint partition_enums (enums : list EnumClass)
    (vals : gmap string (list EnumValue))
  : result (list EnumClass * gmap string (list EnumValue)) :=
  match enums with
  | [] => Ok ([], vals)
  | enum :: rest =>
      match vals !! ec_name enum with
      | None => Raise KeyError
      | Some values =>
          r <- partition_enums rest (delete (ec_name enum) vals) ;;
          Ok (mkEnumClass (ec_name enum) (Some values) :: fst r, snd r)
      end
  end.

(** *** Sorting *)

(** [False <= True] *)
Definition bool_leb (a b : bool) : bool := implb a b.

Definition has_data (a : Anotation) : bool :=
  match a_data a with Some _ => true | None => false end.

Definition data (a : Anotation) : Z := default 0%Z (a_data a).

(** [obj.type[:7]] *)
Definition type7 (a : Anotation) : string := take_str 7 (a_type a).

(** The three sorts of [def_const]: by name, by [obj.type[:7]], by
    [obj.data]; the last key reads [data]. *)
Definition sort_const (l : list Anotation) : result (list Anotation) :=
  let l := sort_by a_name String.leb l in
  let l := sort_by type7 String.leb l in
  if forallb has_data l then Ok (sort_by data Z.leb l)
  else Raise AttributeError.

Definition is_assignment (d : ErrDef) : bool :=
  match d with
  | Class_ _ _ => false
  | Assignment _ _ => true
  end.

(** The two sorts of [def_err]: by name, then by [type(obj) is not Class]. *)
Definition sort_err (l : list ErrDef) : list ErrDef :=
  sort_by is_assignment bool_leb (sort_by err_name String.leb l).

(** What the script has built when it opens the output file. *)
Record Final : Type := mkFinal {
  f_import : list ImportGroup;
  f_undef : list Anotation;
  f_enum : list EnumClass;
  f_const : list Anotation;
  f_evt : list Anotation;
  f_err : list ErrDef;
  (* the entries of [def_val] no enumeration has taken *)
  f_val : gmap string (list EnumValue);
  f_stubed : gset string
}.

(** The script from the loop over the override files to the sorts.
    [wx_dict] is [mod_dict] as line 106 leaves it; the lines printed are the
    diagnostics on standard output. *)
Definition run (modules : list Module_) (wx_dict : Namespace) : Out Final :=
  ov <~ scan_modules (mkOverrides wx_dict ∅ []) modules ;;
  st <~ olift (rfold pop_overload (mod_dict ov, []) overloads) ;;
  d <~ olift (rfold (fun d name => dict_pop name d) (fst st) remove) ;;
  b <~ classify_all (mkBuckets [] (snd st) [] [] [] ∅) d ;;
  r <~ olift (partition_enums (def_enum b) (def_val b)) ;;
  consts <~ olift (sort_const (def_const b)) ;;
  oret (mkFinal (def_import ov)
          (sort_by a_name String.leb (def_undef b))
          (sort_by ec_name String.leb (fst r))
          consts
          (sort_by a_name String.leb (def_evt b))
          (sort_err (def_err b))
          (snd r)
          (classes_stubed ov)).

(** The six texts [template.format] receives. *)
Record Sections : Type := mkSections {
  undef : string;
  imp : string;
  err : string;
  enum : string;
  const : string;
  evt : string
}.

Definition render (f : Final) : result Sections :=
  enums <- rmap EnumClass_str (f_enum f) ;;
  Ok (mkSections
        (join newline (map Anotation_str (f_undef f)))
        (join newline (map ImportGroup_str (f_import f)))
        (join (newline +:+ newline) (map ErrDef_str (f_err f)))
        (join (newline +:+ newline) enums)
        (join newline (map Anotation_str (f_const f)))
        (join newline (map Anotation_str (f_evt f)))).

End Update.

(** ** Example inputs *)

Module Examples.
Import Py StubOutliner Update.

Definition builtin (name : string) : PyType :=
  {| tp_name := name; tp_module := "builtins" |}.

Definition parsed (name : string) (args : list string) (ret : string) : Parsed :=
  {| p_name := name; p_args := args; p_return := ret |}.

(** The matches of the grammar in the docstrings the examples use. *)
Definition demo_docs : list (string * list Parsed) :=
  [ ("Foo(parent, id=0) -> None", [parsed "Foo" ["parent"; "id=0"] "None"]);
    ("Bar(parent)", [parsed "Bar" ["parent"] "None"]);
    ("GetWidth() -> int", [parsed "GetWidth" [] "int"]);
    ("SetWidth(value)", [parsed "SetWidth" ["value"] "None"]);
    ("GetGetter() -> int", [parsed "GetGetter" [] "int"]);
    ("SetGetter(value)", [parsed "SetGetter" ["value"] "None"]) ].

Definition letter_or_underscore (c : ascii) : bool :=
  let n := N_of_ascii c in
  ((65 <=? n) && (n <=? 90) || (97 <=? n) && (n <=? 122) || (n =? 95))%N.

Definition demo_rt : Runtime := {|
  scanString := fun doc => default [] (assoc doc demo_docs);
  isidentifier := fun s => match s with
                           | String c _ => letter_or_underscore c
                           | EmptyString => false
                           end;
  wx_getattr := fun _ => None;
  literal_eval := fun s => if String.eqb s "0" then Some (builtin "int") else None;
  wx_hasattr := fun _ => false;
  object_dict := list_to_set ["__init__"; "__repr__"; "__eq__"; "__lt__"];
  object_init_inspect := fun add_any =>
    if add_any then "(self, /, *args: Any, **kwargs: Any)"
    else "(self, /, *args, **kwargs)";
  abort_inspect := fun add_any =>
    if add_any then "(self, /, *args: Any, **kwargs: Any)"
    else "(self, /, *args, **kwargs)"
|}.

Definition demo_method (doc : string) : Member := {|
  m_kind := KMethod;
  m_doc := doc;
  m_signature := None;
  m_str_sig := fun _ => "(self, /, *args, **kwargs)";
  m_annot := "method_descriptor";
  m_instance_of := []
|}.

Definition wx_window : Base :=
  {| b_name := "Window"; b_module := "wx._core"; b_root := false |}.

Definition demo_class (name : string) (doc : option string)
    (members : list (string * Member)) : Class := {|
  c_name := name;
  c_bases := [wx_window];
  c_doc := doc;
  c_init_doc := None;
  c_init_inspect := "(self, /, *args, **kwargs)";
  c_dict := members;
  c_inherited := list_to_set ["Show"; "Destroy"];
  c_window := true;
  c_toplevel := false;
  c_event := false
|}.

(** A window class documented as [Foo(parent, id=0) -> None]. *)
Definition Foo : Class := demo_class "Foo" (Some "Foo(parent, id=0) -> None") [].

(** A window class whose constructor takes [parent] alone. *)
Definition Bar : Class := demo_class "Bar" (Some "Bar(parent)") [].

(** A getter and its setter. *)
Definition Sized : Class :=
  demo_class "Sized" None
    [ ("SetWidth", demo_method "SetWidth(value)");
      ("GetWidth", demo_method "GetWidth() -> int") ].

(** A getter whose name holds [Get] twice. *)
Definition Sourced : Class :=
  demo_class "Sourced" None
    [ ("GetGetter", demo_method "GetGetter() -> int");
      ("SetGetter", demo_method "SetGetter(value)") ].

(** A function without a signature in its docstring, reached from the
    command line under another name. *)
Definition Target : Function := {| f_name := "Target"; f_doc := None |}.

Definition demo_eval (name : string) : result WxObject :=
  if String.eqb name "Alias" then Ok (OFunction Target)
  else if String.eqb name "Foo" then Ok (OClass Foo)
  else Raise NameError.

(** The names the script pops without a guard. *)
Definition required_names : Namespace :=
  map (fun o => (fst o, VSipObject "tuple")) overloads
  ++ map (fun name => (name, VClass name false false false)) remove.

(** A namespace with constants of every kind, an enumeration value whose
    class is not in the namespace, a class stubbed by hand, and an exception
    under its own name and under an alias. *)
Definition demo_wx : Namespace :=
  required_names ++
  [ ("ID_ANY", VInt "-1");
    ("Frame", VClass "Frame" false false true);
    ("LEFT", VEnumValue "Direction");
    ("NullBitmap", VSipObject "Bitmap");
    ("EVT_SIZE", VEventBinder);
    ("DefaultName", VStr "'frame'");
    ("wxEVT_SIZE", VInt "10079");
    ("PyAssertionError", VException "wxAssertionError" ["AssertionError"]);
    ("wxAssertionError", VException "wxAssertionError" ["AssertionError"]) ].

(** The same namespace with the enumeration [Direction] and a second value
    of it. *)
Definition demo_wx_enum : Namespace :=
  demo_wx ++ [ ("Direction", VEnumType); ("RIGHT", VEnumValue "Direction") ].

(** Two override files that both declare the class [Frame]. *)
Definition demo_overrides : list Module_ :=
  [ {| stem := "_frame"; mod_body := [ClassDef "Frame" []] |};
    {| stem := "_toplevel"; mod_body := [ClassDef "Frame" []] |} ].

End Examples.

(** ** stub-outliner.py: the remaining functions *)

Module Reflection.
Import Py StubOutliner.

(** The [for i, a in enumerate(self.args)] loop of [Signature.index]. *)
Fixpoint find_arg (name : string) (args : list Arg) (i : nat) : option nat :=
  match args with
  | [] => None
  | a :: rest =>
      if String.eqb (StubOutliner.name a) name then Some i
      else find_arg name rest (S i)
  end.

(** [Signature.index(name, default)]; [default] is [None] when the call
    gives none (the sentinel [_null]). The result is the index, or the
    default the caller gave. *)
Definition index {T : Type} (sig : Signature) (name : string)
    (default : option T) : result (nat + T) :=
  match find_arg name (args sig) 0 with
  | Some i => Ok (inl i)
  | None =>
      match default with
      | Some d => Ok (inr d)
      | None => Raise IndexError
      end
  end.

(** A class with the classes [cls.__subclasses__()] gives, each with its
    own: the part of the live hierarchy [write_recursive] walks. [self] is
    the class as it appears among the bases of other classes. *)
#[warnings="-register-all"]
Inductive ClassTree : Type :=
  | CT (cls : Class) (self : Base) (subclasses : list ClassTree).

Definition tree_class (t : ClassTree) : Class :=
  match t with CT cls _ _ => cls end.

(** The [for sub in subclasses] loop of [write_recursive], over the
    subclasses in sorted order, each with the recursive call on it. *)
Fixpoint write_subclasses (cls_name : string)
    (subs : list (string * (list Base -> Out (list Base))))
    (_seen : list Base) : Out (list Base) :=
  match subs with
  | [] => oret _seen
  | (sub_name, recurse) :: rest =>
      if String.eqb sub_name cls_name then write_subclasses cls_name rest _seen
      else
        print EmptyString ;;;
        _seen' <~ recurse _seen ;;
        write_subclasses cls_name rest _seen'
  end.

(** [write_recursive(cls, file, depth, max_depth, add_any, _seen)]. The set
    [_seen] is shared by all the calls: it goes in and comes back.
    [subclasses.sort(key=lambda c: c.__name__)] sorts the subclasses, here
    each already paired with the call made on it. *)
Fixpoint write_recursive (rt : Runtime) (add_any : bool) (max_depth : Z)
    (t : ClassTree) (depth : Z) (_seen : list Base) : Out (list Base) :=
  match t with
  | CT cls self subclasses =>
      make_stub rt cls add_any false _seen ;;;
      let depth := (depth + 1)%Z in
      if (depth =? max_depth)%Z then oret _seen
      else
        let _seen := _seen ++ [self] in
        let calls :=
          map (fun sub => (c_name (tree_class sub),
                           write_recursive rt add_any max_depth sub depth))
              subclasses in
        write_subclasses (c_name cls) (sort_by fst String.leb calls) _seen
  end.

End Reflection.

(** ** Predicates of the statements *)

Module Predicates.
Import Py StubOutliner Update.

(** Printing only appends to what was printed before. *)
Definition appends {A : Type} (m : Out A) : Prop :=
  forall w, exists out, fst (m w) = w ++ out.

(** The order a stable sort by [key] makes of a list in the order [R]: by
    key, and by [R] between elements whose keys are equivalent. *)
Definition lex {A K : Type} (key : A -> K) (le : K -> K -> bool)
    (R : A -> A -> Prop) (a b : A) : Prop :=
  le (key a) (key b) = true /\ (le (key b) (key a) = true -> R a b).

(** What [make_stub] prints after the constructor. *)
Definition after_init (rt : Runtime) (cls : Class) (add_any : bool)
    (cats : Categories) : Out unit :=
  stub_methods rt cls add_any ∅ (sorted (method cats)) ;;;
  ofor (fun name => print (property_line cls name)) (sorted (property cats)) ;;;
  other' <~ stub_enums cls (other cats) (enumclass cats) ;;
  ofor (stub_other cls) (sorted other').

(** Every decorator of the methods of a class body is a bare name: no
    read of [name.id] in [check_has_anotations] fails. *)
Definition is_name (e : Expr) : bool :=
  match e with Name _ => true | NotName => false end.

Definition plain_body (body : list (option FunctionDef)) : bool :=
  forallb (fun node => match node with
                       | Some f => forallb is_name (decorator_list f)
                       | None => true
                       end) body.

(** The dictionary has no key twice and holds no class already stubbed. *)
Definition consistent (d : Namespace) (stubed : gset string) : Prop :=
  NoDup (map fst d) /\ forall name, name ∈ stubed -> name ∉ map fst d.

(** The enumeration value the scan of the namespace collects for an entry. *)
Definition collected (item : string * WxValue) : option EnumValue :=
  if skipped (fst item) || startswith (fst item) "wxEVT" then None
  else match snd item with
       | VEnumValue cls => Some (mkEnumValue (fst item) cls)
       | _ => None
       end.

(** The enumeration class the scan declares for an entry. *)
Definition declared (item : string * WxValue) : option string :=
  if skipped (fst item) || startswith (fst item) "wxEVT" then None
  else match snd item with
       | VEnumType => Some (fst item)
       | _ => None
       end.

(** The values of the namespace that declare [cls] as their owner, in the
    order of the scan. *)
Definition values_of (cls : string) (items : Namespace) : list EnumValue :=
  filter (fun v => ev_cls v = cls) (omap collected items).

(** [def_val[cls]] after more values for [cls] have been appended. *)
Definition grown (old : option (list EnumValue)) (more : list EnumValue)
  : option (list EnumValue) :=
  match more with
  | [] => old
  | _ => Some (default [] old ++ more)
  end.


(** The order of the constants: by [data]; for the same [data] by
    [type[:7]]; for the same [type[:7]] by name. *)
Definition const_order (a b : Anotation) : Prop :=
  (data a < data b)%Z \/
  (data a = data b /\
   (String.ltb (type7 a) (type7 b) = true \/
    (type7 a = type7 b /\ String.leb (a_name a) (a_name b) = true))).





End Predicates.

(** ** Predicates of the further statements *)

Module MorePredicates.
Import Py StubOutliner Update Reflection Predicates.

(** The character after the first [n] ones is upper-case. *)
Definition upper_at (n : nat) (s : string) : bool :=
  match String.get n s with
  | Some c => isupper c
  | None => false
  end.

(** One argument as it stands in a printed signature. *)
Definition arg_text (a : Arg) : string :=
  name a +:+ match tp a with Some t => ": " +:+ t | None => EmptyString end
         +:+ (if deafult a then " = ..." else EmptyString).

(** A computation raises no exception but the ones in [P]. *)
Definition raises_only {A : Type} (P : exn -> Prop) (m : Out A) : Prop :=
  forall w w' e, m w = (w', Raise e) -> P e.

(** A method of an override class about which [check_has_anotations] has
    nothing to say. *)
Definition method_ok (f : FunctionDef) : bool :=
  let first_is_self :=
    match fd_args f with
    | a :: _ => String.eqb (arg a) "self"
    | [] => false
    end in
  (if bool_decide (Name "staticmethod" ∈ decorator_list f)
   then negb first_is_self else first_is_self)
  && forallb (fun a => annotation a || String.eqb (arg a) "self") (fd_args f).

(** The names the scan of the namespace has put in the five output
    lists. *)
Definition bucket_names (b : Buckets) : list string :=
  map a_name (def_undef b) ++ map a_name (def_const b) ++ map a_name (def_evt b)
  ++ map err_name (def_err b) ++ map ec_name (def_enum b).

(** The names the aggregate stub declares outside its imports. *)
Definition final_names (f : Final) : list string :=
  map a_name (f_undef f) ++ map a_name (f_const f) ++ map a_name (f_evt f)
  ++ map err_name (f_err f) ++ map ec_name (f_enum f).

(** What the scan of one override file keeps true: the dictionary has no
    key twice and none of a stubbed class, its keys and the stubbed classes
    are names of the namespace [ns], and the imports collected so far all
    come from the module of the file. *)
Definition scan_inv (ns : Namespace) (modstem : string) (st : FileScan) : Prop :=
  consistent (fs_dict st) (fs_stubed st) /\
  (forall k, k ∈ map fst (fs_dict st) -> k ∈ map fst ns) /\
  (forall n, n ∈ fs_stubed st -> n ∈ map fst ns) /\
  Forall (fun imp => imp_mod imp = "wx." +:+ modstem) (fs_i st).

(** What the constructor heuristics may change in a signature: the types of
    the arguments at positions 1 and 2, and nothing else. *)
Definition retyped (sig sig' : Signature) : Prop :=
  retanot sig' = retanot sig /\ sig_name sig' = sig_name sig /\
  map name (args sig') = map name (args sig) /\
  map deafult (args sig') = map deafult (args sig) /\
  forall j, (j = 0 \/ 3 <= j)%nat -> args sig' !! j = args sig !! j.

(** The lines [Signature.print] and the overload marker make of a list of
    signatures. *)
Definition sigs_lines (indent : string) (sigs : list Signature) : list string :=
  match sigs with
  | [] => []
  | [sig] => [sig_line indent sig]
  | _ => flat_map (fun sig => [indent +:+ "@overload"; sig_line indent sig]) sigs
  end.


(** The names of the values of the enumerations of the aggregate stub, each
    declared by a [Literal] line after the class of its enumeration. *)
Definition enum_value_names (f : Final) : list string :=
  flat_map (fun e => map ev_name (default [] (ec_values e))) (f_enum f).

(** The names the import groups bring into the aggregate stub. *)
Definition imported (gs : list ImportGroup) : list string :=
  flat_map (fun g => map imp_name (ig_imports g)) gs.

(** An import group as [ImportGroup.__init__] accepts it. *)
Definition group_ok (g : ImportGroup) : Prop :=
  ig_imports g <> [] /\ Forall (fun imp => imp_mod imp = ig_mod g) (ig_imports g).

End MorePredicates.

(** * Properties *)

(** ** Facts about the Python primitives *)

Module PyFacts.
Import Py Predicates.

(** A prefix that is not the whole string leaves a character to read. *)
Lemma prefix_getitem (p s : string) :
  String.prefix p s = true -> s <> p ->
  exists c, getitem s (String.length p) = Ok c.
Proof.
  revert s. induction p as [|a p IH]; intros [|b s] Hp Hne; simpl in *;
    try congruence.
  - exists b. reflexivity.
  - destruct (ascii_dec a b) as [->|]; [|discriminate].
    destruct (IH s Hp) as [c Hc]; [congruence|].
    exists c. unfold getitem in *. simpl. exact Hc.
Qed.

Lemma rmap_ok {A B : Type} (f : A -> result B) (g : A -> B) (l : list A) :
  (forall x, x ∈ l -> f x = Ok (g x)) -> rmap f l = Ok (map g l).
Proof.
  induction l as [|x l IH]; intros H; simpl; [reflexivity|].
  rewrite (H x) by left. rewrite IH; [reflexivity|].
  intros y Hy. apply H. by right.
Qed.

(** If each call either succeeds or raises [e], and one raises, the whole
    map raises [e]. *)
Lemma rmap_raise {A B : Type} (f : A -> result B) (e : exn) (l : list A) (x : A) :
  (forall y, y ∈ l -> f y = Raise e \/ exists b, f y = Ok b) ->
  x ∈ l -> f x = Raise e -> rmap f l = Raise e.
Proof.
  induction l as [|y l IH]; intros Hall Hin Hx; [by apply elem_of_nil in Hin|].
  simpl. apply elem_of_cons in Hin as [->|Hin].
  - by rewrite Hx.
  - destruct (Hall y) as [Hy|[b Hy]]; [left| |]; rewrite Hy; [done|].
    rewrite IH; [done| |done..].
    intros z Hz. apply Hall. by right.
Qed.

Lemma rmap_total {A B : Type} (f : A -> result B) (l : list A) :
  (forall x, exists y, f x = Ok y) ->
  exists ys, rmap f l = Ok ys /\ Forall2 (fun x y => f x = Ok y) l ys.
Proof.
  intros Hf. induction l as [|x l (ys & Hys & Hall)]; simpl.
  - exists []. by split.
  - destruct (Hf x) as [y Hy]. rewrite Hy, Hys. exists (y :: ys).
    split; [done|]. by constructor.
Qed.

Lemma rfold_total {A S : Type} (f : S -> A -> result S) (l : list A) (s : S) :
  (forall s x, x ∈ l -> exists s', f s x = Ok s') ->
  exists s', rfold f s l = Ok s'.
Proof.
  revert s. induction l as [|x l IH]; intros s Hf; simpl; [eauto|].
  destruct (Hf s x) as [s' ->]; [left|].
  apply IH. intros s0 y Hy. apply Hf. by right.
Qed.

(** A fold whose steps raise nothing but [e] raises nothing but [e]. *)
Lemma rfold_only {A S : Type} (f : S -> A -> result S) (e : exn) (l : list A) (s : S) :
  (forall s x, f s x = Raise e \/ exists s', f s x = Ok s') ->
  rfold f s l = Raise e \/ exists s', rfold f s l = Ok s'.
Proof.
  intros Hf. revert s. induction l as [|x l IH]; intros s; simpl; [eauto|].
  destruct (Hf s x) as [->|[s' ->]]; [by left|]. apply IH.
Qed.

(** *** Printing only appends *)

Lemma appends_oret {A : Type} (a : A) : appends (oret a).
Proof. intros w. exists []. by rewrite app_nil_r. Qed.

Lemma appends_oraise {A : Type} (e : exn) : appends (@oraise A e).
Proof. intros w. exists []. by rewrite app_nil_r. Qed.

Lemma appends_olift {A : Type} (r : result A) : appends (olift r).
Proof. intros w. exists []. by rewrite app_nil_r. Qed.

Lemma appends_print (line : string) : appends (print line).
Proof. intros w. by exists [line]. Qed.

Lemma appends_obind {A B : Type} (m : Out A) (k : A -> Out B) :
  appends m -> (forall a, appends (k a)) -> appends (obind m k).
Proof.
  intros Hm Hk w. unfold obind. destruct (Hm w) as [o1 H1].
  destruct (m w) as [w1 [a|e]]; simpl in *; subst w1.
  - destruct (Hk a (w ++ o1)) as [o2 H2]. exists (o1 ++ o2).
    by rewrite H2, app_assoc.
  - by exists o1.
Qed.


Lemma appends_ofor {A : Type} (body : A -> Out unit) (l : list A) :
  (forall x, appends (body x)) -> appends (ofor body l).
Proof.
  intros H. induction l as [|x l IH]; simpl.
  - apply appends_oret.
  - apply appends_obind; [apply H|]. intros _. exact IH.
Qed.

(** *** The stable sort *)

Section SortFacts.
Context {A K : Type} (key : A -> K) (le : K -> K -> bool).
Hypothesis le_total : forall a b, le a b = true \/ le b a = true.
Hypothesis le_trans : forall a b c, le a b = true -> le b c = true -> le a c = true.

Lemma insert_by_perm (x : A) (l : list A) : insert_by key le x l ≡ₚ x :: l.
Proof.
  induction l as [|y l IH]; simpl; [done|].
  destruct (le (key x) (key y)); [done|].
  rewrite IH. apply Permutation_swap.
Qed.

Lemma sort_by_perm (l : list A) : sort_by key le l ≡ₚ l.
Proof.
  induction l as [|x l IH]; simpl; [done|].
  unfold sort_by in IH. by rewrite insert_by_perm, IH.
Qed.

Lemma insert_by_lex (R : A -> A -> Prop) (x : A) (l : list A) :
  Forall (R x) l -> StronglySorted (lex key le R) l ->
  StronglySorted (lex key le R) (insert_by key le x l).
Proof.
  induction l as [|y l IH]; intros HR Hs; simpl.
  - repeat constructor.
  - apply Forall_cons in HR as [HRy HRl].
    apply StronglySorted_inv in Hs as [Hsl Hy].
    destruct (le (key x) (key y)) eqn:Hxy.
    + constructor; [by constructor|].
      constructor; [by split|].
      rewrite Forall_forall in HRl, Hy |- *. intros z Hz. split.
      * eapply le_trans; [exact Hxy|]. apply (Hy z Hz).
      * intros _. by apply HRl.
    + constructor; [by apply IH|].
      rewrite insert_by_perm. constructor; [|done].
      split; [|congruence].
      by destruct (le_total (key x) (key y)) as [H|H]; [congruence|].
Qed.

Lemma sort_by_lex (R : A -> A -> Prop) (l : list A) :
  StronglySorted R l -> StronglySorted (lex key le R) (sort_by key le l).
Proof.
  induction l as [|x l IH]; intros Hs; simpl; [constructor|].
  apply StronglySorted_inv in Hs as [Hsl Hx].
  apply insert_by_lex; [|by apply IH].
  fold (sort_by key le l). by rewrite sort_by_perm.
Qed.

(** Sorting by a key that is the same for all elements changes nothing. *)
Lemma sort_by_const (k : K) (l : list A) :
  (forall x, key x = k) -> sort_by key le l = l.
Proof.
  intros Hk. induction l as [|x l IH]; simpl; [done|].
  fold (sort_by key le l). rewrite IH. destruct l as [|y l]; simpl; [done|].
  rewrite !Hk. by destruct (le_total k k) as [->| ->].
Qed.
End SortFacts.

Lemma strongly_sorted_any {A : Type} (l : list A) :
  StronglySorted (fun _ _ => True) l.
Proof.
  induction l; constructor; [done|]. by apply Forall_forall.
Qed.


Lemma string_leb_total (a b : string) : String.leb a b = true \/ String.leb b a = true.
Proof. apply String.leb_total. Qed.

Lemma string_leb_trans (a b c : string) :
  String.leb a b = true -> String.leb b c = true -> String.leb a c = true.
Proof.
  intros H1 H2. apply Is_true_true.
  pose proof (@transitivity _ String.le _ a b c) as Ht.
  apply Ht; unfold String.le; by apply Is_true_true.
Qed.

Lemma Z_leb_total (a b : Z) : Z.leb a b = true \/ Z.leb b a = true.
Proof. destruct (Z.leb_spec a b); [by left|right]. apply Z.leb_le. lia. Qed.

Lemma Z_leb_trans (a b c : Z) :
  Z.leb a b = true -> Z.leb b c = true -> Z.leb a c = true.
Proof. rewrite !Z.leb_le. lia. Qed.

End PyFacts.

(** ** stub-outliner.py: the type heuristics *)

Module HeuristicsSpec.
Import Py Predicates PyFacts StubOutliner.

Lemma match_never_raises (str patern : string) :
  exists b, match_ str patern = Ok b.
Proof.
  unfold match_. destruct (match_exact str patern) eqn:Hexact; [eauto|].
  destruct (match_leading str patern); [eauto|].
  unfold match_trailing.
  destruct (endswith patern "*" && startswith str (strip "*" patern)) eqn:Hw;
    [|eauto].
  apply andb_true_iff in Hw as [_ Hpre].
  unfold match_exact in Hexact. apply String.eqb_neq in Hexact.
  destruct (prefix_getitem _ _ Hpre Hexact) as [c ->]. simpl. eauto.
Qed.

(** C7. [match("winID", "win*")] is true, [match("winner", "win*")] is
    false, and ["win"] is accepted by the equality with the stem: the
    wildcard disjuncts do not accept it (the trailing one, had it been
    evaluated, would index past the end). No call of [match] raises. *)
Theorem match_win_pattern :
  match_ "winID" "win*" = Ok true /\
  match_ "winner" "win*" = Ok false /\
  (match_ "win" "win*" = Ok true /\
   match_exact "win" "win*" = true /\
   match_leading "win" "win*" = false /\
   match_trailing "win" "win*" = Raise IndexError) /\
  (forall str patern, exists b, match_ str patern = Ok b).
Proof.
  split; [reflexivity|]. split; [reflexivity|].
  split; [repeat split|]. apply match_never_raises.
Qed.

(** [patern_and_type.sort(key=len, reverse=True)] sorts pairs by their
    length, which is 2 for all of them: the table keeps the order of
    [type_to_arg]. *)
Lemma patern_and_type_order :
  patern_and_type
  = flat_map (fun tv => map (fun p => (p, fst tv)) (snd tv)) type_to_arg.
Proof.
  unfold patern_and_type, sort_by_rev.
  apply sort_by_const with (k := 2%Z); [|done].
  intros a b. destruct (Z_leb_total b a); auto.
Qed.

Lemma contains_star_cons (a : ascii) (s : string) :
  contains "*" (String a s) = false ->
  mem_char a "*" = false /\ contains "*" s = false.
Proof.
  intros H.
  change (contains "*" (String a s))
    with (String.prefix "*" (String a s) || contains "*" s) in H.
  apply orb_false_iff in H as [H1 H2]. split; [|done].
  unfold mem_char. rewrite orb_false_r. apply Ascii.eqb_neq. intros ->.
  destruct s; vm_compute in H1; discriminate.
Qed.

Lemma no_star_lstrip (s : string) : contains "*" s = false -> lstrip "*" s = s.
Proof.
  destruct s as [|a s]; [done|]. intros H.
  apply contains_star_cons in H as [Ha _].
  cbn [lstrip]. by rewrite Ha.
Qed.

Lemma no_star_rstrip (s : string) : contains "*" s = false -> rstrip "*" s = s.
Proof.
  induction s as [|a s IH]; [done|]. intros H.
  apply contains_star_cons in H as [Ha Hs].
  cbn [rstrip]. rewrite (IH Hs), Ha. by destruct s.
Qed.

Lemma no_star_endswith (s : string) : contains "*" s = false -> endswith s "*" = false.
Proof.
  induction s as [|a s IH]; [done|]. intros H.
  apply contains_star_cons in H as [Ha Hs].
  cbn [endswith]. rewrite (IH Hs), orb_false_r.
  apply String.eqb_neq. intros [= -> _]. vm_compute in Ha. discriminate.
Qed.

Lemma no_star_startswith (s : string) : contains "*" s = false -> startswith s "*" = false.
Proof.
  destruct s as [|a s]; [done|]. intros H.
  apply contains_star_cons in H as [Ha _].
  unfold startswith. cbn [String.prefix].
  destruct (ascii_dec "*" a) as [<-|]; [|done]. vm_compute in Ha. discriminate.
Qed.

(** The call [match(a, name)] of [parse_args] puts the name in the place of
    the pattern: for a name without an asterisk it is the test [a == name]. *)
Lemma match_swapped (a name : string) :
  contains "*" name = false -> match_ a name = Ok (String.eqb a name).
Proof.
  intros H. unfold match_, match_exact, match_leading, match_trailing, strip.
  rewrite (no_star_lstrip _ H), (no_star_rstrip _ H), (no_star_endswith _ H),
    (no_star_startswith _ H).
  cbn [andb]. by destruct (String.eqb a name).
Qed.

(** So the loop of [parse_args] is a lookup of the whole name among the
    patterns: no pattern with an asterisk applies to any name. *)
Lemma first_match_is_lookup (name : string) (table : list (string * string)) :
  contains "*" name = false -> first_match name table = Ok (assoc name table).
Proof.
  intros H. induction table as [|[a t] table IH]; [done|].
  cbn [first_match assoc]. rewrite (match_swapped _ _ H). cbn [rbind].
  rewrite String.eqb_sym. by destruct (String.eqb name a).
Qed.

Lemma first_match_never_raises (name : string) (table : list (string * string)) :
  exists r, first_match name table = Ok r.
Proof.
  induction table as [|[a t] table IH]; simpl; [eauto|].
  destruct (match_never_raises a name) as [[|] ->]; simpl; eauto.
Qed.

Lemma parse_arg_never_raises (rt : Runtime) (add_any : bool) (arg : string) :
  exists a, parse_arg rt add_any arg = Ok a.
Proof.
  unfold parse_arg. destruct (partition "=" arg) as [[name sep] dflt].
  destruct (nonempty dflt); [cbn [rbind]; eauto|].
  destruct (first_match_never_raises name patern_and_type) as [r ->].
  cbn [rbind]. eauto.
Qed.

(** C1, on the code: the name [xOffset] gets no type from the table, with
    or without the catch-all, although the table holds [("x*", "int")] and
    [match] accepts the name for that pattern when it is called as it is
    declared. The call in [parse_args] has the two arguments exchanged. *)
Theorem parse_args_xOffset (rt : Runtime) :
  parse_args rt ["xOffset"] false = Ok [mkArg "xOffset" None false] /\
  parse_args rt ["xOffset"] true = Ok [mkArg "xOffset" (Some "Any") false] /\
  ("x*", "int") ∈ patern_and_type /\
  match_ "xOffset" "x*" = Ok true /\
  match_ "x*" "xOffset" = Ok false.
Proof.
  repeat split; try reflexivity.
  rewrite patern_and_type_order. simpl. left.
Qed.

End HeuristicsSpec.

(** ** stub-outliner.py: the stub blocks *)

Module StubSpec.
Import Py Predicates PyFacts StubOutliner HeuristicsSpec.

Ltac appends_step :=
  first
    [ apply appends_oret | apply appends_oraise | apply appends_olift
    | apply appends_print
    | apply appends_ofor; intros
    | apply appends_obind; [|intros]
    | match goal with
      | |- appends (match ?x with _ => _ end) => destruct x
      end ].

Lemma parse_args_never_raises (rt : Runtime) (args : list string) (add_any : bool) :
  exists l, parse_args rt args add_any = Ok l.
Proof.
  destruct (rmap_total (parse_arg rt add_any) args) as (l & Hl & _); [|eauto].
  apply parse_arg_never_raises.
Qed.

Lemma Signature_init_never_raises (rt : Runtime) (parsed : Parsed)
    (init meth add_any : bool) :
  exists sig, Signature_init rt parsed init meth add_any = Ok sig.
Proof.
  unfold Signature_init.
  destruct (parse_args_never_raises rt (p_args parsed) add_any) as [l ->].
  cbn [rbind]. eauto.
Qed.

(** [find_signatures] returns: one signature for each match of the name. *)
Lemma find_signatures_returns (rt : Runtime) (doc name : string)
    (init meth add_any : bool) :
  exists sigs,
    find_signatures rt doc name init meth add_any = Ok sigs /\
    Forall2 (fun parsed sig => Signature_init rt parsed init meth add_any = Ok sig)
      (filter (fun parsed => p_name parsed = name) (scanString rt doc)) sigs.
Proof.
  unfold find_signatures. apply rmap_total. intros parsed.
  apply Signature_init_never_raises.
Qed.

Lemma parse_arg_name (rt : Runtime) (add_any : bool) (arg : string) (a : Arg) :
  parse_arg rt add_any arg = Ok a -> name a = fst (fst (partition "=" arg)).
Proof.
  unfold parse_arg. destruct (partition "=" arg) as [[n sep] dflt].
  destruct (nonempty dflt); cbn [rbind].
  - by intros [= <-].
  - destruct (first_match n patern_and_type); cbn [rbind]; [|done].
    by intros [= <-].
Qed.



Lemma set_type_only_index_error (sig : Signature) (i : nat) (t : string) :
  set_type sig i t = Raise IndexError \/ exists sig', set_type sig i t = Ok sig'.
Proof. unfold set_type. destruct (args sig !! i); eauto. Qed.

(** The heuristics on the constructor's arguments raise nothing but
    [IndexError]. *)
Lemma init_heuristics_only_index_error (cls : Class) (sig : Signature) :
  init_heuristics cls sig = Raise IndexError
  \/ exists sig', init_heuristics cls sig = Ok sig'.
Proof.
  unfold init_heuristics.
  destruct (List.length (args sig) <? 2)%nat; [eauto|].
  destruct (args sig !! 1) as [a1|]; [|eauto].
  destruct (c_window cls && String.eqb (name a1) "parent").
  - destruct (set_type_only_index_error sig 1
                (if c_toplevel cls then "Optional[wx.Window]" else "wx.Window"))
      as [->|[sig1 ->]]; [by left|].
    cbn [rbind]. destruct (args sig1 !! 2) as [a2|]; [|by left].
    destruct (String.eqb (name a2) "id"); [|eauto].
    apply set_type_only_index_error.
  - destruct (c_event cls); [|eauto].
    apply rfold_only. intros s i. unfold event_arg.
    destruct (args s !! i) as [a|]; [|by left].
    destruct (contains "Type" (name a)); [apply set_type_only_index_error|].
    destruct (bool_decide _); [apply set_type_only_index_error|eauto].
Qed.

(** Members with a name are all put in a category. *)
Lemma categorize_returns (ignore : gset string) (items : list (string * Member))
    (cats : Categories) :
  Forall (fun item => nonempty (fst item) = true) items ->
  exists cats', rfold (categorize ignore) cats items = Ok cats'.
Proof.
  intros Hne. apply rfold_total. intros c [n obj] Hin.
  rewrite Forall_forall in Hne. specialize (Hne _ Hin). simpl in Hne.
  unfold categorize. destruct (bool_decide (n ∈ ignore)); [eauto|].
  destruct (m_kind obj); eauto.
  destruct n as [|c0 n]; [done|]. cbn [getitem String.get rbind].
  destruct (negb _ || _); eauto.
Qed.

Lemma appends_print_sigs (indent : string) (sigs : list Signature) :
  appends (print_sigs indent sigs).
Proof. unfold print_sigs. repeat appends_step. Qed.





(** [make_stub], once the members are in their categories. *)
Lemma make_stub_unfold (rt : Runtime) (cls : Class) (add_any all_methods : bool)
    (hide_mod : list Base) (cats : Categories) (w : list string) :
  rfold (categorize (ignore_names rt cls all_methods)) no_categories (c_dict cls)
  = Ok cats ->
  make_stub rt cls add_any all_methods hide_mod w
  = obind (stub_init rt cls add_any) (fun _ => after_init rt cls add_any cats)
      (w ++ [header_line cls hide_mod]).
Proof. intros H. unfold make_stub, obind at 1, olift. by rewrite H. Qed.




(** A signature whose only argument is named [parent] makes the heuristics
    of a window class read [sig.args[2]], which is not there. *)
Lemma init_heuristics_parent_only (rt : Runtime) (cls : Class) (parsed : Parsed)
    (add_any : bool) (tok : string) (sig : Signature) :
  c_window cls = true ->
  p_args parsed = [tok] ->
  fst (fst (partition "=" tok)) = "parent" ->
  Signature_init rt parsed true true add_any = Ok sig ->
  init_heuristics cls sig = Raise IndexError.
Proof.
  intros Hwin Hargs Hname. unfold Signature_init, parse_args. rewrite Hargs.
  cbn [rmap]. destruct (parse_arg rt add_any tok) as [a|e] eqn:Ha; [|done].
  apply parse_arg_name in Ha. rewrite Hname in Ha.
  cbn [rbind orb app]. intros [= <-].
  unfold init_heuristics. cbn [args List.length Nat.ltb Nat.leb lookup list_lookup].
  rewrite Hwin, Ha. cbn [andb String.eqb Ascii.eqb Bool.eqb].
  unfold set_type. by cbn [args lookup list_lookup rbind insert list_insert].
Qed.

(** C9. For a class that derives from [wx.Window], a signature found for
    the class's name whose argument list is [self, parent] passes the guard
    [len(sig.args) < 2], and the read of [sig.args[2]] raises [IndexError]:
    [make_stub] has printed the class header and nothing else. *)
Theorem make_stub_parent_only_raises (rt : Runtime) (cls : Class)
    (add_any all_methods : bool) (hide_mod : list Base) (w : list string)
    (parsed : Parsed) (tok : string) :
  c_window cls = true ->
  Forall (fun item => nonempty (fst item) = true) (c_dict cls) ->
  parsed ∈ scanString rt (doc_or_blank (c_doc cls)) ->
  p_name parsed = c_name cls ->
  p_args parsed = [tok] ->
  fst (fst (partition "=" tok)) = "parent" ->
  make_stub rt cls add_any all_methods hide_mod w
  = (w ++ [header_line cls hide_mod], Raise IndexError).
Proof.
  intros Hwin Hnames Hin Hname Hargs Htok.
  destruct (categorize_returns (ignore_names rt cls all_methods) (c_dict cls)
              no_categories Hnames) as [cats Hcats].
  rewrite (make_stub_unfold _ _ _ _ _ _ _ Hcats).
  destruct (find_signatures_returns rt (doc_or_blank (c_doc cls)) (c_name cls)
              true true add_any) as (sigs & Hsigs & Hall).
  assert (parsed ∈ filter (fun parsed => p_name parsed = c_name cls)
                     (scanString rt (doc_or_blank (c_doc cls)))) as Hf
    by (by apply list_elem_of_filter).
  apply list_elem_of_lookup in Hf as [i Hi].
  destruct (Forall2_lookup_l _ _ _ _ _ Hall Hi) as (sig & Hsig & Hinit).
  unfold obind at 1, stub_init, obind at 1, olift. rewrite Hsigs.
  destruct sigs as [|sig0 sigs']; [by rewrite lookup_nil in Hsig|].
  unfold obind at 1, oret. unfold obind at 1.
  rewrite (rmap_raise (init_heuristics cls) IndexError (sig0 :: sigs') sig).
  - done.
  - intros y _. apply init_heuristics_only_index_error.
  - by eapply list_elem_of_lookup_2.
  - by eapply init_heuristics_parent_only.
Qed.

Lemma make_stub_parent_only_raises_witness :
  c_window Examples.Bar = true /\
  make_stub Examples.demo_rt Examples.Bar false false [] []
  = ([] ++ ["class Bar(wx.Window):"], Raise IndexError).
Proof.
  split; [reflexivity|].
  apply (make_stub_parent_only_raises Examples.demo_rt Examples.Bar false false
           [] [] (Examples.parsed "Bar" ["parent"] "None") "parent");
    [reflexivity | constructor | | reflexivity | reflexivity | reflexivity].
  apply list_elem_of_In. left. reflexivity.
Defined.

(** *** Getter and setter *)

(** A getter records its return type, renamed by [convert_arg_type], under
    its own name with every [Get] replaced by [Set]. *)
Lemma getter_records (setters : gmap string string) (name : string)
    (sig : Signature) :
  startswith (sig_name sig) "Get" = true ->
  getter_setter setters name sig
  = Ok (<[replace "Get" "Set" (sig_name sig) :=
            default (retanot sig)
              (assoc (removeprefix "wx." (retanot sig)) convert_arg_type)]> setters,
        sig).
Proof. intros H. unfold getter_setter. by rewrite H. Qed.

(** A method that is not a getter takes the recorded type when its name is a
    recorded key and it has one argument after [self], whose type is not
    inferred; the key is then removed. *)
Lemma setter_receives (setters : gmap string string) (self a : Arg)
    (ret name t : string) :
  startswith name "Get" = false ->
  setters !! name = Some t ->
  tp a = None \/ tp a = Some "Any" ->
  getter_setter setters name (mkSignature ret name [self; a])
  = Ok (delete name setters,
        mkSignature ret name [self; mkArg (StubOutliner.name a) (Some t) (deafult a)]).
Proof.
  intros Hget Hkey Htp. unfold getter_setter. cbn [sig_name args]. rewrite Hget, Hkey.
  rewrite bool_decide_eq_true_2 by eauto.
  cbn [List.length Nat.eqb andb lookup list_lookup].
  assert (bool_decide (tp a = None) || bool_decide (tp a = Some "Any") = true) as ->.
  { destruct Htp as [H|H].
    - by rewrite (bool_decide_eq_true_2 _ H).
    - rewrite (bool_decide_eq_true_2 _ H). apply orb_true_r. }
  done.
Qed.

(** The signature is changed in no other case. *)
Lemma setter_only_when (setters setters' : gmap string string) (name : string)
    (sig sig' : Signature) :
  getter_setter setters name sig = Ok (setters', sig') ->
  sig' <> sig ->
  is_Some (setters !! sig_name sig) /\
  List.length (args sig) = 2%nat /\
  exists a, args sig !! 1%nat = Some a /\ (tp a = None \/ tp a = Some "Any").
Proof.
  unfold getter_setter. destruct (startswith (sig_name sig) "Get").
  { intros [= _ <-]. done. }
  destruct (bool_decide (is_Some (setters !! sig_name sig))) eqn:Hkey;
    [|by intros [= _ <-]].
  destruct (List.length (args sig) =? 2)%nat eqn:Hlen; [|by intros [= _ <-]].
  cbn [andb]. destruct (args sig !! 1%nat) as [a|] eqn:Ha; [|by intros [= _ <-]].
  destruct (bool_decide (tp a = None) || bool_decide (tp a = Some "Any")) eqn:Htp;
    [|by intros [= _ <-]].
  intros _ _. split; [by apply bool_decide_eq_true in Hkey|].
  split; [by apply Nat.eqb_eq|]. exists a. split; [done|].
  apply orb_true_iff in Htp as [H|H]; apply bool_decide_eq_true in H; auto.
Qed.

Lemma replace_nothing (old new s : string) :
  contains old s = false -> replace_from old new 0 s = s.
Proof.
  induction s as [|a s IH]; [done|]. intros H.
  change (contains old (String a s))
    with (String.prefix old (String a s) || contains old s) in H.
  apply orb_false_iff in H as [Hp Hs].
  cbn [replace_from]. rewrite Hp. by rewrite (IH Hs).
Qed.

(** The key is [SetX] for a getter [GetX] whose [X] holds no further [Get]. *)
Lemma replace_Get_prefix (X : string) :
  contains "Get" X = false -> replace "Get" "Set" ("Get" +:+ X) = "Set" +:+ X.
Proof.
  intros H. unfold replace.
  change ("Get" +:+ X) with (String "G" (String "e" (String "t" X))).
  cbn [replace_from]. cbn [String.prefix].
  destruct (ascii_dec "G" "G") as [_|]; [|done].
  destruct (ascii_dec "e" "e") as [_|]; [|done].
  destruct (ascii_dec "t" "t") as [_|]; [|done].
  assert (String.prefix EmptyString X = true) as -> by (by destruct X).
  cbn [String.length Nat.sub replace_from].
  by rewrite (replace_nothing _ _ _ H).
Qed.

(** C4, on the code: the getter [GetGetter] records its type under
    [SetSetter], since [str.replace] replaces both occurrences of [Get], and
    the setter [SetGetter] keeps its argument without a type; for [GetWidth]
    and [SetWidth] the type reaches the setter. *)
Theorem getter_setter_double_Get :
  replace "Get" "Set" "GetGetter" = "SetSetter" /\
  make_stub Examples.demo_rt Examples.Sourced false false [] []
  = ([ "class Sourced(wx.Window):";
       "    def GetGetter(self) -> int: ...";
       "    def SetGetter(self, value) -> None: ..." ], Ok tt) /\
  make_stub Examples.demo_rt Examples.Sized false false [] []
  = ([ "class Sized(wx.Window):";
       "    def GetWidth(self) -> int: ...";
       "    def SetWidth(self, value: int) -> None: ..." ], Ok tt).
Proof. split; [reflexivity|]. split; vm_compute; reflexivity. Qed.

(** *** Plain functions *)

(** C10. When no signature is found for a plain function,
    [make_function_stub] prints the module's global [name], not
    [obj.__name__]: with the global deleted, as the module body leaves it,
    the call raises [NameError]; once the command-line loop has bound it,
    the line carries the text given on the command line. *)
Theorem make_function_stub_fallback (rt : Runtime) (g : Globals) (obj : Function)
    (add_any : bool) (w : list string) :
  find_signatures rt (doc_or_blank (f_doc obj)) (f_name obj) false false add_any
  = Ok [] ->
  make_function_stub rt module_globals obj add_any w = (w, Raise NameError) /\
  (g_name g = None ->
   make_function_stub rt g obj add_any w = (w, Raise NameError)) /\
  (forall name, g_name g = Some name ->
   make_function_stub rt g obj add_any w
   = (w ++ ["def " +:+ name +:+ "(*args, **kwargs) -> Any: ..."], Ok tt)) /\
  (forall eval_wx write_recursive subclasses all_methods g0 cli,
     eval_wx cli = Ok (OFunction obj) ->
     main_loop rt eval_wx write_recursive add_any subclasses all_methods g0 [cli] w
     = (w ++ ["def " +:+ cli +:+ "(*args, **kwargs) -> Any: ..."; EmptyString],
        Ok {| g_name := Some cli |})).
Proof.
  intros Hsigs.
  assert (forall g', make_function_stub rt g' obj add_any w
                     = match g_name g' with
                       | None => (w, Raise NameError)
                       | Some name =>
                           (w ++ ["def " +:+ name +:+ "(*args, **kwargs) -> Any: ..."],
                            Ok tt)
                       end) as Hstub.
  { intros g'. unfold make_function_stub, obind, olift. rewrite Hsigs.
    by destruct (g_name g'). }
  split; [apply Hstub|]. split; [intros Hg; by rewrite Hstub, Hg|].
  split; [intros name Hg; by rewrite Hstub, Hg|].
  intros eval_wx write_recursive subclasses all_methods g0 cli Heval.
  cbn [main_loop]. unfold obind at 1, olift. rewrite Heval.
  unfold obind at 1. unfold obind at 1. rewrite Hstub. cbn [g_name].
  unfold obind, print, oret. by rewrite <- app_assoc.
Qed.

Lemma make_function_stub_fallback_witness :
  make_function_stub Examples.demo_rt module_globals Examples.Target false []
  = ([], Raise NameError) /\
  main_loop Examples.demo_rt Examples.demo_eval (fun _ => oret tt)
    false false false module_globals ["Alias"] []
  = ([] ++ ["def Alias(*args, **kwargs) -> Any: ..."; EmptyString],
     Ok {| g_name := Some "Alias" |}).
Proof.
  destruct (make_function_stub_fallback Examples.demo_rt module_globals
              Examples.Target false [] eq_refl) as (H1 & _ & _ & H4).
  split; [exact H1|].
  apply (H4 Examples.demo_eval (fun _ => oret tt) false false module_globals "Alias").
  reflexivity.
Defined.

End StubSpec.

(** ** update.py: imports and override files *)

Module OverrideSpec.
Import Py Predicates PyFacts Update.

(** C8. [ImportGroup(imports)] raises [AssertionError] for an empty
    sequence, [ValueError] as soon as two entries name different modules,
    and otherwise returns the group with the shared module stored. *)
Theorem ImportGroup_init_spec (imports : list Import_) :
  (imports = [] -> ImportGroup_init imports = Raise AssertionError) /\
  (forall a b, a ∈ imports -> b ∈ imports -> imp_mod a <> imp_mod b ->
     ImportGroup_init imports = Raise ValueError) /\
  (forall imp0 rest, imports = imp0 :: rest ->
     (forall a, a ∈ imports -> imp_mod a = imp_mod imp0) ->
     ImportGroup_init imports = Ok (mkImportGroup (imp_mod imp0) imports)).
Proof.
  split; [by intros ->|]. split.
  - intros a b Ha Hb Hne. destruct imports as [|imp0 rest].
    { by apply elem_of_nil in Ha. }
    unfold ImportGroup_init.
    destruct (forallb _ (imp0 :: rest)) eqn:Hall; [|done].
    exfalso. apply Hne. rewrite forallb_forall in Hall.
    apply list_elem_of_In in Ha, Hb.
    apply Hall in Ha, Hb. apply String.eqb_eq in Ha, Hb. congruence.
  - intros imp0 rest -> Hsame. unfold ImportGroup_init.
    assert (forallb (fun imp => String.eqb (imp_mod imp) (imp_mod imp0))
              (imp0 :: rest) = true) as ->; [|done].
    apply forallb_forall. intros a Ha. apply String.eqb_eq, Hsame.
    by apply list_elem_of_In.
Qed.

Lemma ImportGroup_init_spec_witness :
  ImportGroup_init [mkImport "Frame" "wx._frame"; mkImport "Dialog" "wx._dialog"]
  = Raise ValueError /\
  ImportGroup_init [mkImport "Frame" "wx._frame"; mkImport "MiniFrame" "wx._frame"]
  = Ok (mkImportGroup "wx._frame"
          [mkImport "Frame" "wx._frame"; mkImport "MiniFrame" "wx._frame"]) /\
  ImportGroup_init [] = Raise AssertionError.
Proof.
  split; [|split].
  - apply (proj1 (proj2 (ImportGroup_init_spec
                            [mkImport "Frame" "wx._frame";
                             mkImport "Dialog" "wx._dialog"]))
             (mkImport "Frame" "wx._frame") (mkImport "Dialog" "wx._dialog"));
      [left | right; left | discriminate].
  - apply (proj2 (proj2 (ImportGroup_init_spec
                            [mkImport "Frame" "wx._frame";
                             mkImport "MiniFrame" "wx._frame"])) _ _ eq_refl).
    intros a Ha. apply elem_of_cons in Ha as [->|Ha]; [reflexivity|].
    apply list_elem_of_singleton in Ha as ->. reflexivity.
  - apply (proj1 (ImportGroup_init_spec [])). reflexivity.
Defined.

(** *** The scan of the override files *)

Lemma dict_pop_absent (name : string) (d : Namespace) :
  name ∉ map fst d -> dict_pop name d = Raise KeyError.
Proof.
  induction d as [|[k v] d IH]; [done|]. intros Hnot. simpl.
  apply not_elem_of_cons in Hnot as [Hne Hnot].
  destruct (String.eqb_spec name k) as [->|_]; [done|]. by rewrite IH.
Qed.

(** Popping a key of a dictionary removes that key and no other. *)
Lemma dict_pop_keys (name : string) (d d' : Namespace) :
  NoDup (map fst d) -> dict_pop name d = Ok d' ->
  NoDup (map fst d') /\ (name ∉ map fst d') /\
  (forall k, k ∈ map fst d' -> k ∈ map fst d).
Proof.
  revert d'. induction d as [|[k v] d IH]; intros d' Hnd; [done|]. simpl.
  apply NoDup_cons in Hnd as [Hk Hnd].
  destruct (String.eqb_spec name k) as [->|Hne].
  - intros [= <-]. split; [done|]. split; [done|]. intros k' Hk'. by right.
  - destruct (dict_pop name d) as [d0|] eqn:Hpop; [|done]. intros [= <-].
    destruct (IH d0 Hnd eq_refl) as (Hnd0 & Hnot & Hsub). simpl.
    split; [|split].
    + apply NoDup_cons. split; [|done]. intros Hin. by apply Hk, Hsub.
    + apply not_elem_of_cons. by split.
    + intros k' Hk'. apply elem_of_cons in Hk' as [->|Hk']; [left|right; auto].
Qed.

Lemma consistent_pop (name : string) (d d' : Namespace) (stubed : gset string) :
  consistent d stubed -> dict_pop name d = Ok d' ->
  consistent d' stubed /\ consistent d' ({[name]} ∪ stubed).
Proof.
  intros [Hnd Hst] Hpop.
  destruct (dict_pop_keys _ _ _ Hnd Hpop) as (Hnd' & Hnot & Hsub).
  split; (split; [done|]).
  - intros n Hn Hin. by apply (Hst n Hn), Hsub.
  - intros n Hn. apply elem_of_union in Hn as [Hn|Hn].
    + by apply elem_of_singleton in Hn as ->.
    + intros Hin. by apply (Hst n Hn), Hsub.
Qed.

Lemma consistent_discard (name : string) (d : Namespace) (stubed : gset string) :
  consistent d stubed -> consistent (dict_discard name d) stubed.
Proof.
  intros H. unfold dict_discard. destruct (dict_pop name d) eqn:Hpop; [|done].
  by destruct (consistent_pop _ _ _ _ H Hpop).
Qed.

(** Reading the [id] of every decorator fails, with [AttributeError], as
    soon as one of them is not a bare name. *)
Lemma rmap_expr_id (l : list Expr) :
  rmap expr_id l
  = if forallb is_name l
    then Ok (omap (fun e => match e with Name id => Some id | NotName => None end) l)
    else Raise AttributeError.
Proof.
  induction l as [|[id|] l IH]; cbn [rmap expr_id forallb is_name andb omap];
    [done| |done].
  rewrite IH. by destruct (forallb is_name l).
Qed.

Lemma check_method_result (modname cls : string) (f : FunctionDef) (w : list string) :
  exists out,
    check_method modname cls f w
    = (w ++ out,
       if forallb is_name (decorator_list f) then Ok tt else Raise AttributeError).
Proof.
  unfold check_method, obind at 1, olift. rewrite rmap_expr_id.
  destruct (forallb is_name (decorator_list f)); [|exists []; by rewrite app_nil_r].
  unfold obind, print, oret.
  destruct (bool_decide _), (match fd_args f with [] => false | _ => _ end);
    simpl; destruct (map arg _); simpl;
    rewrite <- ?app_assoc; eauto; eexists; by rewrite app_nil_r.
Qed.

(** [check_has_anotations] prints; it returns when every decorator in the
    class body is a bare name and raises [AttributeError] otherwise. *)
Lemma check_has_anotations_result (cls : string) (body : list (option FunctionDef))
    (modname : string) (w : list string) :
  exists checks,
    check_has_anotations cls body modname w
    = (w ++ checks, if plain_body body then Ok tt else Raise AttributeError).
Proof.
  unfold check_has_anotations. revert w.
  induction body as [|node body IH]; intros w; cbn [ofor plain_body forallb].
  - exists []. by rewrite app_nil_r.
  - assert (exists out, match node with
                        | Some f => check_method modname cls f
                        | None => oret tt
                        end w
                        = (w ++ out,
                           if match node with
                              | Some f => forallb is_name (decorator_list f)
                              | None => true
                              end
                           then Ok tt else Raise AttributeError)) as [out Hout].
    { destruct node as [f|]; [apply check_method_result|].
      exists []. by rewrite app_nil_r. }
    unfold obind. rewrite Hout.
    destruct (match node with Some f => _ | None => true end); cbn [andb];
      [|by exists out].
    destruct (IH (w ++ out)) as [checks ->].
    exists (out ++ checks). by rewrite app_assoc.
Qed.

Lemma dict_pop_present (name : string) (d : Namespace) :
  name ∈ map fst d -> exists d', dict_pop name d = Ok d'.
Proof.
  induction d as [|[k v] d IH]; simpl; [by intros ?%elem_of_nil|].
  intros Hin. destruct (String.eqb_spec name k) as [->|Hne]; [eauto|].
  apply elem_of_cons in Hin as [?|Hin]; [done|].
  destruct (IH Hin) as [d' ->]. eauto.
Qed.

(** The first declaration of a class of the namespace takes it out of
    [mod_dict] and puts it in [classes_stubed]. *)
Lemma first_declaration (modstem : string) (st : FileScan) (name : string)
    (body : list (option FunctionDef)) (w : list string) :
  public name = Ok true ->
  plain_body body = true ->
  name ∈ map fst (fs_dict st) ->
  exists checks d,
    dict_pop name (fs_dict st) = Ok d /\
    scan_node modstem st (ClassDef name body) w
    = (w ++ checks,
       Ok (mkFileScan d ({[name]} ∪ fs_stubed st)
             (add_import modstem name (fs_i st)) (last_overload st))).
Proof.
  intros Hpub Hplain Hin. destruct (dict_pop_present _ _ Hin) as [d Hd].
  destruct (check_has_anotations_result name body modstem w) as [checks Hc].
  rewrite Hplain in Hc.
  exists checks, d. split; [done|].
  cbn [scan_node]. unfold obind at 1, olift. rewrite Hpub.
  unfold obind at 1. rewrite Hc, Hd. done.
Qed.

(** Every turn of the loop over the nodes keeps the state consistent and
    forgets no stubbed class. *)
Lemma scan_node_consistent (modstem : string) (st st' : FileScan) (node : Node)
    (w w' : list string) :
  consistent (fs_dict st) (fs_stubed st) ->
  scan_node modstem st node w = (w', Ok st') ->
  consistent (fs_dict st') (fs_stubed st') /\ fs_stubed st ⊆ fs_stubed st'.
Proof.
  intros Hc. destruct node as [name body|f|name|]; cbn [scan_node].
  - unfold obind at 1, olift. destruct (public name) as [[|]|]; [| |done].
    + destruct (check_has_anotations_result name body modstem w) as [checks Hch].
      unfold obind at 1. rewrite Hch. destruct (plain_body body); [|done].
      destruct (dict_pop name (fs_dict st)) as [d|] eqn:Hpop.
      * intros [= _ <-]. cbn [fs_dict fs_stubed].
        split; [by destruct (consistent_pop _ _ _ _ Hc Hpop)|set_solver].
      * unfold obind, print, oret. destruct (bool_decide _); by intros [= _ <-].
    + by intros [= _ <-].
  - unfold obind at 1, olift. destruct (public (fd_name f)) as [[|]|]; [| |done].
    + unfold obind at 1.
      destruct (decorator_list f) as [|d0 ds].
      * unfold oret at 1.
        destruct (dict_pop (fd_name f) (fs_dict st)) as [d|] eqn:Hpop.
        -- intros [= _ <-]. cbn [fs_dict fs_stubed].
           split; [by destruct (consistent_pop _ _ _ _ Hc Hpop)|done].
        -- unfold obind, print, oret. by intros [= _ <-].
      * unfold obind at 1, olift. destruct (expr_id d0) as [id|]; [|done].
        destruct (String.eqb id "overload"); [|done].
        destruct (String.eqb (last_overload st) (fd_name f)).
        { unfold oret. by intros [= _ <-]. }
        unfold oret at 1.
        destruct (dict_pop (fd_name f) (fs_dict st)) as [d|] eqn:Hpop.
        -- intros [= _ <-]. cbn [fs_dict fs_stubed].
           split; [by destruct (consistent_pop _ _ _ _ Hc Hpop)|done].
        -- unfold obind, print, oret. by intros [= _ <-].
    + by intros [= _ <-].
  - unfold obind at 1, olift. destruct (expr_id name) as [id|]; [|done].
    unfold obind at 1. destruct (public id) as [[|]|]; [| |done].
    + intros [= _ <-]. cbn [fs_dict fs_stubed].
      split; [by apply consistent_discard|done].
    + by intros [= _ <-].
  - by intros [= _ <-].
Qed.

Lemma scan_nodes_consistent (modstem : string) (nodes : list Node)
    (st st' : FileScan) (w w' : list string) :
  consistent (fs_dict st) (fs_stubed st) ->
  scan_nodes modstem st nodes w = (w', Ok st') ->
  consistent (fs_dict st') (fs_stubed st') /\ fs_stubed st ⊆ fs_stubed st'.
Proof.
  revert st w. induction nodes as [|node nodes IH]; intros st w Hc; simpl.
  - intros [= Hw <-]. by split.
  - unfold obind. destruct (scan_node modstem st node w) as [w1 [st1|]] eqn:H1;
      [|done].
    intros H2. destruct (scan_node_consistent _ _ _ _ _ _ Hc H1) as [Hc1 Hs1].
    destruct (IH _ _ Hc1 H2) as [Hc2 Hs2]. split; [done|by etrans].
Qed.

(** C6, as the code has it. A public class declared in an override file
    when [classes_stubed] already holds its name (an earlier declaration
    took it from the namespace) is not an error of the scan. The methods of
    its body are checked first, as for any class: when every decorator in
    the body is a bare name the checks return, the duplicate is reported by
    one line on standard output and the scan goes on, with the class
    imported from this file too and the rest of the state as it was; when a
    decorator is not a bare name the checks raise [AttributeError] before
    that line is printed. *)
Theorem duplicate_class_is_diagnostic (modstem : string) (st : FileScan)
    (name : string) (body : list (option FunctionDef)) (w : list string) :
  public name = Ok true ->
  consistent (fs_dict st) (fs_stubed st) ->
  name ∈ fs_stubed st ->
  exists checks,
    check_has_anotations name body modstem w
    = (w ++ checks, if plain_body body then Ok tt else Raise AttributeError) /\
    scan_node modstem st (ClassDef name body) w
    = if plain_body body
      then (w ++ checks ++ ["Error: duplicate class definition - " +:+ name],
            Ok (mkFileScan (fs_dict st) (fs_stubed st)
                  (add_import modstem name (fs_i st)) (last_overload st)))
      else (w ++ checks, Raise AttributeError).
Proof.
  intros Hpub [_ Hgone] Hin.
  destruct (check_has_anotations_result name body modstem w) as [checks Hc].
  exists checks. split; [exact Hc|].
  cbn [scan_node]. unfold obind at 1, olift. rewrite Hpub.
  unfold obind at 1. rewrite Hc. destruct (plain_body body); [|done].
  rewrite (dict_pop_absent _ _ (Hgone _ Hin)), (bool_decide_eq_true_2 _ Hin).
  unfold obind, print, oret. by rewrite app_assoc.
Qed.

Lemma duplicate_class_is_diagnostic_witness :
  let st := mkFileScan [] {["Frame"]} [] EmptyString in
  let method := {| fd_name := "GetTitle";
                   fd_args := [ {| arg := "self"; annotation := false |} ];
                   decorator_list := [Name "property"] |} in
  let setter := {| fd_name := "Title";
                   fd_args := [ {| arg := "self"; annotation := false |} ];
                   decorator_list := [NotName] |} in
  public "Frame" = Ok true /\
  scan_node "_toplevel" st (ClassDef "Frame" [Some method]) []
  = (["Error: duplicate class definition - Frame"],
     Ok (mkFileScan [] {["Frame"]} [mkImport "Frame" "wx._toplevel"] EmptyString)) /\
  scan_node "_toplevel" st (ClassDef "Frame" [Some method; Some setter]) []
  = ([], Raise AttributeError).
Proof.
  intros st method setter. split; [reflexivity|].
  assert (consistent [] ({["Frame"]} : gset string)) as Hc.
  { split; [constructor|]. intros n _ Hn. simpl in Hn. by apply elem_of_nil in Hn. }
  assert ("Frame" ∈ ({["Frame"]} : gset string)) as Hin by (by apply elem_of_singleton).
  split.
  - destruct (duplicate_class_is_diagnostic "_toplevel" st "Frame" [Some method] []
                eq_refl Hc Hin) as (checks & Hch & Hscan).
    vm_compute in Hch. injection Hch as <-. exact Hscan.
  - destruct (duplicate_class_is_diagnostic "_toplevel" st "Frame"
                [Some method; Some setter] [] eq_refl Hc Hin) as (checks & Hch & Hscan).
    vm_compute in Hch. injection Hch as <-. exact Hscan.
Defined.

(** The claim C6 fails on two override files that both declare [Frame]:
    the run prints the diagnostic, returns, and the aggregate stub imports
    the class from both files. *)
Lemma duplicate_class_run_continues :
  exists f s,
    run Examples.demo_overrides Examples.demo_wx []
    = (["Error: duplicate class definition - Frame"], Ok f) /\
    f_import f
    = [ mkImportGroup "wx._frame" [mkImport "Frame" "wx._frame"];
        mkImportGroup "wx._toplevel" [mkImport "Frame" "wx._toplevel"] ] /\
    render f = Ok s /\
    imp s = "from wx._frame import Frame as Frame" +:+ newline
              +:+ "from wx._toplevel import Frame as Frame".
Proof.
  destruct (run Examples.demo_overrides Examples.demo_wx []) as [out [f|e]] eqn:Hrun;
    vm_compute in Hrun; [|discriminate].
  injection Hrun as <- <-.
  eexists _, _. split; [reflexivity|]. split; [reflexivity|].
  split; vm_compute; reflexivity.
Qed.

End OverrideSpec.

(** ** update.py: the enumerations *)

Module EnumSpec.
Import Py Predicates PyFacts Update.

Lemma grown_app (old : option (list EnumValue)) (l1 l2 : list EnumValue) :
  grown (grown old l1) l2 = grown old (l1 ++ l2).
Proof.
  destruct l1 as [|x l1]; [done|]. destruct l2 as [|y l2]; simpl.
  - by rewrite app_nil_r.
  - by rewrite <- app_assoc.
Qed.

(** One turn of the scan returns; it declares and collects what [declared]
    and [collected] say. *)
Lemma classify_effect (b : Buckets) (item : string * WxValue) (w : list string) :
  exists out b',
    classify b item w = (w ++ out, Ok b') /\
    def_enum b'
    = def_enum b ++ match declared item with
                    | Some name => [mkEnumClass name (Some [])]
                    | None => []
                    end /\
    def_val b'
    = match collected item with
      | Some v => <[ev_cls v := default [] (def_val b !! ev_cls v) ++ [v]]> (def_val b)
      | None => def_val b
      end.
Proof.
  destruct item as [name obj]. unfold classify, declared, collected. cbn [fst snd].
  destruct (skipped name); cbn [orb].
  { exists [], b. by rewrite !app_nil_r. }
  destruct (startswith name "wxEVT").
  { eexists [], _. rewrite !app_nil_r. by split; [reflexivity|]. }
  destruct obj; unfold obind, olift, oret, print; cbn;
    repeat match goal with
           | |- context [if ?c then _ else _] => destruct c
           end;
    try (eexists [], _; rewrite !app_nil_r; split; [reflexivity|];
         by rewrite ?app_nil_r);
    eexists _, _; split; [reflexivity|]; by rewrite ?app_nil_r.
Qed.

(** The scan returns; [def_enum] holds the declared classes and [def_val]
    the collected values, by owner. *)
Lemma classify_all_effect (items : Namespace) (b : Buckets) (w : list string) :
  exists out b',
    classify_all b items w = (w ++ out, Ok b') /\
    def_enum b'
    = def_enum b ++ map (fun name => mkEnumClass name (Some [])) (omap declared items) /\
    forall cls, def_val b' !! cls = grown (def_val b !! cls) (values_of cls items).
Proof.
  revert b w. induction items as [|item items IH]; intros b w.
  - exists [], b. simpl. by rewrite !app_nil_r.
  - destruct (classify_effect b item w) as (o1 & b1 & H1 & He1 & Hv1).
    destruct (IH b1 (w ++ o1)) as (o2 & b2 & H2 & He2 & Hv2).
    exists (o1 ++ o2), b2. cbn [classify_all]. unfold obind. rewrite H1, H2.
    split; [by rewrite app_assoc|]. split.
    + rewrite He2, He1, <- app_assoc. f_equal. cbn [omap list_omap].
      by destruct (declared item).
    + intros cls. rewrite Hv2, Hv1. unfold values_of. cbn [omap list_omap].
      destruct (collected item) as [v|]; [|done].
      rewrite filter_cons. destruct (decide (ev_cls v = cls)) as [<-|Hne].
      * rewrite lookup_insert_eq.
        exact (grown_app (def_val b !! ev_cls v) [v] _).
      * by rewrite lookup_insert_ne.
Qed.

Lemma declared_name (item : string * WxValue) (name : string) :
  declared item = Some name -> name = fst item.
Proof.
  unfold declared. destruct (skipped _ || _); [done|].
  destruct (snd item); try done. by intros [= <-].
Qed.

Lemma declared_names_keys (items : Namespace) (name : string) :
  name ∈ omap declared items -> name ∈ map fst items.
Proof.
  induction items as [|item items IH]; simpl; [done|].
  destruct (declared item) as [n|] eqn:Hd; [|right; auto].
  intros [->|Hin]%elem_of_cons; [|right; auto].
  rewrite (declared_name _ _ Hd). left.
Qed.

Lemma declared_names_NoDup (items : Namespace) :
  NoDup (map fst items) -> NoDup (omap declared items).
Proof.
  induction items as [|item items IH]; simpl; [constructor|].
  intros [Hnot Hnd]%NoDup_cons. specialize (IH Hnd).
  destruct (declared item) as [name|] eqn:Hd; [|done].
  apply NoDup_cons. split; [|done].
  rewrite (declared_name _ _ Hd). intros Hin.
  by apply Hnot, declared_names_keys.
Qed.

(** *** The partition step *)

(** When the partition returns, every class has the values [def_val] held
    under its name, and what is left of [def_val] is what no class took. *)
Lemma partition_enums_returns (enums es : list EnumClass)
    (vals left : gmap string (list EnumValue)) :
  partition_enums enums vals = Ok (es, left) ->
  Forall2 (fun enum e => ec_name e = ec_name enum
                         /\ is_Some (vals !! ec_name enum)
                         /\ ec_values e = vals !! ec_name enum) enums es /\
  forall cls, left !! cls
              = if bool_decide (cls ∈ map ec_name enums) then None else vals !! cls.
Proof.
  revert es vals. induction enums as [|enum enums IH]; intros es vals;
    cbn [partition_enums].
  - intros [= <- <-]. split; [constructor|]. intros cls. cbn [map].
    by rewrite bool_decide_eq_false_2 by apply not_elem_of_nil.
  - destruct (vals !! ec_name enum) as [values|] eqn:Hv; [|done].
    destruct (partition_enums enums (delete (ec_name enum) vals)) as [[es' left']|]
      eqn:Hrec; [|done].
    cbn [rbind fst snd]. intros [= <- <-].
    destruct (IH _ _ Hrec) as [Hall Hleft]. split.
    + constructor; [by rewrite Hv; eauto|].
      eapply Forall2_impl; [exact Hall|].
      intros enum' e (Hn & [vs Hs] & He). rewrite He, Hs.
      apply lookup_delete_Some in Hs as [_ Hs]. rewrite Hs. eauto.
    + intros cls. rewrite Hleft. cbn [map].
      destruct (decide (cls = ec_name enum)) as [->|Hne].
      * rewrite (bool_decide_eq_true_2 (_ ∈ _ :: _)) by left.
        rewrite lookup_delete_eq. by destruct (bool_decide _).
      * rewrite lookup_delete_ne by done.
        destruct (bool_decide (cls ∈ map ec_name enums)) eqn:Hin.
        -- apply bool_decide_eq_true in Hin.
           by rewrite (bool_decide_eq_true_2 (_ ∈ _ :: _)) by (by right).
        -- apply bool_decide_eq_false in Hin.
           rewrite (bool_decide_eq_false_2 (_ ∈ _ :: _)); [done|].
           by apply not_elem_of_cons.
Qed.

Lemma partition_enums_only_KeyError (enums : list EnumClass)
    (vals : gmap string (list EnumValue)) :
  partition_enums enums vals = Raise KeyError
  \/ exists r, partition_enums enums vals = Ok r.
Proof.
  revert vals. induction enums as [|enum enums IH]; intros vals; simpl; [eauto|].
  destruct (vals !! ec_name enum); [|by left].
  destruct (IH (delete (ec_name enum) vals)) as [->|[r ->]]; [by left|].
  cbn [rbind]. eauto.
Qed.

Lemma partition_enums_succeeds (enums : list EnumClass)
    (vals : gmap string (list EnumValue)) :
  NoDup (map ec_name enums) ->
  (forall enum, enum ∈ enums -> is_Some (vals !! ec_name enum)) ->
  exists r, partition_enums enums vals = Ok r.
Proof.
  revert vals. induction enums as [|enum enums IH]; intros vals Hnd Hall; simpl;
    [eauto|].
  apply NoDup_cons in Hnd as [Hnot Hnd].
  destruct (Hall enum) as [values ->]; [left|].
  destruct (IH (delete (ec_name enum) vals) Hnd) as [r ->]; [|cbn [rbind]; eauto].
  intros enum' Hin. destruct (Hall enum') as [vs Hvs]; [by right|].
  exists vs. apply lookup_delete_Some. split; [|done].
  intros Heq. apply Hnot. rewrite Heq. by apply list_elem_of_fmap_2.
Qed.

Lemma grown_None (more : list EnumValue) :
  grown None more = match more with [] => None | _ => Some more end.
Proof. by destruct more. Qed.

Lemma Forall2_names (enums es : list EnumClass)
    (P : EnumClass -> EnumClass -> Prop) :
  Forall2 (fun enum e => ec_name e = ec_name enum /\ P enum e) enums es ->
  map ec_name es = map ec_name enums.
Proof.
  induction 1 as [|enum e enums es [Hn _] _ IH]; simpl; [done|].
  by rewrite Hn, IH.
Qed.

End EnumSpec.

(** ** update.py: the order of the output lists *)

Module OrderSpec.
Import Py Predicates PyFacts Update.

Lemma strongly_sorted_impl {A : Type} (R S : A -> A -> Prop) (l : list A) :
  (forall a b, R a b -> S a b) -> StronglySorted R l -> StronglySorted S l.
Proof.
  intros HRS. induction 1 as [|x l Hs IH Hx]; constructor; [done|].
  eapply Forall_impl; [exact Hx|]. auto.
Qed.

Lemma string_leb_refl (s : string) : String.leb s s = true.
Proof.
  destruct (String.leb_total s s) as [H|H]; exact H.
Qed.

Lemma string_leb_cases (s t : string) :
  String.leb s t = true -> String.ltb s t = true \/ s = t.
Proof.
  unfold String.leb, String.ltb.
  destruct (String.compare s t) eqn:Hc; [|by left|done].
  intros _. right. by apply String.compare_eq_iff.
Qed.




(** The three sorts of [def_const] return when every constant has its
    [data], and leave the list in [const_order]. *)
Lemma sort_const_sorted (l : list Anotation) :
  Forall (fun a => has_data a = true) l ->
  exists l', sort_const l = Ok l' /\ l' ≡ₚ l /\ StronglySorted const_order l'.
Proof.
  intros Hdata. unfold sort_const.
  set (l1 := sort_by a_name String.leb l).
  set (l2 := sort_by type7 String.leb l1).
  assert (l2 ≡ₚ l) as Hperm.
  { unfold l2, l1. by rewrite !sort_by_perm. }
  assert (forallb has_data l2 = true) as ->.
  { apply forallb_forall. intros a Ha. apply list_elem_of_In in Ha.
    rewrite Hperm in Ha. rewrite Forall_forall in Hdata. by apply Hdata. }
  eexists. split; [reflexivity|]. split; [by rewrite sort_by_perm|].
  eapply strongly_sorted_impl;
    [|apply (sort_by_lex data Z.leb Z_leb_total Z_leb_trans),
        (sort_by_lex type7 String.leb string_leb_total string_leb_trans),
        (sort_by_lex a_name String.leb string_leb_total string_leb_trans
           (fun _ _ => True)), strongly_sorted_any].
  intros a b [Hd Hrest]. unfold const_order.
  apply Z.leb_le in Hd. destruct (Z.eq_dec (data a) (data b)) as [Heq|Hne];
    [|left; lia].
  right. split; [done|]. destruct Hrest as [Ht Hn].
  { apply Z.leb_le. lia. }
  destruct (string_leb_cases _ _ Ht) as [Hlt|Hteq]; [by left|].
  right. split; [done|]. apply Hn. rewrite Hteq. apply string_leb_refl.
Qed.



Lemma sort_const_returned (l l' : list Anotation) :
  sort_const l = Ok l' -> l' ≡ₚ l /\ StronglySorted const_order l'.
Proof.
  intros H. assert (Forall (fun a => has_data a = true) l) as Hdata.
  { unfold sort_const in H.
    destruct (forallb has_data _) eqn:Hall; [|done].
    rewrite forallb_forall in Hall. apply Forall_forall. intros a Ha.
    apply Hall, list_elem_of_In. by rewrite !sort_by_perm. }
  destruct (sort_const_sorted l Hdata) as (l2 & H2 & Hperm & Hs).
  rewrite H in H2. by injection H2 as <-.
Qed.





End OrderSpec.

(** ** stub-outliner.py: more on the type heuristics *)

Module MatchSpec.
Import Py Predicates MorePredicates PyFacts StubOutliner HeuristicsSpec.

Lemma rstrip_star_app (s : string) :
  contains "*" s = false -> rstrip "*" (s +:+ "*") = s.
Proof.
  induction s as [|a s IH]; [done|]. intros H.
  apply contains_star_cons in H as [Ha Hs].
  change (String a s +:+ "*") with (String a (s +:+ "*")).
  cbn [rstrip]. rewrite (IH Hs), Ha. by destruct s.
Qed.

Lemma strip_trailing_star (stem : string) :
  contains "*" stem = false -> stem <> EmptyString ->
  strip "*" (stem +:+ "*") = stem.
Proof.
  intros H Hne. unfold strip. destruct stem as [|a s]; [done|].
  pose proof (contains_star_cons _ _ H) as [Ha _].
  change (String a s +:+ "*") with (String a (s +:+ "*")).
  cbn [lstrip]. rewrite Ha.
  change (String a (s +:+ "*")) with (String a s +:+ "*").
  by apply rstrip_star_app.
Qed.

Lemma strip_leading_star (stem : string) :
  contains "*" stem = false -> strip "*" ("*" +:+ stem) = stem.
Proof.
  intros H. unfold strip. change ("*" +:+ stem) with (String "*" stem).
  cbn [lstrip mem_char]. change (Ascii.eqb "*" "*") with true. cbn [orb].
  by rewrite (no_star_lstrip _ H), (no_star_rstrip _ H).
Qed.

Lemma endswith_refl (s : string) : endswith s s = true.
Proof. destruct s; cbn [endswith]; by rewrite String.eqb_refl. Qed.

Lemma endswith_app (s p : string) : endswith (s +:+ p) p = true.
Proof.
  induction s as [|a s IH]; [apply endswith_refl|].
  change (String a s +:+ p) with (String a (s +:+ p)).
  cbn [endswith]. rewrite IH. apply orb_true_r.
Qed.

(** A pattern without an asterisk matches the strings equal to it and no
    other. *)
Theorem match_bare_pattern (str patern : string) :
  contains "*" patern = false ->
  match_ str patern = Ok (String.eqb str patern).
Proof. apply match_swapped. Qed.

Lemma match_bare_pattern_witness :
  match_ "width" "width" = Ok true /\ match_ "widths" "width" = Ok false.
Proof.
  split.
  - exact (match_bare_pattern "width" "width" eq_refl).
  - exact (match_bare_pattern "widths" "width" eq_refl).
Defined.

(** A pattern [stem*] matches the stem itself and the strings that start
    with the stem and go on with an upper-case character; it never raises. *)
Theorem match_trailing_wildcard (str stem : string) :
  contains "*" stem = false -> stem <> EmptyString ->
  match_ str (stem +:+ "*")
  = Ok (String.eqb str stem
        || startswith str stem && upper_at (String.length stem) str).
Proof.
  intros H Hne. unfold match_, match_exact, match_leading, match_trailing.
  rewrite (strip_trailing_star _ H Hne), endswith_app.
  destruct (String.eqb_spec str stem) as [->|Hstr]; [done|].
  assert (startswith (stem +:+ "*") "*" = false) as ->.
  { destruct stem as [|a s]; [done|].
    pose proof (contains_star_cons _ _ H) as [Ha _].
    change (String a s +:+ "*") with (String a (s +:+ "*")).
    unfold startswith. cbn [String.prefix].
    destruct (ascii_dec "*" a) as [<-|]; [|done]. vm_compute in Ha. discriminate. }
  cbn [andb orb]. destruct (startswith str stem) eqn:Hpre; [|done].
  destruct (prefix_getitem _ _ Hpre Hstr) as [c Hc]. rewrite Hc. cbn [rbind].
  unfold upper_at. unfold getitem in Hc.
  destruct (String.get (String.length stem) str); by inversion Hc.
Qed.

Lemma match_trailing_wildcard_witness :
  match_ "bmpDisabled" ("bmp" +:+ "*") = Ok true /\
  match_ "bmps" ("bmp" +:+ "*") = Ok false.
Proof.
  split.
  - exact (match_trailing_wildcard "bmpDisabled" "bmp" eq_refl ltac:(discriminate)).
  - exact (match_trailing_wildcard "bmps" "bmp" eq_refl ltac:(discriminate)).
Defined.

(** A pattern [*stem] matches the strings that end with the stem, whatever
    stands before it. *)
Theorem match_leading_wildcard (str stem : string) :
  contains "*" stem = false ->
  match_ str ("*" +:+ stem) = Ok (endswith str stem).
Proof.
  intros H. unfold match_, match_exact, match_leading, match_trailing.
  rewrite (strip_leading_star _ H).
  destruct (String.eqb_spec str stem) as [->|Hstr]; [by rewrite endswith_refl|].
  assert (startswith ("*" +:+ stem) "*" = true) as -> by (by destruct stem).
  cbn [andb].
  destruct (endswith str stem) eqn:Hend; [done|].
  assert (endswith ("*" +:+ stem) "*" = false) as ->; [|done].
  change ("*" +:+ stem) with (String "*" stem). cbn [endswith].
  destruct stem as [|a s].
  - exfalso. clear -Hend. induction str as [|b str IH]; [done|].
    cbn [endswith] in Hend. apply orb_false_iff in Hend as [_ Hend]. auto.
  - rewrite (no_star_endswith _ H), orb_false_r.
    apply String.eqb_neq. by intros [= ?].
Qed.

Lemma match_leading_wildcard_witness :
  match_ "disabledBitmap" ("*" +:+ "Bitmap") = Ok true /\
  match_ "bitmapData" ("*" +:+ "Bitmap") = Ok false.
Proof.
  split.
  - exact (match_leading_wildcard "disabledBitmap" "Bitmap" eq_refl).
  - exact (match_leading_wildcard "bitmapData" "Bitmap" eq_refl).
Defined.

End MatchSpec.

(** ** stub-outliner.py: arguments and signatures *)

Module SignatureSpec.
Import Py Predicates MorePredicates PyFacts StubOutliner Reflection HeuristicsSpec.

(** [parse_args] returns for every list of argument texts: one [Arg] for
    each text, in order, named by the text before the first [=] and marked
    as having a default when something follows that [=]. *)
Theorem parse_args_shape (rt : Runtime) (args : list string) (add_any : bool) :
  exists l,
    parse_args rt args add_any = Ok l /\
    List.length l = List.length args /\
    map name l = map (fun a => fst (fst (partition "=" a))) args /\
    map deafult l = map (fun a => nonempty (snd (partition "=" a))) args.
Proof.
  unfold parse_args.
  destruct (rmap_total (parse_arg rt add_any) args) as (l & Hl & Hall);
    [apply parse_arg_never_raises|].
  exists l. split; [done|]. clear Hl.
  induction Hall as [|a x args l Hx _ IH]; [done|].
  destruct IH as (Hlen & Hn & Hd). cbn [List.length map].
  rewrite Hlen, Hn, Hd. split; [done|].
  unfold parse_arg in Hx. destruct (partition "=" a) as [[n sep] dflt].
  destruct (match nonempty dflt with true => _ | false => _ end) as [t|];
    cbn [rbind] in Hx; [|done].
  by injection Hx as <-.
Qed.

(** With [add_any], every argument [parse_args] returns has a type. *)
Theorem parse_args_add_any (rt : Runtime) (args : list string) :
  exists l, parse_args rt args true = Ok l /\ Forall (fun a => is_Some (tp a)) l.
Proof.
  unfold parse_args.
  destruct (rmap_total (parse_arg rt true) args) as (l & Hl & Hall);
    [apply parse_arg_never_raises|].
  exists l. split; [done|]. clear Hl.
  induction Hall as [|a x args l Hx _ IH]; constructor; [|done].
  unfold parse_arg in Hx. destruct (partition "=" a) as [[n sep] dflt].
  destruct (match nonempty dflt with true => _ | false => _ end) as [t|];
    cbn [rbind] in Hx; [|done].
  injection Hx as <-. cbn [tp]. by destruct t; eauto.
Qed.

Lemma partition_absent (sep s : string) :
  contains sep s = false -> partition sep s = (s, EmptyString, EmptyString).
Proof.
  induction s as [|a s IH]; intros H.
  - cbn [contains] in H. apply orb_false_iff in H as [H _].
    cbn [partition]. by rewrite H.
  - change (contains sep (String a s))
      with (String.prefix sep (String a s) || contains sep s) in H.
    apply orb_false_iff in H as [Hp Hs].
    cbn [partition]. by rewrite Hp, (IH Hs).
Qed.

(** An argument given without a default and without an asterisk in its name
    takes the type the table holds for a pattern equal to its whole name,
    and no type (or the catch-all) when there is no such pattern. *)
Theorem parse_arg_by_name (rt : Runtime) (add_any : bool) (arg : string) :
  contains "=" arg = false -> contains "*" arg = false ->
  parse_arg rt add_any arg
  = Ok (mkArg arg
          match assoc arg patern_and_type with
          | Some t => Some t
          | None => if add_any then Some "Any" else None
          end false).
Proof.
  intros Heq Hstar. unfold parse_arg. rewrite (partition_absent _ _ Heq).
  cbn [nonempty]. rewrite (first_match_is_lookup _ _ Hstar). cbn [rbind].
  by destruct (assoc arg patern_and_type).
Qed.

Lemma parse_arg_by_name_witness :
  parse_arg Examples.demo_rt false "size" = Ok (mkArg "size" (Some "SizeLike") false)
  /\ parse_arg Examples.demo_rt false "sizer" = Ok (mkArg "sizer" None false).
Proof.
  split.
  - exact (parse_arg_by_name Examples.demo_rt false "size" eq_refl eq_refl).
  - exact (parse_arg_by_name Examples.demo_rt false "sizer" eq_refl eq_refl).
Defined.

Lemma assoc_value {V : Type} (k : string) (d : list (string * V)) (v : V) :
  assoc k d = Some v -> v ∈ map snd d.
Proof.
  induction d as [|[k' v'] d IH]; [done|]. cbn [assoc map snd].
  destruct (String.eqb k k'); [intros [= ->]; left|right; auto].
Qed.

(** No key of [convert_arg_type] starts with [wx.]. *)
Lemma convert_arg_type_no_wx (name : string) :
  assoc ("wx." +:+ name) convert_arg_type = None.
Proof. reflexivity. Qed.

(** The type inferred from a default is never a name [convert_arg_type]
    renames: [str], [bytes], [list], [StandardID], [Point], [Size] and
    [Rect] do not reach the output. *)
Theorem get_type_from_default_converted (rt : Runtime) (str t : string) :
  get_type_from_default rt str = Some t -> assoc t convert_arg_type = None.
Proof.
  unfold get_type_from_default.
  destruct (if _ : bool then _ else _) as [ty|]; [|done].
  destruct (assoc (tp_name ty) convert_arg_type) as [r|] eqn:Hr.
  - intros [= <-]. apply assoc_value in Hr. cbn in Hr.
    repeat (apply elem_of_cons in Hr as [->|Hr]; [reflexivity|]).
    by apply elem_of_nil in Hr.
  - destruct (startswith (tp_module ty) "wx"); intros [= <-];
      [apply convert_arg_type_no_wx|done].
Qed.

Lemma get_type_from_default_converted_witness :
  get_type_from_default Examples.demo_rt "0" = Some "int" /\
  assoc "int" convert_arg_type = None.
Proof.
  split; [reflexivity|].
  exact (get_type_from_default_converted Examples.demo_rt "0" "int" eq_refl).
Defined.



(** *** [Signature.index] and [Signature.set_type] *)

Lemma find_arg_found (nm : string) (l : list Arg) (k i : nat) :
  find_arg nm l k = Some i <->
  exists j a, i = (k + j)%nat /\ l !! j = Some a /\ name a = nm /\
    forall j' a', (j' < j)%nat -> l !! j' = Some a' -> name a' <> nm.
Proof.
  revert k. induction l as [|x l IH]; intros k; cbn [find_arg].
  - split; [done|]. by intros (j & a & _ & H & _).
  - destruct (String.eqb_spec (name x) nm) as [Heq|Hne].
    + split.
      * intros [= <-]. exists 0%nat, x. split; [lia|]. split; [done|].
        split; [done|]. intros j' a' Hj. lia.
      * intros (j & a & -> & Hj & Ha & Hmin). destruct j as [|j]; [f_equal; lia|].
        exfalso. by apply (Hmin 0%nat x); [lia| |].
    + rewrite IH. split.
      * intros (j & a & -> & Hj & Ha & Hmin). exists (S j), a.
        split; [lia|]. split; [done|]. split; [done|].
        intros [|j'] a' Hlt Hl; [by injection Hl as <-|].
        apply (Hmin j'); [lia|done].
      * intros (j & a & -> & Hj & Ha & Hmin). destruct j as [|j].
        { injection Hj as <-. done. }
        exists j, a. split; [lia|]. split; [done|]. split; [done|].
        intros j' a' Hlt Hl. apply (Hmin (S j')); [lia|done].
Qed.

Lemma find_arg_absent (nm : string) (l : list Arg) (k : nat) :
  (forall a, a ∈ l -> name a <> nm) -> find_arg nm l k = None.
Proof.
  revert k. induction l as [|x l IH]; intros k H; cbn [find_arg]; [done|].
  destruct (String.eqb_spec (name x) nm) as [Heq|_].
  - exfalso. apply (H x); [left|done].
  - apply IH. intros a Ha. apply H. by right.
Qed.

Lemma find_arg_names (nm : string) (l1 l2 : list Arg) (k : nat) :
  map name l1 = map name l2 -> find_arg nm l1 k = find_arg nm l2 k.
Proof.
  revert l2 k. induction l1 as [|x l1 IH]; intros [|y l2] k H; try done.
  injection H as Hx Hl. cbn [find_arg]. rewrite Hx. by rewrite (IH l2).
Qed.

(** [sig.index(name)] is the position of the first argument with that
    name; when no argument has it, the call gives back the default, or
    raises [IndexError] when it was given none. *)
Theorem index_first (T : Type) (sig : Signature) (nm : string)
    (default : option T) :
  (forall i, index sig nm default = Ok (inl i) <->
     (exists a, args sig !! i = Some a /\ name a = nm) /\
     (forall j a, (j < i)%nat -> args sig !! j = Some a -> name a <> nm)) /\
  ((forall a, a ∈ args sig -> name a <> nm) ->
   index sig nm default
   = match default with Some d => Ok (inr d) | None => Raise IndexError end).
Proof.
  split.
  - intros i. unfold index.
    destruct (find_arg nm (args sig) 0) as [i0|] eqn:Hf.
    + apply find_arg_found in Hf as (j & a & -> & Hj & Ha & Hmin). cbn [Nat.add].
      split.
      * intros [= <-]. eauto.
      * intros [(a' & Hi & Ha') Hmin']. f_equal. f_equal.
        destruct (Nat.lt_trichotomy j i) as [Hlt|[->|Hgt]]; [|done|].
        -- exfalso. by apply (Hmin' j a).
        -- exfalso. by apply (Hmin i a').
    + split; [by destruct default|]. intros [(a & Hi & Ha) Hmin]. exfalso.
      assert (find_arg nm (args sig) 0 = Some i) as Hs; [|congruence].
      apply find_arg_found. exists i, a. repeat split; auto.
  - intros Habs. unfold index. by rewrite (find_arg_absent _ _ _ Habs).
Qed.

Lemma index_first_witness :
  let sig := mkSignature "None" "SetSize"
               [mkArg "self" None false; mkArg "size" (Some "SizeLike") false] in
  index sig "size" (None : option nat) = Ok (inl 1%nat) /\
  index sig "width" (None : option nat) = Raise IndexError /\
  index sig "width" (Some 7%nat) = Ok (inr 7%nat).
Proof.
  intros sig. split; [|split].
  - apply (proj1 (index_first nat sig "size" None)). split.
    + by exists (mkArg "size" (Some "SizeLike") false).
    + intros [|j] a Hj Ha; [by injection Ha as <-|lia].
  - apply (proj2 (index_first nat sig "width" None)). intros a Ha.
    repeat (apply elem_of_cons in Ha as [->|Ha]; [done|]). by apply elem_of_nil in Ha.
  - apply (proj2 (index_first nat sig "width" (Some 7%nat))). intros a Ha.
    repeat (apply elem_of_cons in Ha as [->|Ha]; [done|]). by apply elem_of_nil in Ha.
Defined.

Lemma map_insert_same {A B : Type} (f : A -> B) (l : list A) (i : nat) (x a : A) :
  l !! i = Some a -> f x = f a -> map f (<[i:=x]> l) = map f l.
Proof.
  revert i. induction l as [|y l IH]; intros [|i] Hi Hf; try done.
  - injection Hi as ->. cbn. by rewrite Hf.
  - cbn. f_equal. by apply IH.
Qed.

(** What a [set_type] that returned has left as it was. *)
Lemma set_type_inv (sig sig' : Signature) (i : nat) (t : string) :
  set_type sig i t = Ok sig' ->
  (i < List.length (args sig))%nat /\
  retanot sig' = retanot sig /\ sig_name sig' = sig_name sig /\
  map name (args sig') = map name (args sig) /\
  map deafult (args sig') = map deafult (args sig) /\
  (forall j, j <> i -> args sig' !! j = args sig !! j).
Proof.
  unfold set_type. destruct (args sig !! i) as [a|] eqn:Ha; [|done].
  intros [= <-]. cbn [retanot sig_name args].
  split; [by eapply lookup_lt_Some|]. split; [done|]. split; [done|].
  split; [by apply (map_insert_same name _ _ _ a)|].
  split; [by apply (map_insert_same deafult _ _ _ a)|].
  intros j Hj. by rewrite list_lookup_insert_ne.
Qed.

(** [sig.set_type(i, tp)] within range gives argument [i] the type and
    changes nothing else: the name and the return annotation of the
    signature, the number of arguments, their names and default marks, and
    the other arguments stay; out of range it raises [IndexError]. *)
Theorem set_type_frame (sig : Signature) (i : nat) (t : string) :
  ((i < List.length (args sig))%nat ->
   exists sig',
     set_type sig i t = Ok sig' /\
     retanot sig' = retanot sig /\ sig_name sig' = sig_name sig /\
     map name (args sig') = map name (args sig) /\
     map deafult (args sig') = map deafult (args sig) /\
     tp <$> args sig' !! i = Some (Some t) /\
     (forall j, j <> i -> args sig' !! j = args sig !! j)) /\
  ((List.length (args sig) <= i)%nat -> set_type sig i t = Raise IndexError).
Proof.
  unfold set_type. split.
  - intros Hlt. destruct (lookup_lt_is_Some_2 (args sig) i Hlt) as [a Ha].
    rewrite Ha. eexists. split; [reflexivity|]. cbn [retanot sig_name args].
    split; [done|]. split; [done|].
    split; [by apply (map_insert_same name _ _ _ a)|].
    split; [by apply (map_insert_same deafult _ _ _ a)|]. split.
    + by rewrite list_lookup_insert_eq.
    + intros j Hj. by rewrite list_lookup_insert_ne.
  - intros Hge. by rewrite (lookup_ge_None_2 _ _ Hge).
Qed.

Lemma set_type_frame_witness :
  let sig := mkSignature "None" "SetSize"
               [mkArg "self" None false; mkArg "size" None false] in
  (exists sig', set_type sig 1 "SizeLike" = Ok sig' /\
                map name (args sig') = ["self"; "size"] /\
                tp <$> args sig' !! 1%nat = Some (Some "SizeLike")) /\
  set_type sig 2 "int" = Raise IndexError.
Proof.
  intros sig. split.
  - destruct (proj1 (set_type_frame sig 1 "SizeLike")) as (sig' & H & _ & _ & Hn & _ & Ht & _).
    { cbn. lia. }
    exists sig'. split; [exact H|]. split; [exact Hn|exact Ht].
  - apply (proj2 (set_type_frame sig 2 "int")). cbn. lia.
Defined.

(** Setting a type moves no argument: [index] answers after [set_type] as
    it did before. *)
Theorem index_after_set_type (T : Type) (sig sig' : Signature) (i : nat)
    (t nm : string) (default : option T) :
  set_type sig i t = Ok sig' -> index sig' nm default = index sig nm default.
Proof.
  intros H. unfold index.
  destruct (set_type_inv _ _ _ _ H) as (_ & _ & _ & Hn & _).
  by rewrite (find_arg_names _ _ _ _ Hn).
Qed.

Lemma index_after_set_type_witness :
  let sig := mkSignature "None" "SetSize"
               [mkArg "self" None false; mkArg "size" None false] in
  let sig' := mkSignature "None" "SetSize"
               [mkArg "self" None false; mkArg "size" (Some "SizeLike") false] in
  index sig' "size" (None : option nat) = index sig "size" None.
Proof.
  intros sig sig'.
  exact (index_after_set_type nat sig sig' 1 "SizeLike" "size" None eq_refl).
Defined.

(** *** [Signature.print] *)

Lemma str_app_nil_r (s : string) : s +:+ EmptyString = s.
Proof.
  induction s as [|a s IH]; [done|].
  change (String a s +:+ EmptyString) with (String a (s +:+ EmptyString)).
  by rewrite IH.
Qed.

Lemma str_app_assoc (a b c : string) : (a +:+ b) +:+ c = a +:+ (b +:+ c).
Proof.
  induction a as [|x a IH]; [done|].
  change ((String x a +:+ b) +:+ c) with (String x ((a +:+ b) +:+ c)).
  by rewrite IH.
Qed.

Lemma concat_empty_cons (x : string) (l : list string) :
  String.concat EmptyString (x :: l) = x +:+ String.concat EmptyString l.
Proof. destruct l; cbn; [by rewrite str_app_nil_r|done]. Qed.

Lemma concat_empty_app (l1 l2 : list string) :
  String.concat EmptyString (l1 ++ l2)
  = String.concat EmptyString l1 +:+ String.concat EmptyString l2.
Proof.
  induction l1 as [|x l1 IH]; [done|].
  change ((x :: l1) ++ l2) with (x :: (l1 ++ l2)).
  by rewrite !concat_empty_cons, IH, str_app_assoc.
Qed.

Lemma arg_pieces_text (a : Arg) :
  exists core, arg_pieces a = core ++ [", "]
               /\ String.concat EmptyString core = arg_text a.
Proof.
  unfold arg_pieces, arg_text. destruct a as [n [t|] [|]]; cbn [name tp deafult].
  - by exists [n; ": "; t; " = ..."].
  - exists [n; ": "; t]. split; [done|]. cbn. by rewrite !str_app_nil_r.
  - by exists [n; " = ..."].
  - exists [n]. split; [done|]. cbn. by rewrite str_app_nil_r.
Qed.

Lemma pieces_join (l : list Arg) :
  join EmptyString (removelast (flat_map arg_pieces l))
  = join ", " (map arg_text l).
Proof.
  unfold join. induction l as [|a l IH]; [done|].
  destruct (arg_pieces_text a) as (core & Hp & Hc).
  cbn [flat_map map]. rewrite Hp. destruct l as [|b l].
  - cbn [flat_map]. rewrite app_nil_r, removelast_last. done.
  - rewrite <- app_assoc, !removelast_app; cycle 1.
    { destruct (arg_pieces_text b) as (cb & Hb & _). cbn [flat_map]. rewrite Hb.
      by destruct cb. }
    { destruct (arg_pieces_text b) as (cb & Hb & _). cbn [flat_map app]. rewrite Hb.
      by destruct cb. }
    rewrite concat_empty_app, Hc. cbn [app]. rewrite concat_empty_cons, IH.
    done.
Qed.

(** The line [Signature.print] writes holds the arguments separated by a
    comma and a space, with no comma after the last: the pieces appended
    one by one and the dropped last piece amount to a join. *)
Theorem sig_line_text (indent : string) (sig : Signature) :
  sig_line indent sig
  = indent +:+ "def " +:+ sig_name sig +:+ "("
      +:+ join ", " (map arg_text (args sig))
      +:+ ") -> " +:+ retanot sig +:+ ": ...".
Proof. unfold sig_line. by rewrite pieces_join. Qed.

(** *** [signature_using_inspect] *)

(** [signature_using_inspect] raises in one case only: with [add_any], for
    a callable whose signature has no parameter, the read of
    [parameters[0]] is an [IndexError]. *)
Theorem signature_using_inspect_raises (str_sig : list Param -> string)
    (signature : option (list Param)) (add_any : bool) (e : exn) :
  signature_using_inspect str_sig signature add_any = Raise e <->
  e = IndexError /\ add_any = true /\ signature = Some [].
Proof.
  unfold signature_using_inspect. split.
  - destruct signature as [[|p0 rest]|], add_any; cbn [map]; try done.
    by intros [= <-].
  - by intros (-> & -> & ->).
Qed.

(** With [add_any] every parameter is printed with the annotation [Any],
    but a first parameter named [self], which is printed without one;
    whatever annotations the signature had are lost. *)
Theorem signature_using_inspect_add_any (str_sig : list Param -> string)
    (p0 : Param) (rest : list Param) :
  exists ps,
    signature_using_inspect str_sig (Some (p0 :: rest)) true = Ok (str_sig ps) /\
    map prm_name ps = map prm_name (p0 :: rest) /\
    map prm_rest ps = map prm_rest (p0 :: rest) /\
    (forall i p, ps !! i = Some p ->
       prm_annotation p
       = if bool_decide (i = 0%nat) && String.eqb (prm_name p) "self"
         then None else Some "Any").
Proof.
  unfold signature_using_inspect. cbn [map].
  assert (forall l : list Param,
            map prm_name (map (replace_annotation (Some "Any")) l) = map prm_name l
            /\ map prm_rest (map (replace_annotation (Some "Any")) l) = map prm_rest l
            /\ forall i p, map (replace_annotation (Some "Any")) l !! i = Some p ->
                           prm_annotation p = Some "Any") as Hall.
  { induction l as [|q l (H1 & H2 & H3)]; [done|]. cbn [map].
    rewrite H1, H2. split; [done|]. split; [done|].
    intros [|i] p; [by intros [= <-]|apply H3]. }
  destruct (Hall rest) as (H1 & H2 & H3).
  cbn [replace_annotation prm_name].
  destruct (String.eqb (prm_name p0) "self") eqn:Hself; eexists;
    (split; [reflexivity|]); cbn [map replace_annotation prm_name prm_rest];
    rewrite H1, H2; (split; [done|]); (split; [done|]).
  - intros [|i] p; [intros [= <-]; cbn; by rewrite Hself|].
    intros Hp. cbn in Hp. by rewrite (H3 i p Hp).
  - intros [|i] p; [intros [= <-]; cbn; by rewrite Hself|].
    intros Hp. cbn in Hp. by rewrite (H3 i p Hp).
Qed.

End SignatureSpec.

(** ** stub-outliner.py: more on the stub blocks *)

Module StubMore.
Import Py Predicates MorePredicates PyFacts StubOutliner Reflection.
Import HeuristicsSpec StubSpec SignatureSpec.

Lemma retyped_refl (sig : Signature) : retyped sig sig.
Proof. by repeat split. Qed.

Lemma retyped_trans (s1 s2 s3 : Signature) :
  retyped s1 s2 -> retyped s2 s3 -> retyped s1 s3.
Proof.
  intros (A1 & A2 & A3 & A4 & A5) (B1 & B2 & B3 & B4 & B5).
  repeat split; try congruence. intros j Hj. by rewrite B5, A5.
Qed.

Lemma set_type_retyped (sig sig' : Signature) (i : nat) (t : string) :
  (i = 1 \/ i = 2)%nat -> set_type sig i t = Ok sig' ->
  retyped sig sig' /\ List.length (args sig') = List.length (args sig).
Proof.
  intros Hi H.
  destruct (set_type_inv _ _ _ _ H) as (_ & R1 & R2 & R3 & R4 & R6). split.
  - repeat split; try done. intros j Hj. apply R6. lia.
  - by rewrite <- (length_map name), R3, length_map.
Qed.

Lemma set_type_in_range (sig : Signature) (i : nat) (t : string) :
  (i < List.length (args sig))%nat -> exists sig', set_type sig i t = Ok sig'.
Proof.
  intros Hlt. unfold set_type.
  destruct (lookup_lt_is_Some_2 (args sig) i Hlt) as [a ->]. eauto.
Qed.

(** One turn of the loop of the event branch, on an index in range. *)
Lemma event_arg_returns (sig : Signature) (i : nat) :
  (i = 1 \/ i = 2)%nat -> (i < List.length (args sig))%nat ->
  exists sig', event_arg sig i = Ok sig' /\ retyped sig sig'
               /\ List.length (args sig') = List.length (args sig).
Proof.
  intros Hi Hlt. unfold event_arg.
  destruct (lookup_lt_is_Some_2 (args sig) i Hlt) as [a ->].
  destruct (contains "Type" (name a)).
  { destruct (set_type_in_range sig i "wx._EventType" Hlt) as [s' Hs'].
    exists s'. split; [done|]. by apply (set_type_retyped _ _ i "wx._EventType"). }
  destruct (bool_decide _).
  { destruct (set_type_in_range sig i "wx._WindowID" Hlt) as [s' Hs'].
    exists s'. split; [done|]. by apply (set_type_retyped _ _ i "wx._WindowID"). }
  exists sig. split; [done|]. split; [apply retyped_refl|done].
Qed.

Lemma event_fold_returns (l : list nat) (sig : Signature) :
  Forall (fun i => (i = 1 \/ i = 2) /\ i < List.length (args sig))%nat l ->
  exists sig', rfold event_arg sig l = Ok sig' /\ retyped sig sig'.
Proof.
  revert sig. induction l as [|i l IH]; intros sig Hl; cbn [rfold].
  - exists sig. split; [done|apply retyped_refl].
  - apply Forall_cons in Hl as [[Hi Hlt] Hl].
    destruct (event_arg_returns sig i Hi Hlt) as (s1 & -> & Hr1 & Hlen).
    destruct (IH s1) as (s2 & H2 & Hr2).
    { eapply Forall_impl; [exact Hl|]. intros j Hj. cbn in Hj. rewrite Hlen. exact Hj. }
    exists s2. split; [done|]. by eapply retyped_trans.
Qed.

Lemma event_indices (n : nat) :
  (2 <= n)%nat ->
  Forall (fun i => (i = 1 \/ i = 2) /\ i < n)%nat (seq 1 (Nat.min 3 n - 1)).
Proof.
  intros Hn. destruct (decide (n = 2)) as [->|Hne]; [cbn; repeat constructor; lia|].
  replace (Nat.min 3 n - 1)%nat with 2%nat by lia.
  cbn. repeat constructor; lia.
Qed.

(** The constructor heuristics raise in one case only: the class derives
    from [wx.Window], the signature has two arguments and the second is
    named [parent]; the exception is then [IndexError]. For a class that
    derives from [wx.Event] they never raise. *)
Theorem init_heuristics_raises (cls : Class) (sig : Signature) (e : exn) :
  init_heuristics cls sig = Raise e <->
  e = IndexError /\ c_window cls = true /\ List.length (args sig) = 2%nat /\
  exists a, args sig !! 1%nat = Some a /\ name a = "parent".
Proof.
  unfold init_heuristics.
  destruct (List.length (args sig) <? 2)%nat eqn:Hlen.
  { apply Nat.ltb_lt in Hlen. split; [done|]. intros (_ & _ & Hl & _). lia. }
  apply Nat.ltb_ge in Hlen.
  destruct (lookup_lt_is_Some_2 (args sig) 1) as [a1 Ha1]; [lia|]. rewrite Ha1.
  destruct (c_window cls) eqn:Hwin; cbn [andb].
  - destruct (String.eqb_spec (name a1) "parent") as [Hp|Hp].
    + destruct (set_type_in_range sig 1
                  (if c_toplevel cls then "Optional[wx.Window]" else "wx.Window"))
        as [s1 Hs1]; [lia|].
      rewrite Hs1. cbn [rbind].
      destruct (set_type_retyped _ _ 1 _ (or_introl eq_refl) Hs1) as [_ Hl1].
      destruct (args s1 !! 2%nat) as [a2|] eqn:Ha2.
      * apply lookup_lt_Some in Ha2.
        split; [|intros (_ & _ & Hl & _); lia].
        destruct (String.eqb (name a2) "id"); [|done].
        by destruct (set_type_in_range s1 2 "wx._WindowID" Ha2) as [s2 ->].
      * apply lookup_ge_None in Ha2. split.
        -- intros [= <-]. repeat split; [lia|eauto].
        -- by intros (-> & _).
    + split; [|intros (_ & _ & _ & a & Ha & Hn); congruence].
      destruct (c_event cls); [|done].
      by destruct (event_fold_returns _ sig (event_indices _ Hlen)) as (s' & -> & _).
  - split; [|by intros (_ & ? & _)].
    destruct (c_event cls); [|done].
    by destruct (event_fold_returns _ sig (event_indices _ Hlen)) as (s' & -> & _).
Qed.

(** When the constructor heuristics return, the signature has the same
    name, return annotation and arguments as before, with the same names
    and default marks; only the types of the arguments at positions 1 and
    2 may have changed: [self] keeps no type. *)
Theorem init_heuristics_retypes (cls : Class) (sig sig' : Signature) :
  init_heuristics cls sig = Ok sig' -> retyped sig sig'.
Proof.
  unfold init_heuristics.
  destruct (List.length (args sig) <? 2)%nat eqn:Hlen.
  { intros [= <-]. apply retyped_refl. }
  apply Nat.ltb_ge in Hlen.
  destruct (args sig !! 1%nat) as [a1|]; [|done].
  destruct (c_window cls && String.eqb (name a1) "parent").
  - destruct (set_type sig 1 _) as [s1|] eqn:Hs1; [|done]. cbn [rbind].
    destruct (set_type_retyped _ _ 1 _ (or_introl eq_refl) Hs1) as [Hr1 _].
    destruct (args s1 !! 2%nat) as [a2|]; [|done].
    destruct (String.eqb (name a2) "id"); [|by intros [= <-]].
    intros Hs2.
    destruct (set_type_retyped _ _ 2 _ (or_intror eq_refl) Hs2) as [Hr2 _].
    by eapply retyped_trans.
  - destruct (c_event cls); [|intros [= <-]; apply retyped_refl].
    destruct (event_fold_returns _ sig (event_indices _ Hlen)) as (s' & -> & Hr).
    by intros [= <-].
Qed.

Lemma init_heuristics_retypes_witness :
  let sig := mkSignature "None" "__init__"
               [mkArg "self" None false; mkArg "parent" None false;
                mkArg "id" (Some "int") true] in
  let sig' := mkSignature "None" "__init__"
               [mkArg "self" None false; mkArg "parent" (Some "wx.Window") false;
                mkArg "id" (Some "wx._WindowID") true] in
  init_heuristics Examples.Foo sig = Ok sig' /\ retyped sig sig'.
Proof.
  intros sig sig'. split; [reflexivity|].
  exact (init_heuristics_retypes Examples.Foo sig sig' eq_refl).
Defined.

(** *** What [make_stub] may raise *)

Lemma raises_only_oret {A : Type} (P : exn -> Prop) (a : A) : raises_only P (oret a).
Proof. by intros w w' e. Qed.

Lemma raises_only_print (P : exn -> Prop) (line : string) : raises_only P (print line).
Proof. by intros w w' e. Qed.

Lemma raises_only_olift {A : Type} (P : exn -> Prop) (r : result A) :
  (forall e, r = Raise e -> P e) -> raises_only P (olift r).
Proof. intros H w w' e [= _ Hr]. by apply H. Qed.

(** A step, then a continuation that is safe for the values the step can
    return. *)
Lemma raises_only_obind {A B : Type} (P : exn -> Prop) (Q : A -> Prop)
    (m : Out A) (k : A -> Out B) :
  raises_only P m ->
  (forall w w' a, m w = (w', Ok a) -> Q a) ->
  (forall a, Q a -> raises_only P (k a)) ->
  raises_only P (obind m k).
Proof.
  intros Hm HQ Hk w w' e. unfold obind.
  destruct (m w) as [w1 [a|e1]] eqn:Hmw.
  - apply (Hk a (HQ _ _ _ Hmw)).
  - intros [= _ <-]. by eapply Hm.
Qed.

Lemma raises_only_ofor {A : Type} (P : exn -> Prop) (body : A -> Out unit)
    (l : list A) :
  (forall x, x ∈ l -> raises_only P (body x)) -> raises_only P (ofor body l).
Proof.
  induction l as [|x l IH]; intros H; cbn [ofor]; [apply raises_only_oret|].
  apply (raises_only_obind P (fun _ => True)); [apply H; left|done|].
  intros _ _. apply IH. intros y Hy. apply H. by right.
Qed.

Lemma raises_only_print_sigs (P : exn -> Prop) (indent : string)
    (sigs : list Signature) : raises_only P (print_sigs indent sigs).
Proof.
  unfold print_sigs. destruct sigs as [|s1 [|s2 sigs]];
    [apply raises_only_oret|apply raises_only_print|].
  apply raises_only_ofor. intros s _.
  apply (raises_only_obind P (fun _ => True)); [apply raises_only_print|done|].
  intros _ _. apply raises_only_print.
Qed.

Lemma find_signatures_never_raises (rt : Runtime) (doc name : string)
    (init meth add_any : bool) (e : exn) :
  find_signatures rt doc name init meth add_any <> Raise e.
Proof.
  destruct (find_signatures_returns rt doc name init meth add_any) as (sigs & -> & _).
  done.
Qed.

(** Without [init], every signature found carries the name looked for. *)
Lemma find_signatures_names (rt : Runtime) (doc name : string)
    (meth add_any : bool) (sigs : list Signature) :
  find_signatures rt doc name false meth add_any = Ok sigs ->
  Forall (fun sig => sig_name sig = name) sigs.
Proof.
  intros H.
  destruct (find_signatures_returns rt doc name false meth add_any)
    as (sigs' & H' & Hall).
  rewrite H in H'. injection H' as <-.
  assert (Forall (fun parsed => p_name parsed = name)
            (filter (fun parsed => p_name parsed = name) (scanString rt doc))) as Hf.
  { apply Forall_forall. intros x Hx. by apply list_elem_of_filter in Hx as [? _]. }
  clear H. induction Hall as [|parsed sig ps ss Hinit _ IH]; [constructor|].
  apply Forall_cons in Hf as [Hp Hf]. constructor; [|by apply IH].
  unfold Signature_init in Hinit.
  destruct (parse_args rt (p_args parsed) add_any); cbn [rbind] in Hinit; [|done].
  by injection Hinit as <-.
Qed.

(** With the name of its signature, the getter and setter step returns:
    the [pop] cannot miss the key the test has just found. *)
Lemma getter_setter_returns (setters : gmap string string) (sig : Signature) :
  exists r, getter_setter setters (sig_name sig) sig = Ok r.
Proof.
  unfold getter_setter. destruct (startswith (sig_name sig) "Get"); [eauto|].
  destruct (bool_decide (is_Some (setters !! sig_name sig))) eqn:Hkey; [|eauto].
  destruct (List.length (args sig) =? 2)%nat eqn:Hlen; [|eauto]. cbn [andb].
  destruct (args sig !! 1%nat) as [a|] eqn:Ha; [|eauto].
  destruct (bool_decide (tp a = None) || bool_decide (tp a = Some "Any")); [|eauto].
  apply bool_decide_eq_true in Hkey as [t Ht]. rewrite Ht.
  apply Nat.eqb_eq in Hlen.
  destruct (set_type_in_range sig 1 t) as [s' ->]; [lia|]. cbn [rbind]. eauto.
Qed.

Lemma assoc_key {V : Type} (k : string) (d : list (string * V)) :
  k ∈ map fst d -> exists v, assoc k d = Some v.
Proof.
  induction d as [|[k' v'] d IH]; cbn [map fst assoc]; [by intros ?%elem_of_nil|].
  intros Hin. destruct (String.eqb_spec k k') as [_|Hne]; [eauto|].
  apply elem_of_cons in Hin as [?|Hin]; [done|auto].
Qed.

Lemma signature_using_inspect_only_IndexError (str_sig : list Param -> string)
    (signature : option (list Param)) (add_any : bool) (e : exn) :
  signature_using_inspect str_sig signature add_any = Raise e ->
  e = IndexError /\ add_any = true.
Proof.
  unfold signature_using_inspect. destruct signature as [[|p0 rest]|], add_any;
    cbn [map]; try done. by intros [= <-].
Qed.

(** The loop over the methods, on names that are keys of [cls.__dict__],
    raises nothing but the [IndexError] of [signature_using_inspect], and
    nothing at all without [add_any]. *)
Lemma stub_methods_only_IndexError (P : exn -> Prop) (rt : Runtime) (cls : Class)
    (add_any : bool) (names : list string) (setters : gmap string string) :
  (add_any = true -> P IndexError) ->
  Forall (fun n => n ∈ map fst (c_dict cls)) names ->
  raises_only P (stub_methods rt cls add_any setters names).
Proof.
  intros HP. revert setters. induction names as [|n names IH]; intros setters Hn;
    cbn [stub_methods]; [apply raises_only_oret|].
  apply Forall_cons in Hn as [Hin Hn].
  apply (raises_only_obind P (fun _ => True)); [|done|intros; by apply IH].
  unfold stub_method, getattr. destruct (assoc_key _ _ Hin) as [obj ->].
  intros w w' e. unfold obind at 1, olift.
  destruct (find_signatures rt (m_doc obj) n false true add_any) as [sigs|e1] eqn:Hs;
    [|by destruct (find_signatures_never_raises _ _ _ _ _ _ _ Hs)].
  unfold obind at 1.
  pose proof (find_signatures_names _ _ _ _ _ _ Hs) as Hnames.
  destruct sigs as [|s1 [|s2 sigs]].
  - unfold obind at 1.
    destruct (signature_using_inspect (m_str_sig obj) (m_signature obj) add_any)
      as [txt|e0] eqn:Hsui.
    + unfold obind, print, oret. done.
    + intros [= _ <-].
      destruct (signature_using_inspect_only_IndexError _ _ _ _ Hsui) as [-> Hany].
      by apply HP.
  - apply Forall_cons in Hnames as [<- _].
    destruct (getter_setter_returns setters s1) as [r ->].
    unfold obind, print, oret. done.
  - intros H.
    refine (raises_only_obind P (fun _ => True)
              (print_sigs "    " (s1 :: s2 :: sigs)) (fun _ => oret setters)
              _ _ _ w w' e H);
      [apply raises_only_print_sigs|done|intros; apply raises_only_oret].
Qed.

Lemma list_remove_subset (x : string) (l l' : list string) :
  list_remove x l = Ok l' -> forall y, y ∈ l' -> y ∈ l.
Proof.
  revert l'. induction l as [|z l IH]; intros l'; cbn [list_remove]; [done|].
  destruct (String.eqb x z).
  - intros [= <-] y Hy. by right.
  - destruct (list_remove x l) as [r|] eqn:Hr; [|done]. intros [= <-] y Hy.
    apply elem_of_cons in Hy as [->|Hy]; [left|right; by eapply IH].
Qed.

Lemma list_remove_only_ValueError (x : string) (l : list string) (e : exn) :
  list_remove x l = Raise e -> e = ValueError.
Proof.
  induction l as [|z l IH]; cbn [list_remove]; [by intros [= <-]|].
  destruct (String.eqb x z); [done|].
  destruct (list_remove x l); [done|]. intros [= <-]. by apply IH.
Qed.

(** The loop over the nested enumerations raises nothing but [ValueError],
    and adds no name to the remaining attributes. *)
Lemma enum_elements_spec (elements other : list string) :
  raises_only (fun e => e = ValueError) (enum_elements elements other) /\
  forall w w' other', enum_elements elements other w = (w', Ok other') ->
                      forall y, y ∈ other' -> y ∈ other.
Proof.
  revert other. induction elements as [|x elements IH]; intros other;
    cbn [enum_elements].
  - split; [apply raises_only_oret|]. by intros w w' o [= _ <-].
  - split.
    + intros w w' e. unfold obind at 1, print. unfold obind at 1, olift.
      destruct (list_remove x other) as [o1|e1] eqn:Hr.
      * apply (proj1 (IH o1)).
      * intros [= _ <-]. by eapply list_remove_only_ValueError.
    + intros w w' o'. unfold obind at 1, print. unfold obind at 1, olift.
      destruct (list_remove x other) as [o1|e1] eqn:Hr; [|done].
      intros H y Hy. eapply list_remove_subset; [exact Hr|].
      by eapply (proj2 (IH o1)).
Qed.

Lemma stub_enums_spec (cls : Class) (names other : list string) :
  raises_only (fun e => e = ValueError) (stub_enums cls other names) /\
  forall w w' other', stub_enums cls other names w = (w', Ok other') ->
                      forall y, y ∈ other' -> y ∈ other.
Proof.
  revert other. induction names as [|n names IH]; intros other; cbn [stub_enums].
  - split; [apply raises_only_oret|]. by intros w w' o [= _ <-].
  - assert (raises_only (fun e => e = ValueError) (stub_enum cls other n) /\
            forall w w' o1, stub_enum cls other n w = (w', Ok o1) ->
                            forall y, y ∈ o1 -> y ∈ other) as [Hr Hsub].
    { unfold stub_enum.
      set (elements := sorted _).
      destruct (enum_elements_spec elements other) as [Hr Hsub]. split.
      - intros w w' e. unfold obind at 1, print. unfold obind at 1.
        destruct (enum_elements elements other _) as [w1 [o1|e1]] eqn:He.
        + unfold obind at 1.
          destruct (ofor _ elements w1) as [w2 [[]|e2]] eqn:Hf; [done|].
          intros [= _ <-].
          exfalso. revert Hf. clear.
          revert w1. induction elements as [|x l IH]; intros w1; cbn [ofor]; [done|].
          unfold obind, print. apply IH.
        + intros [= _ <-]. by eapply Hr.
      - intros w w' o1. unfold obind at 1, print. unfold obind at 1.
        destruct (enum_elements elements other _) as [w1 [o2|e1]] eqn:He; [|done].
        unfold obind at 1. destruct (ofor _ elements w1) as [w2 [[]|e2]]; [|done].
        intros [= _ <-]. by eapply Hsub. }
    split.
    + apply (raises_only_obind _ (fun o1 => forall y, y ∈ o1 -> y ∈ other));
        [done|exact Hsub|]. intros o1 _. apply (proj1 (IH o1)).
    + intros w w' o'. unfold obind.
      destruct (stub_enum cls other n w) as [w1 [o1|e1]] eqn:H1; [|done].
      intros H2 y Hy. eapply Hsub; [exact H1|]. by eapply (proj2 (IH o1)).
Qed.

(** The names [make_stub] puts in its categories are keys of
    [cls.__dict__]. *)
Lemma categorize_keys (ignore : gset string) (items : list (string * Member))
    (cats cats' : Categories) (keys : list string) :
  (forall n, n ∈ map fst items -> n ∈ keys) ->
  Forall (fun n => n ∈ keys) (method cats ++ other cats) ->
  rfold (categorize ignore) cats items = Ok cats' ->
  Forall (fun n => n ∈ keys) (method cats' ++ other cats').
Proof.
  revert cats. induction items as [|[n obj] items IH]; intros cats Hk Hc;
    cbn [rfold]; [by intros [= <-]|].
  destruct (categorize ignore cats (n, obj)) as [c1|] eqn:H1; [|done].
  apply IH; [intros m Hm; apply Hk; by right|].
  assert (n ∈ keys) as Hn by (apply Hk; left).
  apply Forall_app in Hc as [Hm Ho].
  unfold categorize in H1. destruct (bool_decide (n ∈ ignore));
    [injection H1 as <-; by apply Forall_app|].
  destruct (m_kind obj); try (injection H1 as <-; cbn [method other]).
  - apply Forall_app. split; [|done]. apply Forall_app. split; [done|by constructor].
  - by apply Forall_app.
  - by apply Forall_app.
  - destruct (getitem n 0) as [c|]; cbn [rbind] in H1; [|done].
    destruct (negb _ || _); injection H1 as <-; cbn [method other];
      [|by apply Forall_app].
    apply Forall_app. split; [done|]. apply Forall_app. split; [done|by constructor].
Qed.

Lemma categorize_only_IndexError (ignore : gset string)
    (items : list (string * Member)) (cats : Categories) (e : exn) :
  rfold (categorize ignore) cats items = Raise e -> e = IndexError.
Proof.
  intros H.
  destruct (rfold_only (categorize ignore) IndexError items cats) as [H'|[c H']];
    [|congruence|congruence].
  intros s [n obj]. unfold categorize. destruct (bool_decide _); [eauto|].
  destruct (m_kind obj); eauto.
  unfold getitem. destruct (String.get 0 n); cbn [rbind]; [|by left].
  destruct (negb _ || _); eauto.
Qed.

Lemma sorted_subset (l : list string) (P : string -> Prop) :
  Forall P l -> Forall P (sorted l).
Proof. intros H. unfold sorted. by rewrite sort_by_perm. Qed.

(** [make_stub] raises nothing but [IndexError] (a member without a name,
    the constructor heuristics, or, with [add_any], a method without a
    signature in its docstring whose [inspect.signature] has no parameter)
    and [ValueError] (a value of a nested enumeration that is not among the
    remaining attributes): [setters.pop] never misses its key, and the
    loops over the properties and the remaining attributes cannot fail. *)
Theorem make_stub_raises_only (rt : Runtime) (cls : Class)
    (add_any all_methods : bool) (hide_mod : list Base) :
  raises_only (fun e => e = IndexError \/ e = ValueError)
    (make_stub rt cls add_any all_methods hide_mod).
Proof.
  set (P := fun e => e = IndexError \/ e = ValueError).
  unfold make_stub.
  apply (raises_only_obind P
           (fun cats => Forall (fun n => n ∈ map fst (c_dict cls))
                          (method cats ++ other cats))).
  { apply raises_only_olift. intros e He. left.
    by eapply categorize_only_IndexError. }
  { intros w w' cats [= _ H].
    apply (categorize_keys (ignore_names rt cls all_methods) (c_dict cls)
             no_categories cats _ (fun n Hn => Hn)); [by constructor|exact H]. }
  intros cats Hcats. apply Forall_app in Hcats as [Hm Ho].
  apply (raises_only_obind P (fun _ => True)); [apply raises_only_print|done|].
  intros _ _.
  apply (raises_only_obind P (fun _ => True)); [|done|].
  { unfold stub_init. intros w w' e. unfold obind at 1, olift.
    destruct (find_signatures rt (doc_or_blank (c_doc cls)) _ _ _ _) as [s1|e1] eqn:H1;
      [|by destruct (find_signatures_never_raises _ _ _ _ _ _ _ H1)].
    unfold obind at 1.
    assert (forall sigs w0, sigs <> [] ->
              (sigs0 <~ olift (rmap (init_heuristics cls) sigs) ;;
               print_sigs "    " sigs0) w0 = (w', Raise e) -> P e) as Hheur.
    { intros sigs w0 _. unfold obind, olift.
      destruct (rmap (init_heuristics cls) sigs) as [s2|e2] eqn:H2.
      - intros H. by eapply raises_only_print_sigs.
      - intros [= _ <-]. left.
        revert H2. clear. revert e2.
        induction sigs as [|s sigs IH]; intros e2; cbn [rmap]; [done|].
        destruct (init_heuristics cls s) as [s'|e'] eqn:Hs.
        + destruct (rmap (init_heuristics cls) sigs); [done|].
          intros [= <-]. by apply IH.
        + intros [= <-].
          destruct (init_heuristics_only_index_error cls s) as [He|[s0 He]];
            rewrite He in Hs; congruence. }
    destruct s1 as [|sg s1].
    - destruct (find_signatures rt (doc_or_blank (c_init_doc cls)) _ _ _ _)
        as [s2|e2] eqn:H2;
        [|by destruct (find_signatures_never_raises _ _ _ _ _ _ _ H2)].
      destruct s2 as [|sg2 s2].
      + unfold oret. destruct (bool_decide _); [done|]. by unfold print.
      + unfold oret. by apply Hheur.
    - unfold oret. by apply Hheur. }
  intros _ _.
  apply (raises_only_obind P (fun _ => True)); [|done|].
  { apply stub_methods_only_IndexError; [by left|]. by apply sorted_subset. }
  intros _ _.
  apply (raises_only_obind P (fun _ => True)); [|done|].
  { apply raises_only_ofor. intros n _. apply raises_only_print. }
  intros _ _.
  destruct (stub_enums_spec cls (enumclass cats) (other cats)) as [Hr Hsub].
  apply (raises_only_obind P
           (fun o => Forall (fun n => n ∈ map fst (c_dict cls)) o)).
  { intros w w' e H. right. by eapply Hr. }
  { intros w w' o H. apply Forall_forall. intros y Hy.
    rewrite Forall_forall in Ho. apply Ho. by eapply Hsub. }
  intros o Hkeys. apply raises_only_ofor. intros n Hn.
  unfold stub_other.
  assert (n ∈ map fst (c_dict cls)) as Hk.
  { pose proof (sorted_subset o _ Hkeys) as Hs. rewrite Forall_forall in Hs.
    by apply Hs. }
  destruct (assoc_key _ _ Hk) as [obj ->]. apply raises_only_print.
Qed.

(** *** [make_function_stub] with signatures *)

Lemma print_sigs_lines (indent : string) (sigs : list Signature) (w : list string) :
  print_sigs indent sigs w = (w ++ sigs_lines indent sigs, Ok tt).
Proof.
  unfold print_sigs, sigs_lines. destruct sigs as [|s1 [|s2 sigs]].
  - unfold oret. by rewrite app_nil_r.
  - done.
  - generalize (s1 :: s2 :: sigs). clear. intros l. revert w.
    induction l as [|s l IH]; intros w; cbn [ofor flat_map].
    + unfold oret. by rewrite app_nil_r.
    + unfold obind at 1. unfold obind at 1, print at 1. unfold print at 1.
      rewrite IH. by rewrite <- !app_assoc.
Qed.

(** When the docstring of a function holds at least one signature for its
    name, [make_function_stub] prints the signatures, each under an
    [@overload] line when there are several, and returns: it does not read
    the global [name], so the result is the same whatever the globals. *)
Theorem make_function_stub_signatures (rt : Runtime) (g : Globals)
    (obj : Function) (add_any : bool) (w : list string) (sigs : list Signature) :
  find_signatures rt (doc_or_blank (f_doc obj)) (f_name obj) false false add_any
  = Ok sigs ->
  sigs <> [] ->
  make_function_stub rt g obj add_any w
  = (w ++ sigs_lines EmptyString sigs, Ok tt).
Proof.
  intros Hs Hne. unfold make_function_stub, obind, olift. rewrite Hs.
  destruct sigs as [|s sigs]; [done|]. apply print_sigs_lines.
Qed.

Lemma make_function_stub_signatures_witness :
  let f := {| f_name := "GetWidth"; f_doc := Some "GetWidth() -> int" |} in
  make_function_stub Examples.demo_rt module_globals f false []
  = ([] ++ ["def GetWidth() -> int: ..."], Ok tt).
Proof.
  intros f.
  exact (make_function_stub_signatures Examples.demo_rt module_globals f false []
           [mkSignature "int" "GetWidth" []] eq_refl ltac:(discriminate)).
Defined.

(** *** [write_recursive] *)

Lemma ClassTree_induction (P : ClassTree -> Prop) :
  (forall cls self subclasses, Forall P subclasses -> P (CT cls self subclasses)) ->
  forall t, P t.
Proof.
  intros H. fix IH 1. intros [cls self subclasses]. apply H.
  induction subclasses as [|t l IHl]; constructor; [apply IH|exact IHl].
Qed.






Lemma write_subclasses_grows (cls_name : string)
    (l : list (string * (list Base -> Out (list Base)))) :
  Forall (fun c => forall seen w w' seen',
            snd c seen w = (w', Ok seen') ->
            exists more, seen' = seen ++ more) l ->
  forall seen w w' seen',
    write_subclasses cls_name l seen w = (w', Ok seen') ->
    exists more, seen' = seen ++ more.
Proof.
  induction 1 as [|[n r] l Hr _ IH]; intros seen w w' seen'; cbn [write_subclasses].
  - intros [= _ <-]. exists []. by rewrite app_nil_r.
  - destruct (String.eqb n cls_name); [apply IH|].
    unfold obind, print. cbn [snd] in Hr.
    destruct (r seen (w ++ [EmptyString])) as [w1 [s1|e]] eqn:Hrec; [|done].
    intros H2. destruct (Hr _ _ _ _ Hrec) as [m1 ->].
    destruct (IH _ _ _ _ H2) as [m2 ->]. exists (m1 ++ m2). by rewrite app_assoc.
Qed.

(** The set [_seen] only grows along the walk: when [write_recursive]
    returns, every class that was in it is still there, in place. *)
Theorem write_recursive_seen_grows (rt : Runtime) (add_any : bool)
    (max_depth : Z) (t : ClassTree) (depth : Z) (seen seen' : list Base)
    (w w' : list string) :
  write_recursive rt add_any max_depth t depth seen w = (w', Ok seen') ->
  exists more, seen' = seen ++ more.
Proof.
  revert depth seen seen' w w'.
  induction t as [cls self subclasses IH] using ClassTree_induction.
  intros depth seen seen' w w'. cbn [write_recursive]. unfold obind.
  destruct (make_stub rt cls add_any false seen w) as [w1 [[]|e]]; [|done].
  destruct (depth + 1 =? max_depth)%Z.
  { intros [= _ <-]. exists []. by rewrite app_nil_r. }
  intros H. apply write_subclasses_grows in H as [more ->].
  - exists ([self] ++ more). by rewrite app_assoc.
  - rewrite (sort_by_perm fst String.leb). apply Forall_forall.
    intros c Hc. apply list_elem_of_fmap in Hc as (sub & -> & Hsub).
    cbn [snd]. rewrite Forall_forall in IH. intros s0 w0 w0' s0'. by apply IH.
Qed.

Lemma write_recursive_seen_grows_witness :
  let t := CT Examples.Sized Examples.wx_window [CT Examples.Foo Examples.wx_window []] in
  exists w' seen',
    write_recursive Examples.demo_rt false (-1) t 0 [] [] = (w', Ok seen') /\
    exists more, seen' = [] ++ more.
Proof.
  intros t.
  destruct (write_recursive Examples.demo_rt false (-1) t 0 [] []) as [w' [seen'|e]]
    eqn:H; vm_compute in H; [|discriminate].
  exists w', seen'. split; [reflexivity|].
  exact (write_recursive_seen_grows Examples.demo_rt false (-1) t 0 [] seen' [] w' H).
Defined.

End StubMore.

(** ** update.py: more on the declaration classes and the override files *)

Module OverrideMore.
Import Py Predicates MorePredicates PyFacts Update OverrideSpec.

(** [EnumClass(name, values)] raises, a [ValueError], exactly when a value
    was given that names another class. An enumeration built by the
    constructor prints as its class block followed by one [Literal] line
    for each value, and printing fails only when it was built without
    values. *)
Theorem EnumClass_init_then_str (name : string) (values : option (list EnumValue)) :
  (forall e, EnumClass_init name values = Raise e <->
     e = ValueError /\
     exists vals v, values = Some vals /\ v ∈ vals /\ ev_cls v <> name) /\
  (forall enum, EnumClass_init name values = Ok enum ->
     match values with
     | None => EnumClass_str enum = Raise ValueError
     | Some vals =>
         EnumClass_str enum
         = Ok (join newline
                 (("class " +:+ name +:+ "(_WxSipEnumtype):")
                  :: map (fun v => "    " +:+ ev_name v +:+ " = ...") vals
                  ++ [EmptyString]
                  ++ map (fun v => ev_name v +:+ ": Literal[" +:+ name +:+ "."
                                     +:+ ev_name v +:+ "]") vals))
     end).
Proof.
  unfold EnumClass_init. destruct values as [vals|].
  - destruct (forallb (fun val => String.eqb (ev_cls val) name) vals) eqn:Hall.
    + rewrite forallb_forall in Hall. split.
      * intros e. split; [done|]. intros (_ & vs & v & [= <-] & Hin & Hne).
        apply list_elem_of_In, Hall, String.eqb_eq in Hin. done.
      * intros enum [= <-]. unfold EnumClass_str. cbn [ec_values ec_name].
        rewrite (rmap_ok _ (fun v => "    " +:+ ev_name v +:+ " = ...")); [done|].
        intros v Hv. apply list_elem_of_In, Hall in Hv. by rewrite Hv.
    + split; [|done]. intros e. split.
      * intros [= <-]. split; [done|].
        assert (exists v, v ∈ vals /\ ev_cls v <> name) as (v & Hv & Hne).
        { clear -Hall. induction vals as [|v vals IH]; [done|].
          cbn [forallb] in Hall. apply andb_false_iff in Hall as [H|H].
          - exists v. split; [left|]. by apply String.eqb_neq.
          - destruct (IH H) as (v' & Hv' & Hne). exists v'. split; [by right|done]. }
        eauto.
      * by intros (-> & _).
  - split.
    + intros e. split; [done|]. by intros (_ & vs & v & [=] & _).
    + by intros enum [= <-].
Qed.

Lemma staticmethod_among (l : list Expr) :
  "staticmethod" ∈ omap (fun e => match e with Name id => Some id | NotName => None end) l
  <-> Name "staticmethod" ∈ l.
Proof.
  rewrite list_elem_of_omap. split.
  - intros ([id|] & Hin & Hid); [|done]. by injection Hid as ->.
  - intros Hin. by exists (Name "staticmethod").
Qed.

Lemma check_method_lines (modname cls : string) (node : FunctionDef)
    (w : list string) :
  forallb is_name (decorator_list node) = true ->
  exists out, check_method modname cls node w = (w ++ out, Ok tt)
              /\ (out = [] <-> method_ok node = true).
Proof.
  intros Hplain. unfold check_method, method_ok, obind at 1, olift.
  rewrite rmap_expr_id, Hplain.
  rewrite (bool_decide_ext _ _ (staticmethod_among (decorator_list node))).
  set (first_is_self := match fd_args node with
                        | a :: _ => String.eqb (arg a) "self"
                        | [] => false
                        end).
  set (missing := map arg (filter _ (fd_args node))).
  assert (missing = [] <->
          forallb (fun a => annotation a || String.eqb (arg a) "self")
            (fd_args node) = true) as Hmiss.
  { unfold missing. clear. induction (fd_args node) as [|a l IH]; [done|].
    rewrite filter_cons. cbn [forallb].
    destruct (decide (annotation a = false /\ arg a <> "self")) as [[Ha Hs]|Hn].
    - rewrite Ha. apply String.eqb_neq in Hs. rewrite Hs. done.
    - assert (annotation a || String.eqb (arg a) "self" = true) as ->; [|done].
      destruct (annotation a); [done|]. cbn. apply String.eqb_eq.
      destruct (decide (arg a = "self")); [done|]. exfalso. by apply Hn. }
  unfold obind, print, oret.
  destruct (bool_decide (Name "staticmethod" ∈ decorator_list node)), first_is_self;
    cbn [negb andb]; destruct missing as [|m ms] eqn:Hm;
    try (exists []; rewrite app_nil_r; split; [done|];
         split; [intros _; by apply Hmiss|done]);
    eexists; (split; [try rewrite <- app_assoc; reflexivity|]);
    (split; [done|]); intros H; try done;
    apply Hmiss in H; done.
Qed.

(** [check_has_anotations] raises nothing but [AttributeError], and that
    exactly when a decorator of a method of the class is not a bare name
    (the read of [name.id] fails before anything is printed for that
    method). When every decorator is a bare name it returns, and it prints
    nothing exactly when every method of the class has [self] as its first
    argument (and a static method has not) and an annotation on every
    other argument. *)
Theorem check_has_anotations_silent (cls : string) (body : list (option FunctionDef))
    (modname : string) (w : list string) :
  exists out,
    check_has_anotations cls body modname w
    = (w ++ out, if plain_body body then Ok tt else Raise AttributeError) /\
    (plain_body body = true ->
     (out = [] <->
      Forall (fun node => match node with
                          | Some f => method_ok f = true
                          | None => True
                          end) body)).
Proof.
  unfold check_has_anotations. revert w.
  induction body as [|node body IH]; intros w; cbn [ofor plain_body forallb].
  - exists []. unfold oret. rewrite app_nil_r. by split.
  - destruct (match node with
              | Some f => forallb is_name (decorator_list f)
              | None => true
              end) eqn:Hnode; cbn [andb].
    + assert (exists o1, match node with
                         | Some f => check_method modname cls f
                         | None => oret tt
                         end w = (w ++ o1, Ok tt)
                         /\ (o1 = [] <-> match node with
                                         | Some f => method_ok f = true
                                         | None => True
                                         end)) as (o1 & H1 & Hiff1).
      { destruct node as [f|]; [by apply check_method_lines|].
        exists []. unfold oret. by rewrite app_nil_r. }
      unfold obind. rewrite H1. destruct (IH (w ++ o1)) as (o2 & -> & Hiff2).
      exists (o1 ++ o2). split; [by rewrite app_assoc|]. intros Hplain.
      rewrite Forall_cons, <- Hiff1, <- (Hiff2 Hplain). split.
      * by intros [-> ->]%app_eq_nil.
      * by intros [-> ->].
    + destruct node as [f|]; [|done].
      destruct (check_method_result modname cls f w) as [o1 H1].
      rewrite Hnode in H1. unfold obind. rewrite H1. by exists o1.
Qed.

(** *** The scan of the override files *)

Lemma dict_pop_subset (name : string) (d d' : Namespace) :
  dict_pop name d = Ok d' -> forall k, k ∈ map fst d' -> k ∈ map fst d.
Proof.
  revert d'. induction d as [|[k v] d IH]; intros d'; cbn [dict_pop]; [done|].
  destruct (String.eqb name k).
  - intros [= <-] k' Hk'. by right.
  - destruct (dict_pop name d) as [d0|] eqn:Hpop; [|done]. intros [= <-] k' Hk'.
    cbn [map fst] in Hk' |- *.
    apply elem_of_cons in Hk' as [->|Hk']; [left|right; by eapply IH].
Qed.

Lemma dict_pop_key (name : string) (d d' : Namespace) :
  dict_pop name d = Ok d' -> name ∈ map fst d.
Proof.
  revert d'. induction d as [|[k v] d IH]; intros d'; cbn [dict_pop]; [done|].
  destruct (String.eqb_spec name k) as [->|_]; [intros _; left|].
  destruct (dict_pop name d) as [d0|] eqn:Hpop; [|done]. intros _.
  right. by eapply IH.
Qed.

Lemma dict_pop_only_KeyError (name : string) (d : Namespace) (e : exn) :
  dict_pop name d = Raise e -> e = KeyError.
Proof.
  induction d as [|[k v] d IH]; cbn [dict_pop]; [by intros [= <-]|].
  destruct (String.eqb name k); [done|].
  destruct (dict_pop name d); [done|]. intros [= <-]. by apply IH.
Qed.

Lemma dict_discard_subset (name : string) (d : Namespace) :
  forall k, k ∈ map fst (dict_discard name d) -> k ∈ map fst d.
Proof.
  unfold dict_discard. destruct (dict_pop name d) eqn:Hpop; [|done].
  by eapply dict_pop_subset.
Qed.

Lemma public_only_IndexError (name : string) (e : exn) :
  public name = Raise e -> e = IndexError.
Proof.
  unfold public, getitem. destruct (String.get 0 name); cbn [rbind]; [done|].
  by intros [= <-].
Qed.

Lemma add_import_mod (modstem name : string) (i : list Import_) :
  Forall (fun imp => imp_mod imp = "wx." +:+ modstem) i ->
  Forall (fun imp => imp_mod imp = "wx." +:+ modstem) (add_import modstem name i).
Proof. intros H. unfold add_import. apply Forall_app. split; [done|]. by constructor. Qed.

(** One turn of the loop over the nodes keeps [scan_inv], and raises
    nothing but [IndexError] (a node with an empty name), [AssertionError]
    (a decorated function whose first decorator is not [overload]) and
    [AttributeError] (a decorator or an annotated target that is not a bare
    name). *)
Lemma scan_node_step (ns : Namespace) (modstem : string) (st : FileScan)
    (node : Node) (w w' : list string) (r : result FileScan) :
  scan_inv ns modstem st ->
  scan_node modstem st node w = (w', r) ->
  match r with
  | Ok st' => scan_inv ns modstem st'
  | Raise e => e = IndexError \/ e = AssertionError \/ e = AttributeError
  end.
Proof.
  intros (Hc & Hk & Hs & Hi).
  assert (forall name d, dict_pop name (fs_dict st) = Ok d ->
            forall stubed i last,
              (stubed = fs_stubed st \/ stubed = {[name]} ∪ fs_stubed st) ->
              Forall (fun imp => imp_mod imp = "wx." +:+ modstem) i ->
              scan_inv ns modstem (mkFileScan d stubed i last)) as Hpopped.
  { intros name d Hpop stubed i last Hst Hi'.
    destruct (consistent_pop _ _ _ _ Hc Hpop) as [C1 C2].
    pose proof (dict_pop_subset _ _ _ Hpop) as Hsub.
    pose proof (dict_pop_key _ _ _ Hpop) as Hkey.
    destruct Hst as [->| ->]; (split; [done|]); (split; [auto|]);
      (split; [|done]); [done|].
    intros n [Hn|Hn]%elem_of_union; [|auto].
    apply elem_of_singleton in Hn as ->. auto. }
  destruct node as [name body|f|target|]; cbn [scan_node].
  - unfold obind at 1, olift. destruct (public name) as [[|]|e] eqn:Hpub.
    + destruct (check_has_anotations_result name body modstem w) as [checks Hch].
      unfold obind at 1. rewrite Hch.
      destruct (plain_body body); [|intros [= _ <-]; auto].
      destruct (dict_pop name (fs_dict st)) as [d|] eqn:Hpop.
      * intros [= _ <-]. apply (Hpopped name d Hpop); [by right|by apply add_import_mod].
      * unfold obind, print, oret. destruct (bool_decide _); intros [= _ <-];
          (split; [done|]); (split; [done|]); (split; [done|]);
          by apply add_import_mod.
    + intros [= _ <-]. done.
    + intros [= _ <-]. left. by eapply public_only_IndexError.
  - unfold obind at 1, olift. destruct (public (fd_name f)) as [[|]|e] eqn:Hpub.
    + unfold obind at 1.
      assert (forall last w0,
                match dict_pop (fd_name f) (fs_dict st) with
                | Raise _ =>
                    print ("Error: function " +:+ modstem +:+ "." +:+ fd_name f
                             +:+ " does not corespond to an object in the wx namespace"
                             +:+ newline) ;;;
                    oret (mkFileScan (fs_dict st) (fs_stubed st)
                            (add_import modstem (fd_name f) (fs_i st)) last)
                | Ok d => oret (mkFileScan d (fs_stubed st)
                                  (add_import modstem (fd_name f) (fs_i st)) last)
                end w0 = (w', r) ->
                match r with
                | Ok st' => scan_inv ns modstem st'
                | Raise e => e = IndexError \/ e = AssertionError \/ e = AttributeError
                end) as Himport.
      { intros last w0. destruct (dict_pop (fd_name f) (fs_dict st)) as [d|] eqn:Hpop.
        - intros [= _ <-].
          apply (Hpopped _ d Hpop); [by left|by apply add_import_mod].
        - unfold obind, print, oret. intros [= _ <-].
          (split; [done|]); (split; [done|]); (split; [done|]).
          by apply add_import_mod. }
      destruct (decorator_list f) as [|d0 ds].
      * unfold oret at 1. apply Himport.
      * unfold obind at 1, olift.
        destruct d0 as [id|]; cbn [expr_id]; [|intros [= _ <-]; auto].
        destruct (String.eqb id "overload").
        -- destruct (String.eqb (last_overload st) (fd_name f)).
           ++ unfold oret. intros [= _ <-]. done.
           ++ unfold oret at 1. apply Himport.
        -- unfold oraise. intros [= _ <-]. auto.
    + intros [= _ <-]. done.
    + intros [= _ <-]. left. by eapply public_only_IndexError.
  - unfold obind at 1, olift.
    destruct target as [name|]; cbn [expr_id]; [|intros [= _ <-]; auto].
    unfold obind at 1. destruct (public name) as [[|]|e] eqn:Hpub.
    + intros [= _ <-]. split; [by apply consistent_discard|].
      split; [intros k Hkk; by apply Hk, (dict_discard_subset name)|].
      split; [done|]. by apply add_import_mod.
    + intros [= _ <-]. done.
    + intros [= _ <-]. left. by eapply public_only_IndexError.
  - intros [= _ <-]. done.
Qed.

Lemma scan_nodes_step (ns : Namespace) (modstem : string) (nodes : list Node)
    (st : FileScan) (w w' : list string) (r : result FileScan) :
  scan_inv ns modstem st ->
  scan_nodes modstem st nodes w = (w', r) ->
  match r with
  | Ok st' => scan_inv ns modstem st'
  | Raise e => e = IndexError \/ e = AssertionError \/ e = AttributeError
  end.
Proof.
  revert st w. induction nodes as [|node nodes IH]; intros st w Hinv;
    cbn [scan_nodes].
  - by intros [= _ <-].
  - unfold obind. destruct (scan_node modstem st node w) as [w1 [st1|e]] eqn:H1.
    + apply IH. exact (scan_node_step _ _ _ _ _ _ _ Hinv H1).
    + intros [= _ <-]. exact (scan_node_step _ _ _ _ _ _ _ Hinv H1).
Qed.

Lemma ImportGroup_init_same_mod (m : string) (i : list Import_) :
  i <> [] -> Forall (fun imp => imp_mod imp = m) i ->
  ImportGroup_init i = Ok (mkImportGroup m i).
Proof.
  intros Hne Hall. destruct i as [|imp0 rest]; [done|]. unfold ImportGroup_init.
  apply Forall_cons in Hall as [H0 Hall]. rewrite H0.
  assert (forallb (fun imp => String.eqb (imp_mod imp) m) (imp0 :: rest) = true)
    as ->; [|done].
  cbn [forallb]. rewrite H0, String.eqb_refl. cbn [andb].
  apply forallb_forall. intros imp Hin. apply String.eqb_eq.
  rewrite Forall_forall in Hall. by apply Hall, list_elem_of_In.
Qed.

(** One turn of the loop over the override files: the state stays
    consistent with the namespace, at most one import group is added,
    which is well formed and names the module of the file, and nothing is
    raised but [IndexError], [AssertionError] and [AttributeError]. *)
Lemma scan_module_step (ns : Namespace) (ov : Overrides) (m : Module_)
    (w w' : list string) (r : result Overrides) :
  consistent (mod_dict ov) (classes_stubed ov) ->
  (forall k, k ∈ map fst (mod_dict ov) -> k ∈ map fst ns) ->
  (forall n, n ∈ classes_stubed ov -> n ∈ map fst ns) ->
  scan_module ov m w = (w', r) ->
  match r with
  | Ok ov' =>
      consistent (mod_dict ov') (classes_stubed ov') /\
      (forall k, k ∈ map fst (mod_dict ov') -> k ∈ map fst ns) /\
      (forall n, n ∈ classes_stubed ov' -> n ∈ map fst ns) /\
      (def_import ov' = def_import ov \/
       exists g, def_import ov' = def_import ov ++ [g] /\ group_ok g
                 /\ ig_mod g = "wx." +:+ stem m)
  | Raise e => e = IndexError \/ e = AssertionError \/ e = AttributeError
  end.
Proof.
  intros Hc Hk Hs.
  assert (scan_inv ns (stem m)
            (mkFileScan (mod_dict ov) (classes_stubed ov) [] EmptyString)) as Hinv.
  { split; [exact Hc|]. split; [exact Hk|]. split; [exact Hs|constructor]. }
  unfold scan_module, obind at 1.
  destruct (scan_nodes (stem m) _ (mod_body m) w) as [w1 [st|e]] eqn:Hscan.
  - pose proof (scan_nodes_step ns (stem m) _ _ _ _ _ Hinv Hscan)
      as (Hc' & Hk' & Hs' & Hi').
    cbn [fs_dict fs_stubed fs_i] in *.
    destruct (fs_i st) as [|imp0 rest] eqn:Hfi.
    + unfold obind, print, oret. intros [= _ <-]. cbn [mod_dict classes_stubed def_import].
      split; [done|]. split; [done|]. split; [done|]. by left.
    + rewrite <- Hfi in *.
      rewrite (ImportGroup_init_same_mod ("wx." +:+ stem m) (fs_i st));
        [|by rewrite Hfi|done].
      unfold obind, olift, oret. intros [= _ <-].
      cbn [mod_dict classes_stubed def_import].
      split; [done|]. split; [done|]. split; [done|]. right.
      eexists. split; [reflexivity|]. split; [|done].
      split; [by rewrite Hfi|done].
  - intros [= _ <-]. exact (scan_nodes_step ns (stem m) _ _ _ _ _ Hinv Hscan).
Qed.

Lemma scan_modules_step (ns : Namespace) (modules : list Module_) (ov : Overrides)
    (w w' : list string) (r : result Overrides) :
  consistent (mod_dict ov) (classes_stubed ov) ->
  (forall k, k ∈ map fst (mod_dict ov) -> k ∈ map fst ns) ->
  (forall n, n ∈ classes_stubed ov -> n ∈ map fst ns) ->
  scan_modules ov modules w = (w', r) ->
  match r with
  | Ok ov' =>
      consistent (mod_dict ov') (classes_stubed ov') /\
      (forall k, k ∈ map fst (mod_dict ov') -> k ∈ map fst ns) /\
      (forall n, n ∈ classes_stubed ov' -> n ∈ map fst ns) /\
      exists gs, def_import ov' = def_import ov ++ gs /\ Forall group_ok gs /\
                 sublist (map ig_mod gs) (map (fun m => "wx." +:+ stem m) modules)
  | Raise e => e = IndexError \/ e = AssertionError \/ e = AttributeError
  end.
Proof.
  revert ov w. induction modules as [|m modules IH]; intros ov w Hc Hk Hs;
    cbn [scan_modules].
  - intros [= _ <-]. split; [done|]. split; [done|]. split; [done|].
    exists []. by rewrite app_nil_r.
  - unfold obind. destruct (scan_module ov m w) as [w1 [ov1|e]] eqn:H1.
    + pose proof (scan_module_step ns _ _ _ _ _ Hc Hk Hs H1) as (Hc1 & Hk1 & Hs1 & Hg).
      intros H2. specialize (IH ov1 w1 Hc1 Hk1 Hs1 H2).
      destruct r as [ov2|e]; [|done].
      destruct IH as (Hc2 & Hk2 & Hs2 & gs & Hgs & Hok & Hsub).
      split; [done|]. split; [done|]. split; [done|].
      destruct Hg as [Heq|(g & Heq & Hgok & Hmod)]; rewrite Heq in Hgs.
      * exists gs. split; [done|]. split; [done|]. cbn [map]. by constructor.
      * exists (g :: gs). split; [by rewrite Hgs, <- app_assoc|].
        split; [by constructor|]. cbn [map]. rewrite Hmod. by constructor.
    + intros [= _ <-]. exact (scan_module_step ns _ _ _ _ _ Hc Hk Hs H1).
Qed.

Lemma consistent_start (ns : Namespace) :
  NoDup (map fst ns) -> consistent ns (∅ : gset string).
Proof. intros H. split; [done|]. intros n Hn. by apply not_elem_of_empty in Hn. Qed.

(** After the scan of the override directory, [mod_dict] still has no key
    twice and holds only names of the namespace; every class in
    [classes_stubed] is a name of the namespace and is no longer a key of
    [mod_dict], so it will not be declared a second time as a
    placeholder. *)
Theorem scan_modules_namespace (ns : Namespace) (modules : list Module_)
    (w w' : list string) (ov : Overrides) :
  NoDup (map fst ns) ->
  scan_modules (mkOverrides ns ∅ []) modules w = (w', Ok ov) ->
  NoDup (map fst (mod_dict ov)) /\
  (forall k, k ∈ map fst (mod_dict ov) -> k ∈ map fst ns) /\
  (forall n, n ∈ classes_stubed ov ->
     n ∈ map fst ns /\ n ∉ map fst (mod_dict ov)).
Proof.
  intros Hnd H.
  pose proof (scan_modules_step ns modules (mkOverrides ns ∅ []) w w' (Ok ov)
                (consistent_start ns Hnd)
                (fun k Hk => Hk)
                (fun n Hn => False_ind _ (not_elem_of_empty (C:=gset string) n Hn)) H)
    as ([Hnd' Hgone] & Hk & Hs & _).
  split; [done|]. split; [done|]. intros n Hn. split; auto.
Qed.

Lemma scan_modules_namespace_witness :
  exists w' ov,
    scan_modules (mkOverrides Examples.demo_wx ∅ []) Examples.demo_overrides []
    = (w', Ok ov) /\
    NoDup (map fst (mod_dict ov)) /\
    (forall k, k ∈ map fst (mod_dict ov) -> k ∈ map fst Examples.demo_wx) /\
    (forall n, n ∈ classes_stubed ov ->
       n ∈ map fst Examples.demo_wx /\ n ∉ map fst (mod_dict ov)).
Proof.
  assert (NoDup (map fst Examples.demo_wx)) as Hnd.
  { apply (bool_decide_unpack _). vm_compute. exact I. }
  destruct (scan_modules (mkOverrides Examples.demo_wx ∅ []) Examples.demo_overrides [])
    as [w' [ov|e]] eqn:H; vm_compute in H; [|discriminate].
  exists w', ov. split; [reflexivity|].
  exact (scan_modules_namespace Examples.demo_wx Examples.demo_overrides [] w' ov Hnd H).
Defined.

(** The import groups the scan builds are well formed (not empty, every
    import from the group's module), and their modules are modules of
    override files, in the order of the files, at most one group for each
    file: no [ImportGroup] of the scan fails its own check. *)
Theorem scan_modules_imports (ns : Namespace) (modules : list Module_)
    (w w' : list string) (ov : Overrides) :
  NoDup (map fst ns) ->
  scan_modules (mkOverrides ns ∅ []) modules w = (w', Ok ov) ->
  Forall group_ok (def_import ov) /\
  sublist (map ig_mod (def_import ov)) (map (fun m => "wx." +:+ stem m) modules).
Proof.
  intros Hnd H.
  pose proof (scan_modules_step ns modules (mkOverrides ns ∅ []) w w' (Ok ov)
                (consistent_start ns Hnd)
                (fun k Hk => Hk)
                (fun n Hn => False_ind _ (not_elem_of_empty (C:=gset string) n Hn)) H)
    as (_ & _ & _ & gs & Hgs & Hok & Hsub).
  cbn [def_import app] in Hgs. by rewrite Hgs.
Qed.

Lemma scan_modules_imports_witness :
  exists w' ov,
    scan_modules (mkOverrides Examples.demo_wx ∅ []) Examples.demo_overrides []
    = (w', Ok ov) /\
    Forall group_ok (def_import ov) /\
    sublist (map ig_mod (def_import ov))
      (map (fun m => "wx." +:+ stem m) Examples.demo_overrides).
Proof.
  assert (NoDup (map fst Examples.demo_wx)) as Hnd.
  { apply (bool_decide_unpack _). vm_compute. exact I. }
  destruct (scan_modules (mkOverrides Examples.demo_wx ∅ []) Examples.demo_overrides [])
    as [w' [ov|e]] eqn:H; vm_compute in H; [|discriminate].
  exists w', ov. split; [reflexivity|].
  exact (scan_modules_imports Examples.demo_wx Examples.demo_overrides [] w' ov Hnd H).
Defined.

End OverrideMore.

(** ** update.py: the whole run *)

Module RunSpec.
Import Py Predicates MorePredicates PyFacts Update OverrideSpec EnumSpec OrderSpec.
Import OverrideMore.

(** The stages of a run that returned. *)
Lemma run_stages (modules : list Module_) (wx_dict : Namespace)
    (w w' : list string) (f : Final) :
  run modules wx_dict w = (w', Ok f) ->
  exists w1 ov st d b r,
    scan_modules (mkOverrides wx_dict ∅ []) modules w = (w1, Ok ov) /\
    rfold pop_overload (mod_dict ov, []) overloads = Ok st /\
    rfold (fun d name => dict_pop name d) (fst st) remove = Ok d /\
    classify_all (mkBuckets [] (snd st) [] [] [] ∅) d w1 = (w', Ok b) /\
    partition_enums (def_enum b) (def_val b) = Ok r /\
    sort_const (def_const b) = Ok (f_const f) /\
    f = mkFinal (def_import ov)
          (sort_by a_name String.leb (def_undef b))
          (sort_by ec_name String.leb (fst r))
          (f_const f)
          (sort_by a_name String.leb (def_evt b))
          (sort_err (def_err b)) (snd r) (classes_stubed ov).
Proof.
  unfold run, obind, olift, oret.
  destruct (scan_modules _ modules w) as [w1 [ov|]] eqn:H1; [|done].
  destruct (rfold pop_overload _ overloads) as [st|] eqn:H2; [|done].
  destruct (rfold _ (fst st) remove) as [d|] eqn:H3; [|done].
  destruct (classify_all _ d w1) as [w2 [b|]] eqn:H4; [|done].
  destruct (partition_enums (def_enum b) (def_val b)) as [r|] eqn:H5; [|done].
  destruct (sort_const (def_const b)) as [consts|] eqn:H6; [|done].
  intros [= <- <-]. by exists w1, ov, st, d, b, r.
Qed.

(** Popping a list of names raises [KeyError] when one of them is not a
    key, and nothing else; when it returns, no key was added. *)
Lemma pops_spec (names : list string) (d : Namespace) :
  match rfold (fun d name => dict_pop name d) d names with
  | Ok d' => (forall k, k ∈ map fst d' -> k ∈ map fst d)
             /\ forall n, n ∈ names -> n ∈ map fst d
  | Raise e => e = KeyError
  end.
Proof.
  revert d. induction names as [|n names IH]; intros d; cbn [rfold].
  - split; [done|]. by intros n ?%elem_of_nil.
  - destruct (dict_pop n d) as [d1|e] eqn:H1; [|by eapply dict_pop_only_KeyError].
    specialize (IH d1). destruct (rfold _ d1 names) as [d2|e]; [|done].
    destruct IH as [Hsub Hin]. pose proof (dict_pop_subset _ _ _ H1) as Hs1.
    split; [auto|]. intros m [->|Hm]%elem_of_cons; [by eapply dict_pop_key|auto].
Qed.

Lemma pop_overloads_spec (l : list (string * string)) (d : Namespace)
    (cs : list Anotation) :
  match rfold pop_overload (d, cs) l with
  | Ok st => (forall k, k ∈ map fst (fst st) -> k ∈ map fst d)
             /\ (forall n, n ∈ map fst l -> n ∈ map fst d)
             /\ snd st = cs ++ map (fun o => mkAnotation (fst o) (snd o) EmptyString
                                               (Some 3%Z)) l
  | Raise e => e = KeyError
  end.
Proof.
  revert d cs. induction l as [|o l IH]; intros d cs; cbn [rfold].
  - split; [done|]. split; [by intros n ?%elem_of_nil|]. by rewrite app_nil_r.
  - replace (pop_overload (d, cs) o)
      with (match dict_pop (fst o) d with
            | Ok d1 => Ok (d1, cs ++ [mkAnotation (fst o) (snd o) EmptyString
                                        (Some 3%Z)])
            | Raise e => Raise e
            end) by (unfold pop_overload; cbn [fst snd]; by destruct (dict_pop _ d)).
    destruct (dict_pop (fst o) d) as [d1|e] eqn:H1;
      [|by eapply dict_pop_only_KeyError].
    specialize (IH d1 (cs ++ [mkAnotation (fst o) (snd o) EmptyString (Some 3%Z)])).
    destruct (rfold pop_overload _ l) as [st|e]; [|done].
    destruct IH as (Hsub & Hin & Hcs). pose proof (dict_pop_subset _ _ _ H1) as Hs1.
    split; [auto|]. split.
    + cbn [map]. intros m [->|Hm]%elem_of_cons; [by eapply dict_pop_key|auto].
    + rewrite Hcs. cbn [map]. by rewrite <- app_assoc.
Qed.

(** The names of [overloads] and of [remove] are popped without a guard:
    when the scan of the override files has left one of them out of
    [mod_dict] (it was never in the namespace, or an override file took
    it), the run stops with [KeyError] after the diagnostics of the scan. *)
Theorem run_missing_required (modules : list Module_) (wx_dict : Namespace)
    (w w1 : list string) (ov : Overrides) (name : string) :
  scan_modules (mkOverrides wx_dict ∅ []) modules w = (w1, Ok ov) ->
  name ∈ map fst overloads ++ remove ->
  name ∉ map fst (mod_dict ov) ->
  run modules wx_dict w = (w1, Raise KeyError).
Proof.
  intros Hscan Hin Hnot. unfold run, obind at 1. rewrite Hscan.
  unfold obind at 1, olift.
  pose proof (pop_overloads_spec overloads (mod_dict ov) []) as Ho.
  destruct (rfold pop_overload (mod_dict ov, []) overloads) as [st|e]; [|by subst e].
  destruct Ho as (Hsub & Hnames & _).
  unfold obind at 1.
  pose proof (pops_spec remove (fst st)) as Hr.
  destruct (rfold _ (fst st) remove) as [d|e]; [|by subst e].
  destruct Hr as [_ Hrem]. exfalso. apply Hnot.
  apply elem_of_app in Hin as [Hin|Hin]; [by apply Hnames|].
  by apply Hsub, Hrem.
Qed.

Lemma run_missing_required_witness :
  let modules := [ {| stem := "_core"; mod_body := [AnnAssign (Name "VERSION")] |} ] in
  exists w1,
    ("VERSION", VSipObject "tuple") ∈ Examples.demo_wx /\
    run modules Examples.demo_wx [] = (w1, Raise KeyError).
Proof.
  intros modules.
  destruct (scan_modules (mkOverrides Examples.demo_wx ∅ []) modules [])
    as [w1 [ov|e]] eqn:H; vm_compute in H; [|discriminate].
  exists w1. split.
  { apply list_elem_of_In. vm_compute. tauto. }
  apply (run_missing_required modules Examples.demo_wx [] w1 ov "VERSION" H).
  - apply list_elem_of_In. vm_compute. tauto.
  - injection H as _ <-. intros Hin. apply list_elem_of_In in Hin.
    vm_compute in Hin. repeat (destruct Hin as [Hin|Hin]; [discriminate|]). exact Hin.
Defined.

(** *** What the run can raise *)

Ltac perm_front :=
  rewrite ?map_app, <- ?app_assoc; cbn [map app];
  rewrite <- ?Permutation_middle, <- ?Permutation_cons_append;
  rewrite ?app_nil_r; cbn [a_name err_name ec_name];
  reflexivity.

Lemma collected_name (item : string * WxValue) (v : EnumValue) :
  collected item = Some v -> ev_name v = fst item.
Proof.
  unfold collected. destruct (skipped _ || _); [done|].
  destruct (snd item); try done. by intros [= <-].
Qed.

(** One turn of the classification adds at most the name of the entry, to
    one list, and only a name that is not skipped and is not collected as
    the value of an enumeration; a constant it adds carries [data]. *)
Lemma classify_names (b b' : Buckets) (item : string * WxValue)
    (w w' : list string) :
  classify b item w = (w', Ok b') ->
  (exists l, bucket_names b' ≡ₚ bucket_names b ++ l
             /\ (l = [] \/ (l = [fst item] /\ skipped (fst item) = false
                            /\ collected item = None))) /\
  (Forall (fun a => has_data a = true) (def_const b) ->
   Forall (fun a => has_data a = true) (def_const b')).
Proof.
  destruct item as [name obj]. unfold classify. cbn [fst].
  assert (exists l, bucket_names b ≡ₚ bucket_names b ++ l
                    /\ (l = [] \/ (l = [name] /\ skipped name = false
                                   /\ collected (name, obj) = None))) as Hsame.
  { exists []. rewrite app_nil_r. split; [done|by left]. }
  destruct (skipped name) eqn:Hsk; [intros [= _ <-]; by split|].
  assert (forall bb, collected (name, obj) = None ->
            bucket_names bb ≡ₚ bucket_names b ++ [name] ->
            exists l, bucket_names bb ≡ₚ bucket_names b ++ l
                      /\ (l = [] \/ (l = [name] /\ false = false
                                     /\ collected (name, obj) = None))) as Hadd.
  { intros bb Hcol Hbb. exists [name]. split; [done|]. by right. }
  assert (forall a, has_data a = true ->
            Forall (fun a => has_data a = true) (def_const b) ->
            Forall (fun a => has_data a = true) (def_const (add_const a b))) as Hconst.
  { intros a Ha Hall. cbn [add_const def_const]. apply Forall_app. split; [done|].
    by constructor. }
  destruct (startswith name "wxEVT") eqn:Hevt.
  { intros [= _ <-]. split; [|done]. apply Hadd.
    { unfold collected. cbn [fst snd]. by rewrite Hsk, Hevt. }
    unfold bucket_names, add_evt. cbn [def_undef def_const def_evt def_err def_enum a_name].
    perm_front. }
  assert (forall o, (forall c, o <> VEnumValue c) -> collected (name, o) = None) as Hcol.
  { intros o Ho. unfold collected. cbn [fst snd]. rewrite Hsk, Hevt. cbn [orb].
    destruct o; try done. by destruct (Ho tp_name). }
  destruct obj as [| repr | repr | tp_name | | tp_name | obj_name bases
                   | qualname dialog control window | qualname | | tp_name repr].
  - unfold obind, olift, oret. cbn [EnumClass_init forallb].
    intros [= _ <-]. split; [|done]. apply Hadd; [by apply Hcol|].
    unfold bucket_names, add_enum. cbn [def_undef def_const def_evt def_err def_enum ec_name].
    perm_front.
  - intros [= _ <-]. split; [|by apply Hconst]. apply Hadd; [by apply Hcol|].
    unfold bucket_names, add_const. cbn [def_undef def_const def_evt def_err def_enum a_name].
    perm_front.
  - intros [= _ <-]. split; [|by apply Hconst]. apply Hadd; [by apply Hcol|].
    unfold bucket_names, add_const. cbn [def_undef def_const def_evt def_err def_enum a_name].
    perm_front.
  - intros [= _ <-]. by split.
  - intros [= _ <-]. split; [|by apply Hconst]. apply Hadd; [by apply Hcol|].
    unfold bucket_names, add_const. cbn [def_undef def_const def_evt def_err def_enum a_name].
    perm_front.
  - intros [= _ <-]. split; [|by apply Hconst]. apply Hadd; [by apply Hcol|].
    unfold bucket_names, add_const. cbn [def_undef def_const def_evt def_err def_enum a_name].
    perm_front.
  - destruct (String.eqb name obj_name); intros [= _ <-]; (split; [|done]);
      (apply Hadd; [by apply Hcol|]);
      unfold bucket_names, add_err;
      cbn [def_undef def_const def_evt def_err def_enum err_name]; perm_front.
  - destruct (contains _ qualname); intros [= _ <-]; [by split|].
    split; [|done]. apply Hadd; [by apply Hcol|].
    unfold bucket_names, add_undef. cbn [def_undef def_const def_evt def_err def_enum a_name].
    perm_front.
  - destruct (contains _ qualname); intros [= _ <-]; [by split|].
    split; [|done]. apply Hadd; [by apply Hcol|].
    unfold bucket_names, add_undef. cbn [def_undef def_const def_evt def_err def_enum a_name].
    perm_front.
  - intros [= _ <-]. by split.
  - unfold obind, print, oret. intros [= _ <-]. by split.
Qed.

(** The names the classification adds to the lists and the names of the
    values it collects are different keys of the dictionary. *)
Lemma classify_all_names (items : Namespace) (b b' : Buckets) (w w' : list string) :
  classify_all b items w = (w', Ok b') ->
  (exists l rest,
     bucket_names b' ≡ₚ bucket_names b ++ l
     /\ map fst items ≡ₚ l ++ map ev_name (omap collected items) ++ rest
     /\ Forall (fun n => skipped n = false) l) /\
  (Forall (fun a => has_data a = true) (def_const b) ->
   Forall (fun a => has_data a = true) (def_const b')).
Proof.
  revert b w. induction items as [|item items IH]; intros b w; cbn [classify_all].
  - intros [= _ <-]. split; [|done]. exists [], []. rewrite app_nil_r.
    split; [done|]. split; [done|constructor].
  - unfold obind. destruct (classify b item w) as [w1 [b1|e]] eqn:H1; [|done].
    intros H2. destruct (classify_names _ _ _ _ _ H1) as [(l1 & Hp1 & Hl1) Hd1].
    destruct (IH _ _ H2) as [(l2 & rest & Hp2 & Hkeys & Hsk) Hd2].
    split; [|auto]. cbn [map omap].
    destruct Hl1 as [->|(-> & Hs & Hcol)]; cbn [app] in *.
    + destruct (collected item) as [v|] eqn:Hcol;
        cbn [omap list_omap]; rewrite Hcol; cbn [map].
      * exists l2, rest. split; [by rewrite Hp2, Hp1, app_nil_r|]. split; [|done].
        rewrite (collected_name _ _ Hcol), Hkeys. cbn [app].
        apply Permutation_middle.
      * exists l2, (fst item :: rest).
        split; [by rewrite Hp2, Hp1, app_nil_r|]. split; [|done].
        rewrite Hkeys. etrans; [apply Permutation_middle|].
        apply Permutation_app_head, Permutation_middle.
    + cbn [omap list_omap]. rewrite Hcol. exists (fst item :: l2), rest.
      split; [by rewrite Hp2, Hp1, <- app_assoc|]. split; [|by constructor].
      cbn [app]. by rewrite Hkeys.
Qed.

(** From the scan of the override files to the sorting of the lists, the
    script raises nothing but [IndexError], [AssertionError] and
    [AttributeError], which come from the scan of the override files alone,
    and [KeyError]. Once the scan has returned nothing but [KeyError] is
    left (a name of [overloads] or [remove] that is missing, or an
    enumeration without values): [EnumClass] never rejects what the script
    gives it, and the sort of the constants by [data] never meets an
    annotation without it. *)
Theorem run_raises_only (modules : list Module_) (wx_dict : Namespace) :
  NoDup (map fst wx_dict) ->
  raises_only (fun e => e = IndexError \/ e = AssertionError \/ e = AttributeError
                        \/ e = KeyError)
    (run modules wx_dict) /\
  forall w w1 ov w' e,
    scan_modules (mkOverrides wx_dict ∅ []) modules w = (w1, Ok ov) ->
    run modules wx_dict w = (w', Raise e) -> e = KeyError.
Proof.
  intros Hnd.
  assert (forall w w1 ov w' e,
            scan_modules (mkOverrides wx_dict ∅ []) modules w = (w1, Ok ov) ->
            run modules wx_dict w = (w', Raise e) -> e = KeyError) as Hrest.
  { intros w w1 ov w' e H1. unfold run, obind at 1. rewrite H1.
    unfold obind at 1, olift.
    pose proof (pop_overloads_spec overloads (mod_dict ov) []) as Ho.
    destruct (rfold pop_overload _ overloads) as [st|e2];
      [|intros [= _ <-]; by subst e2].
    destruct Ho as (_ & _ & Hcs). unfold obind at 1.
    pose proof (pops_spec remove (fst st)) as Hr.
    destruct (rfold _ (fst st) remove) as [d|e3]; [|intros [= _ <-]; by subst e3].
    unfold obind at 1.
    destruct (classify_all _ d w1) as [w2 [b|e4]] eqn:H4.
    - destruct (classify_all_names _ _ _ _ _ H4) as [_ Hdata].
      unfold obind at 1.
      destruct (partition_enums_only_KeyError (def_enum b) (def_val b)) as [->|[r ->]];
        [by intros [= _ <-]|].
      destruct (sort_const_sorted (def_const b)) as (consts & -> & _).
      { apply Hdata. cbn [def_const]. rewrite Hcs. cbn [app].
        apply Forall_forall. intros a Ha. apply list_elem_of_In, in_map_iff in Ha
          as (o & <- & _). done. }
      done.
    - destruct (classify_all_effect d (mkBuckets [] (snd st) [] [] [] ∅) w1)
        as (out & b & Hb & _). rewrite Hb in H4. done. }
  split; [|exact Hrest].
  intros w w' e Hrun.
  destruct (scan_modules (mkOverrides wx_dict ∅ []) modules w) as [w1 [ov|e1]] eqn:H1.
  - rewrite (Hrest w w1 ov w' e H1 Hrun). auto.
  - revert Hrun. unfold run, obind at 1. rewrite H1. intros [= _ <-].
    pose proof (scan_modules_step wx_dict modules (mkOverrides wx_dict ∅ []) w w1
                  (Raise e1) (consistent_start wx_dict Hnd)
                  (fun k Hk => Hk)
                  (fun n Hn => False_ind _ (not_elem_of_empty (C:=gset string) n Hn)) H1)
      as [->|[->| ->]]; auto.
Qed.

Lemma run_raises_only_witness :
  NoDup (map fst Examples.demo_wx_enum) /\
  raises_only (fun e => e = IndexError \/ e = AssertionError \/ e = AttributeError
                        \/ e = KeyError)
    (run Examples.demo_overrides Examples.demo_wx_enum) /\
  forall w w1 ov w' e,
    scan_modules (mkOverrides Examples.demo_wx_enum ∅ []) Examples.demo_overrides w
    = (w1, Ok ov) ->
    run Examples.demo_overrides Examples.demo_wx_enum w = (w', Raise e) -> e = KeyError.
Proof.
  assert (NoDup (map fst Examples.demo_wx_enum)) as Hnd.
  { apply (bool_decide_unpack _). vm_compute. exact I. }
  split; [exact Hnd|].
  exact (run_raises_only Examples.demo_overrides Examples.demo_wx_enum Hnd).
Defined.

(** *** What the run hands to the template *)

Lemma EnumClass_str_returns (e : EnumClass) (vals : list EnumValue) :
  ec_values e = Some vals ->
  Forall (fun v => ev_cls v = ec_name e) vals ->
  exists s, EnumClass_str e = Ok s.
Proof.
  intros Hv Hall. unfold EnumClass_str. rewrite Hv.
  rewrite (rmap_ok _ (fun v => "    " +:+ ev_name v +:+ " = ...")); [by eexists|].
  intros v Hin. rewrite Forall_forall in Hall.
  by rewrite (Hall v Hin), String.eqb_refl.
Qed.

(** When the run reaches the end, filling the template raises nothing:
    every enumeration class has been given its values, and each of them
    names that class, so no [EnumClass.__str__] fails. *)
Theorem run_then_render (modules : list Module_) (wx_dict : Namespace)
    (w w' : list string) (f : Final) :
  run modules wx_dict w = (w', Ok f) ->
  exists s, render f = Ok s.
Proof.
  intros Hrun.
  destruct (run_stages _ _ _ _ _ Hrun) as (w1 & ov & st & d & b & [es left]
                                           & _ & _ & _ & Hcl & Hpart & _ & Hf).
  destruct (classify_all_effect d (mkBuckets [] (snd st) [] [] [] ∅) w1)
    as (out & b0 & Hb & _ & Hvals).
  rewrite Hb in Hcl. injection Hcl as _ <-.
  destruct (partition_enums_returns _ _ _ _ Hpart) as [Hall _].
  assert (Forall (fun e => exists s, EnumClass_str e = Ok s) es) as Hes.
  { clear -Hall Hvals. induction Hall as [|enum e enums es (Hn & [vals Hsome] & Hv) _ IH];
      constructor; [|done].
    rewrite Hsome in Hv. apply (EnumClass_str_returns e vals Hv).
    rewrite Hvals in Hsome. cbn [def_val] in Hsome. rewrite lookup_empty, grown_None in Hsome.
    assert (vals = values_of (ec_name enum) d) as ->.
    { destruct (values_of (ec_name enum) d); [done|]. by injection Hsome. }
    rewrite Hn. unfold values_of. apply Forall_forall. intros v Hin.
    by apply list_elem_of_filter in Hin as [? _]. }
  unfold render. rewrite Hf. cbn [f_enum fst].
  assert (forall l : list EnumClass,
            Forall (fun e => exists s, EnumClass_str e = Ok s) l ->
            exists ys, rmap EnumClass_str l = Ok ys) as Hrmap.
  { clear. induction 1 as [|e l [s Hs] _ [ys IH]]; cbn [rmap]; [by eexists|].
    rewrite Hs, IH. by eexists. }
  destruct (Hrmap (sort_by ec_name String.leb es)) as [ys ->]; [|by eexists].
  by rewrite sort_by_perm.
Qed.

Lemma run_then_render_witness :
  exists w' f s,
    run Examples.demo_overrides Examples.demo_wx_enum [] = (w', Ok f) /\
    render f = Ok s.
Proof.
  destruct (run Examples.demo_overrides Examples.demo_wx_enum [])
    as [w' [f|e]] eqn:H; vm_compute in H; [|discriminate].
  destruct (run_then_render Examples.demo_overrides Examples.demo_wx_enum [] w' f H)
    as [s Hs].
  by exists w', f, s.
Defined.

(** *** The names the aggregate stub declares *)

Lemma dict_discard_keys (name : string) (d : Namespace) :
  NoDup (map fst d) ->
  NoDup (map fst (dict_discard name d)) /\ (name ∉ map fst (dict_discard name d)) /\
  (forall k, k ∈ map fst (dict_discard name d) -> k ∈ map fst d).
Proof.
  intros Hnd. unfold dict_discard. destruct (dict_pop name d) as [d'|e] eqn:Hpop.
  - by apply dict_pop_keys.
  - split; [done|]. split; [|done]. intros Hin. clear Hnd. revert e Hpop.
    induction d as [|[k v] d IH]; intros e; [by apply elem_of_nil in Hin|].
    cbn [dict_pop]. destruct (String.eqb_spec name k) as [->|Hne]; [done|].
    cbn [map fst] in Hin. apply elem_of_cons in Hin as [->|Hin]; [done|].
    destruct (dict_pop name d) as [d0|e0]; [done|]. intros _. by eapply IH.
Qed.

(** One turn of the loop over the nodes only takes keys out of the
    dictionary, and a name it adds to the imports is no longer a key. *)
Lemma scan_node_taken (modstem : string) (st st' : FileScan) (node : Node)
    (w w' : list string) :
  NoDup (map fst (fs_dict st)) ->
  scan_node modstem st node w = (w', Ok st') ->
  NoDup (map fst (fs_dict st')) /\
  (forall k, k ∈ map fst (fs_dict st') -> k ∈ map fst (fs_dict st)) /\
  exists l, fs_i st' = fs_i st ++ l
            /\ forall n, n ∈ map imp_name l -> n ∉ map fst (fs_dict st').
Proof.
  intros Hnd.
  assert (NoDup (map fst (fs_dict st)) /\
          (forall k, k ∈ map fst (fs_dict st) -> k ∈ map fst (fs_dict st)) /\
          exists l, fs_i st = fs_i st ++ l
                    /\ forall n, n ∈ map imp_name l -> n ∉ map fst (fs_dict st)) as Hsame.
  { split; [done|]. split; [done|]. exists []. rewrite app_nil_r. split; [done|].
    by intros n ?%elem_of_nil. }
  assert (forall name d stubed last,
            d = dict_discard name (fs_dict st) ->
            NoDup (map fst d) /\
            (forall k, k ∈ map fst d -> k ∈ map fst (fs_dict st)) /\
            exists l, fs_i (mkFileScan d stubed (add_import modstem name (fs_i st)) last)
                      = fs_i st ++ l
                      /\ forall n, n ∈ map imp_name l -> n ∉ map fst d) as Htaken.
  { intros name d stubed last ->.
    destruct (dict_discard_keys name (fs_dict st) Hnd) as (H1 & H2 & H3).
    split; [done|]. split; [done|]. eexists. split; [reflexivity|].
    cbn [map imp_name]. by intros n ->%list_elem_of_singleton. }
  assert (forall name d, dict_pop name (fs_dict st) = Ok d ->
            d = dict_discard name (fs_dict st)) as Hok.
  { intros name d Hpop. unfold dict_discard. by rewrite Hpop. }
  assert (forall name e, dict_pop name (fs_dict st) = Raise e ->
            fs_dict st = dict_discard name (fs_dict st)) as Hraise.
  { intros name e Hpop. unfold dict_discard. by rewrite Hpop. }
  destruct node as [name body|f|target|]; cbn [scan_node].
  - unfold obind at 1, olift. destruct (public name) as [[|]|e] eqn:Hpub; [| |done].
    + destruct (check_has_anotations_result name body modstem w) as [checks Hch].
      unfold obind at 1. rewrite Hch. destruct (plain_body body); [|done].
      destruct (dict_pop name (fs_dict st)) as [d|] eqn:Hpop.
      * intros [= _ <-]. cbn [fs_dict]. by eapply Htaken, Hok.
      * unfold obind, print, oret. destruct (bool_decide _); intros [= _ <-];
          cbn [fs_dict]; by eapply Htaken, Hraise.
    + by intros [= _ <-].
  - unfold obind at 1, olift. destruct (public (fd_name f)) as [[|]|e] eqn:Hpub;
      [| |done].
    + unfold obind at 1.
      assert (forall last w0,
                match dict_pop (fd_name f) (fs_dict st) with
                | Raise _ =>
                    print ("Error: function " +:+ modstem +:+ "." +:+ fd_name f
                             +:+ " does not corespond to an object in the wx namespace"
                             +:+ newline) ;;;
                    oret (mkFileScan (fs_dict st) (fs_stubed st)
                            (add_import modstem (fd_name f) (fs_i st)) last)
                | Ok d => oret (mkFileScan d (fs_stubed st)
                                  (add_import modstem (fd_name f) (fs_i st)) last)
                end w0 = (w', Ok st') ->
                NoDup (map fst (fs_dict st')) /\
                (forall k, k ∈ map fst (fs_dict st') -> k ∈ map fst (fs_dict st)) /\
                exists l, fs_i st' = fs_i st ++ l
                          /\ forall n, n ∈ map imp_name l -> n ∉ map fst (fs_dict st'))
        as Himport.
      { intros last w0. destruct (dict_pop (fd_name f) (fs_dict st)) as [d|] eqn:Hpop.
        - intros [= _ <-]. cbn [fs_dict]. by eapply Htaken, Hok.
        - unfold obind, print, oret. intros [= _ <-]. cbn [fs_dict].
          by eapply Htaken, Hraise. }
      destruct (decorator_list f) as [|d0 ds].
      * unfold oret at 1. apply Himport.
      * unfold obind at 1, olift. destruct d0 as [id|]; cbn [expr_id]; [|done].
        destruct (String.eqb id "overload").
        -- destruct (String.eqb (last_overload st) (fd_name f)).
           ++ unfold oret. by intros [= _ <-].
           ++ unfold oret at 1. apply Himport.
        -- unfold oraise. by intros [= _ _].
    + by intros [= _ <-].
  - unfold obind at 1, olift. destruct target as [name|]; cbn [expr_id]; [|done].
    unfold obind at 1. destruct (public name) as [[|]|e] eqn:Hpub; [| |done].
    + intros [= _ <-]. cbn [fs_dict]. by eapply Htaken.
    + by intros [= _ <-].
  - by intros [= _ <-].
Qed.

Lemma scan_nodes_taken (modstem : string) (nodes : list Node) (st st' : FileScan)
    (w w' : list string) :
  NoDup (map fst (fs_dict st)) ->
  scan_nodes modstem st nodes w = (w', Ok st') ->
  NoDup (map fst (fs_dict st')) /\
  (forall k, k ∈ map fst (fs_dict st') -> k ∈ map fst (fs_dict st)) /\
  exists l, fs_i st' = fs_i st ++ l
            /\ forall n, n ∈ map imp_name l -> n ∉ map fst (fs_dict st').
Proof.
  revert st w. induction nodes as [|node nodes IH]; intros st w Hnd;
    cbn [scan_nodes].
  - intros [= _ <-]. split; [done|]. split; [done|]. exists []. rewrite app_nil_r.
    split; [done|]. by intros n ?%elem_of_nil.
  - unfold obind. destruct (scan_node modstem st node w) as [w1 [st1|e]] eqn:H1; [|done].
    intros H2. destruct (scan_node_taken _ _ _ _ _ _ Hnd H1) as (Hnd1 & Hs1 & l1 & Hl1 & Hn1).
    destruct (IH _ _ Hnd1 H2) as (Hnd2 & Hs2 & l2 & Hl2 & Hn2).
    split; [done|]. split; [auto|]. exists (l1 ++ l2).
    split; [by rewrite Hl2, Hl1, app_assoc|].
    intros n Hn. rewrite map_app in Hn. apply elem_of_app in Hn as [Hn|Hn]; [|auto].
    intros Hin. by apply (Hn1 n Hn), Hs2.
Qed.

Lemma scan_modules_taken (modules : list Module_) (ov ov' : Overrides)
    (w w' : list string) :
  NoDup (map fst (mod_dict ov)) ->
  scan_modules ov modules w = (w', Ok ov') ->
  NoDup (map fst (mod_dict ov')) /\
  (forall k, k ∈ map fst (mod_dict ov') -> k ∈ map fst (mod_dict ov)) /\
  exists gs, def_import ov' = def_import ov ++ gs
             /\ forall n, n ∈ imported gs -> n ∉ map fst (mod_dict ov').
Proof.
  revert ov w. induction modules as [|m modules IH]; intros ov w Hnd;
    cbn [scan_modules].
  - intros [= _ <-]. split; [done|]. split; [done|]. exists []. rewrite app_nil_r.
    split; [done|]. by intros n ?%elem_of_nil.
  - unfold obind at 1. destruct (scan_module ov m w) as [w1 [ov1|e]] eqn:H1; [|done].
    intros H2.
    assert (NoDup (map fst (mod_dict ov1)) /\
            (forall k, k ∈ map fst (mod_dict ov1) -> k ∈ map fst (mod_dict ov)) /\
            exists gs, def_import ov1 = def_import ov ++ gs
                       /\ forall n, n ∈ imported gs -> n ∉ map fst (mod_dict ov1))
      as (Hnd1 & Hs1 & gs1 & Hg1 & Hn1).
    { revert H1. unfold scan_module, obind at 1.
      destruct (scan_nodes (stem m) _ (mod_body m) w) as [w0 [st|e]] eqn:Hscan; [|done].
      destruct (scan_nodes_taken (stem m) (mod_body m)
                  (mkFileScan (mod_dict ov) (classes_stubed ov) [] EmptyString)
                  st w w0 Hnd Hscan) as (Hnd0 & Hs0 & l & Hl & Hn0).
      cbn [fs_dict fs_i app] in *.
      destruct (fs_i st) as [|imp0 rest] eqn:Hfi.
      - unfold obind, print, oret. intros [= _ <-].
        cbn [mod_dict def_import]. split; [done|]. split; [done|].
        exists []. rewrite app_nil_r. split; [done|]. by intros n ?%elem_of_nil.
      - unfold ImportGroup_init.
        destruct (forallb _ (imp0 :: rest)); unfold obind, olift, oret; [|done].
        intros [= _ <-]. cbn [mod_dict def_import]. split; [done|]. split; [done|].
        eexists. split; [reflexivity|]. unfold imported. cbn [flat_map ig_imports].
        rewrite app_nil_r, Hl. exact Hn0. }
    destruct (IH _ _ Hnd1 H2) as (Hnd2 & Hs2 & gs2 & Hg2 & Hn2).
    split; [done|]. split; [auto|]. exists (gs1 ++ gs2).
    split; [by rewrite Hg2, Hg1, app_assoc|].
    intros n Hn. unfold imported in Hn. rewrite flat_map_app in Hn.
    apply elem_of_app in Hn as [Hn|Hn]; [|by apply Hn2].
    intros Hin. by apply (Hn1 n Hn), Hs2.
Qed.

Lemma pops_keys (names : list string) (d d' : Namespace) :
  NoDup (map fst d) ->
  rfold (fun d name => dict_pop name d) d names = Ok d' ->
  NoDup (map fst d') /\ (forall k, k ∈ map fst d' -> k ∈ map fst d) /\
  forall n, n ∈ names -> n ∉ map fst d'.
Proof.
  revert d. induction names as [|n names IH]; intros d Hnd; cbn [rfold].
  - intros [= <-]. split; [done|]. split; [done|]. by intros n ?%elem_of_nil.
  - destruct (dict_pop n d) as [d1|e] eqn:H1; [|done]. intros H2.
    destruct (dict_pop_keys _ _ _ Hnd H1) as (Hnd1 & Hn1 & Hs1).
    destruct (IH _ Hnd1 H2) as (Hnd2 & Hs2 & Hn2).
    split; [done|]. split; [auto|].
    intros m [->|Hm]%elem_of_cons; [|auto]. intros Hin. by apply Hn1, Hs2.
Qed.

Lemma pop_overloads_keys (l : list (string * string)) (d : Namespace)
    (cs : list Anotation) (st : Namespace * list Anotation) :
  NoDup (map fst d) ->
  rfold pop_overload (d, cs) l = Ok st ->
  NoDup (map fst (fst st)) /\ (forall k, k ∈ map fst (fst st) -> k ∈ map fst d) /\
  (forall n, n ∈ map fst l -> n ∈ map fst d /\ n ∉ map fst (fst st)) /\
  map a_name (snd st) = map a_name cs ++ map fst l.
Proof.
  revert d cs. induction l as [|o l IH]; intros d cs Hnd; cbn [rfold].
  - intros [= <-]. cbn [fst snd map]. rewrite app_nil_r. split; [done|]. split; [done|].
    split; [|done]. by intros n ?%elem_of_nil.
  - replace (pop_overload (d, cs) o)
      with (match dict_pop (fst o) d with
            | Ok d1 => Ok (d1, cs ++ [mkAnotation (fst o) (snd o) EmptyString
                                        (Some 3%Z)])
            | Raise e => Raise e
            end) by (unfold pop_overload; cbn [fst snd]; by destruct (dict_pop _ d)).
    destruct (dict_pop (fst o) d) as [d1|e] eqn:H1; [|done]. intros H2.
    destruct (dict_pop_keys _ _ _ Hnd H1) as (Hnd1 & Hn1 & Hs1).
    destruct (IH _ _ Hnd1 H2) as (Hnd2 & Hs2 & Hn2 & Hcs).
    split; [done|]. split; [auto|]. split.
    + cbn [map]. intros m [->|Hm]%elem_of_cons.
      * split; [by eapply dict_pop_key|]. intros Hin. by apply Hn1, Hs2.
      * destruct (Hn2 m Hm). split; auto.
    + rewrite Hcs, map_app. cbn [map a_name]. by rewrite <- app_assoc.
Qed.

(** *** The names the aggregate stub declares *)

Lemma NoDup_map_inj {A B : Type} (g : A -> B) (l : list A) (x y : A) :
  NoDup (map g l) -> x ∈ l -> y ∈ l -> g x = g y -> x = y.
Proof.
  induction l as [|a l IH]; cbn [map]; [by intros _ ?%elem_of_nil|].
  intros [Hnot Hnd]%NoDup_cons [->|Hx]%elem_of_cons [->|Hy]%elem_of_cons Heq;
    [done| | |by apply IH].
  - exfalso. apply Hnot. rewrite Heq. apply list_elem_of_In, in_map.
    by apply list_elem_of_In.
  - exfalso. apply Hnot. rewrite <- Heq. apply list_elem_of_In, in_map.
    by apply list_elem_of_In.
Qed.

Lemma collected_not_skipped (items : Namespace) (v : EnumValue) :
  v ∈ omap collected items -> skipped (ev_name v) = false.
Proof.
  intros (item & _ & Hcol)%list_elem_of_omap.
  rewrite (collected_name _ _ Hcol). revert Hcol. unfold collected.
  by destruct (skipped (fst item)).
Qed.

(** The values of the enumerations of a list of different classes, class by
    class, are a part of all the values. *)
Lemma owned_values_cons (v : EnumValue) (V : list EnumValue) (clss : list string) :
  NoDup clss ->
  flat_map (fun c => filter (fun u => ev_cls u = c) (v :: V)) clss
  ≡ₚ (if bool_decide (ev_cls v ∈ clss) then [v] else [])
     ++ flat_map (fun c => filter (fun u => ev_cls u = c) V) clss.
Proof.
  induction clss as [|c cs IH]; [done|]. intros [Hc Hnd]%NoDup_cons.
  cbn [flat_map]. rewrite filter_cons, (IH Hnd).
  destruct (decide (ev_cls v = c)) as [<-|Hne].
  - rewrite (bool_decide_eq_true_2 (ev_cls v ∈ ev_cls v :: cs)) by left.
    by rewrite (bool_decide_eq_false_2 _ Hc).
  - destruct (decide (ev_cls v ∈ cs)) as [Hin|Hnot].
    + rewrite (bool_decide_eq_true_2 _ Hin).
      rewrite (bool_decide_eq_true_2 (ev_cls v ∈ c :: cs)) by (by right).
      cbn [app]. symmetry. apply Permutation_middle.
    + rewrite (bool_decide_eq_false_2 _ Hnot).
      rewrite (bool_decide_eq_false_2 (ev_cls v ∈ c :: cs)); [done|].
      by intros [?|?]%elem_of_cons.
Qed.

Lemma owned_values_split (V : list EnumValue) (clss : list string) :
  NoDup clss ->
  exists extra,
    V ≡ₚ flat_map (fun c => filter (fun u => ev_cls u = c) V) clss ++ extra.
Proof.
  intros Hnd. induction V as [|v V [extra IH]].
  - exists []. clear. induction clss as [|c cs IH]; [done|]. cbn [flat_map].
    by rewrite filter_nil.
  - destruct (bool_decide (ev_cls v ∈ clss)) eqn:Hv.
    + exists extra. rewrite (owned_values_cons v V clss Hnd), Hv. cbn [app].
      by constructor.
    + exists (v :: extra). rewrite (owned_values_cons v V clss Hnd), Hv. cbn [app].
      rewrite <- Permutation_middle. by constructor.
Qed.

(** What a run that returned has gone through, on a namespace without a
    repeated key. [d] is the dictionary the classification goes over, [l]
    the names it has added to the lists, [picked] the values the
    enumerations have taken and [extra] the values left in [def_val]. *)
Lemma run_inv (modules : list Module_) (wx_dict : Namespace)
    (w w' : list string) (f : Final) :
  NoDup (map fst wx_dict) ->
  run modules wx_dict w = (w', Ok f) ->
  exists w1 ov consts d b es l rest picked extra,
    scan_modules (mkOverrides wx_dict ∅ []) modules w = (w1, Ok ov) /\
    f_import f = def_import ov /\ f_stubed f = classes_stubed ov /\
    NoDup (map fst d) /\
    (forall k, k ∈ map fst d ->
       k ∈ map fst wx_dict /\ (k ∉ imported (def_import ov)) /\
       (k ∉ classes_stubed ov) /\ (k ∉ map fst overloads) /\ (k ∉ remove)) /\
    (forall n, n ∈ map fst overloads ->
       n ∈ map fst wx_dict /\ (n ∉ imported (def_import ov)) /\
       (n ∉ classes_stubed ov)) /\
    classify_all (mkBuckets [] consts [] [] [] ∅) d w1 = (w', Ok b) /\
    partition_enums (def_enum b) (def_val b) = Ok (es, f_val f) /\
    map ec_name (f_enum f) ≡ₚ map ec_name es /\
    (forall cls, f_val f !! cls
                 = if bool_decide (cls ∈ map ec_name es) then None
                   else match values_of cls d with [] => None | vs => Some vs end) /\
    final_names f ≡ₚ map fst overloads ++ l /\
    map fst d ≡ₚ l ++ map ev_name (omap collected d) ++ rest /\
    Forall (fun n => skipped n = false) l /\
    enum_value_names f ≡ₚ map ev_name picked /\
    omap collected d ≡ₚ picked ++ extra /\
    (forall v, v ∈ picked -> ev_cls v ∈ map ec_name es).
Proof.
  intros Hnd Hrun.
  destruct (run_stages _ _ _ _ _ Hrun) as (w1 & ov & st & d & b & [es left]
                                           & Hscan & Hov & Hrem & Hcl & Hpart & Hsort & Hf).
  pose proof (scan_modules_step wx_dict modules (mkOverrides wx_dict ∅ []) w w1 (Ok ov)
                (consistent_start wx_dict Hnd)
                (fun k Hk => Hk)
                (fun n Hn => False_ind _ (not_elem_of_empty (C:=gset string) n Hn)) Hscan)
    as ([_ Hgone] & Hk & _).
  destruct (scan_modules_taken modules (mkOverrides wx_dict ∅ []) ov w w1 Hnd Hscan)
    as (Hnd0 & _ & gs & Hgs & Himp).
  cbn [def_import app] in Hgs. rewrite <- Hgs in Himp.
  destruct (pop_overloads_keys _ _ _ _ Hnd0 Hov) as (Hnd1 & Hs1 & Hn1 & Hcs).
  destruct (pops_keys _ _ _ Hnd1 Hrem) as (Hnd2 & Hs2 & Hn2).
  destruct (classify_all_names _ _ _ _ _ Hcl) as [(l & rest & Hperm & Hkeys & Hsk) _].
  destruct (classify_all_effect d (mkBuckets [] (snd st) [] [] [] ∅) w1)
    as (out & b0 & Hb & Henum & Hvals).
  rewrite Hb in Hcl. injection Hcl as Hw <-. rewrite Hw in Hb.
  cbn [def_enum def_val app] in Henum, Hvals.
  assert (forall cls, def_val b0 !! cls
                      = match values_of cls d with [] => None | vs => Some vs end)
    as Hlook.
  { intros cls. rewrite Hvals, lookup_empty, grown_None.
    by destruct (values_of cls d). }
  destruct (partition_enums_returns _ _ _ _ Hpart) as [Hall Hleft].
  assert (map ec_name es = omap declared d) as Hnames.
  { transitivity (map ec_name (def_enum b0)).
    - clear -Hall. induction Hall as [|enum e enums es0 [Hn _] _ IH]; [done|].
      cbn [map]. by rewrite Hn, IH.
    - rewrite Henum, map_map. cbn [ec_name]. apply map_id. }
  assert (Forall (fun e => default [] (ec_values e) = values_of (ec_name e) d) es)
    as Hvs.
  { clear -Hall Hlook. induction Hall as [|enum e enums es0 (Hn & _ & Hv) _ IH];
      constructor; [|done].
    rewrite Hv, Hn, Hlook. by destruct (values_of (ec_name enum) d). }
  destruct (sort_const_returned _ _ Hsort) as [Hconsts _].
  set (picked := flat_map (fun c => values_of c d) (map ec_name es)).
  destruct (owned_values_split (omap collected d) (map ec_name es)) as [extra Hextra].
  { rewrite Hnames. by apply declared_names_NoDup. }
  exists w1, ov, (snd st), d, b0, es, l, rest, picked, extra.
  split; [done|]. rewrite Hf. cbn [f_import f_stubed f_val f_enum snd fst].
  split; [done|]. split; [done|]. split; [done|]. split.
  { intros k Hkd. pose proof (Hs1 _ (Hs2 _ Hkd)) as Hk0.
    split; [by apply Hk|]. split; [intros Hin; by apply (Himp k Hin)|].
    split; [intros Hin; by apply (Hgone k Hin)|].
    split; [intros Hin; by apply (proj2 (Hn1 k Hin)), Hs2|].
    intros Hin. by apply (Hn2 k Hin). }
  split.
  { intros n Hn. destruct (Hn1 n Hn) as [Hk0 _].
    split; [by apply Hk|]. split; [intros Hin; by apply (Himp n Hin)|].
    intros Hin. by apply (Hgone n Hin). }
  split; [done|]. split; [done|].
  split; [by rewrite sort_by_perm|].
  split; [intros cls; by rewrite Hleft, Hlook, (Forall2_names _ _ _ Hall)|].
  split.
  { rewrite <- (app_nil_l (map fst overloads)).
    change [] with (map a_name (@nil Anotation)). rewrite <- Hcs.
    transitivity (bucket_names b0).
    - unfold final_names, bucket_names, sort_err.
      cbn [f_undef f_const f_evt f_err f_enum fst].
      rewrite Hconsts, !sort_by_perm.
      assert (map ec_name es = map ec_name (def_enum b0)) as -> by (by rewrite Hnames, Henum, map_map, map_id).
      done.
    - rewrite Hperm. unfold bucket_names at 1.
      cbn [def_undef def_const def_evt def_err def_enum map app].
      by rewrite app_nil_r. }
  split; [done|]. split; [done|].
  split.
  { unfold enum_value_names. cbn [f_enum]. rewrite sort_by_perm. unfold picked.
    clear -Hvs. induction Hvs as [|e es0 He _ IH]; [done|].
    cbn [flat_map map]. by rewrite List.map_app, He, IH. }
  split; [exact Hextra|].
  intros v Hin. apply list_elem_of_In, in_flat_map in Hin as (c & Hc & Hv).
  apply list_elem_of_In in Hc, Hv. unfold values_of in Hv.
  by apply list_elem_of_filter in Hv as [-> _].
Qed.

(** The sections the script fills by itself declare no name twice. When
    the run returns on a namespace without a repeated key, the names of the
    five declaration lists and the names of the values of the enumerations
    are pairwise different; each is a key of the namespace that is not
    private, a test or an iterator, is not in [remove], is imported from no
    override module and is no stubbed class. (The imports themselves can
    repeat: a class declared in two override files is imported twice.) *)
Theorem run_declares_once (modules : list Module_) (wx_dict : Namespace)
    (w w' : list string) (f : Final) :
  NoDup (map fst wx_dict) ->
  run modules wx_dict w = (w', Ok f) ->
  NoDup (final_names f ++ enum_value_names f) /\
  forall n, n ∈ final_names f ++ enum_value_names f ->
    n ∈ map fst wx_dict /\ skipped n = false /\ (n ∉ remove) /\
    (n ∉ imported (f_import f)) /\ (n ∉ f_stubed f).
Proof.
  intros Hnd Hrun.
  destruct (run_inv _ _ _ _ _ Hnd Hrun)
    as (w1 & ov & consts & d & b & es & l & rest & picked & extra
        & _ & -> & -> & Hndd & Hd & Hover & _ & _ & _ & _ & Hfinal & Hkeys & Hsk
        & Hevn & Hsplit & _).
  assert (Forall (fun n => skipped n = false /\ (n ∉ remove)) (map fst overloads))
    as Hconst.
  { apply (bool_decide_unpack _). vm_compute. exact I. }
  assert (map fst d ≡ₚ (l ++ map ev_name picked) ++ (map ev_name extra ++ rest))
    as Hkeys'.
  { rewrite Hkeys, Hsplit, List.map_app, <- !app_assoc. done. }
  assert (forall n, n ∈ l ++ map ev_name picked -> n ∈ map fst d) as Hin_d.
  { intros n Hn. rewrite Hkeys'. apply elem_of_app. by left. }
  assert (final_names f ++ enum_value_names f
          ≡ₚ map fst overloads ++ (l ++ map ev_name picked)) as Hall.
  { by rewrite Hfinal, Hevn, <- app_assoc. }
  split.
  - rewrite Hall. apply NoDup_app. split; [|split].
    + apply (bool_decide_unpack _). vm_compute. exact I.
    + intros n Hn Hin. by destruct (Hd n (Hin_d n Hin)) as (_ & _ & _ & Hno & _).
    + rewrite Hkeys' in Hndd. by apply NoDup_app in Hndd as [? _].
  - intros n Hn. rewrite Hall in Hn. apply elem_of_app in Hn as [Hn|Hn].
    + rewrite Forall_forall in Hconst. destruct (Hconst n Hn) as [Hs Hr].
      destruct (Hover n Hn) as (H1 & H2 & H3). done.
    + destruct (Hd n (Hin_d n Hn)) as (H1 & H2 & H3 & _ & H5).
      split; [done|]. split; [|done].
      apply elem_of_app in Hn as [Hn|Hn].
      * rewrite Forall_forall in Hsk. by apply Hsk.
      * apply list_elem_of_In, in_map_iff in Hn as (v & <- & Hv).
        apply (collected_not_skipped d). rewrite Hsplit. apply elem_of_app. left.
        by apply list_elem_of_In.
Qed.

Lemma run_declares_once_witness :
  exists w' f,
    NoDup (map fst Examples.demo_wx_enum) /\
    run Examples.demo_overrides Examples.demo_wx_enum [] = (w', Ok f) /\
    enum_value_names f = ["LEFT"; "RIGHT"] /\
    NoDup (final_names f ++ enum_value_names f) /\
    forall n, n ∈ final_names f ++ enum_value_names f ->
      n ∈ map fst Examples.demo_wx_enum /\ skipped n = false /\ (n ∉ remove) /\
      (n ∉ imported (f_import f)) /\ (n ∉ f_stubed f).
Proof.
  assert (NoDup (map fst Examples.demo_wx_enum)) as Hnd.
  { apply (bool_decide_unpack _). vm_compute. exact I. }
  destruct (run Examples.demo_overrides Examples.demo_wx_enum [])
    as [w' [f|e]] eqn:H; vm_compute in H; [|discriminate].
  exists w', f. split; [exact Hnd|]. split; [reflexivity|].
  split; [by injection H as _ <-|].
  exact (run_declares_once Examples.demo_overrides Examples.demo_wx_enum [] w' f Hnd H).
Defined.

(** *** The enumeration values without a class *)

(** C2, as the code has it. The scan of a namespace returns. Then the
    partition step raises [KeyError] when a declared enumeration class has
    no collected value; when every declared class has one, it returns, each
    declared class holds exactly the values that declare it as owner, in
    scan order, and the values whose owner is no declared class stay in
    [def_val]: no error is raised for them and no class holds them.
    Whatever a run that returned has left in [def_val] is a group of such
    values: their owner is no enumeration of the output, and their names
    are in none of the lists the sections are printed from (placeholders,
    constants, event codes, exceptions, enumerations and their values,
    imports). *)
Theorem enum_partition :
  (forall (items : Namespace) (consts : list Anotation) (w : list string),
     NoDup (map fst items) ->
     exists out b,
       classify_all (mkBuckets [] consts [] [] [] ∅) items w = (w ++ out, Ok b) /\
       map ec_name (def_enum b) = omap declared items /\
       ((exists enum, enum ∈ def_enum b /\ values_of (ec_name enum) items = []) ->
        partition_enums (def_enum b) (def_val b) = Raise KeyError) /\
       ((forall enum, enum ∈ def_enum b -> values_of (ec_name enum) items <> []) ->
        exists enums left,
          partition_enums (def_enum b) (def_val b) = Ok (enums, left) /\
          map ec_name enums = map ec_name (def_enum b) /\
          (forall enum, enum ∈ enums ->
             ec_values enum = Some (values_of (ec_name enum) items)) /\
          (forall cls, cls ∉ map ec_name (def_enum b) ->
             values_of cls items <> [] ->
             left !! cls = Some (values_of cls items)))) /\
  (forall (modules : list Module_) (wx_dict : Namespace) (w w' : list string)
          (f : Final),
     NoDup (map fst wx_dict) ->
     run modules wx_dict w = (w', Ok f) ->
     exists consts items w1 b enums,
       NoDup (map fst items) /\
       classify_all (mkBuckets [] consts [] [] [] ∅) items w1 = (w', Ok b) /\
       partition_enums (def_enum b) (def_val b) = Ok (enums, f_val f) /\
       forall cls vals v,
         f_val f !! cls = Some vals -> v ∈ vals ->
         vals = values_of cls items /\
         (cls ∉ map ec_name (f_enum f)) /\
         (ev_name v ∉ final_names f) /\
         (ev_name v ∉ enum_value_names f) /\
         (ev_name v ∉ imported (f_import f))).
Proof.
  split.
  { intros items consts w Hnd.
    destruct (classify_all_effect items (mkBuckets [] consts [] [] [] ∅) w)
      as (out & b & Hrun & Henum & Hval).
    exists out, b. split; [done|]. cbn [def_enum def_val app] in Henum, Hval.
    assert (forall cls, def_val b !! cls
                        = match values_of cls items with
                          | [] => None
                          | l => Some l
                          end) as Hlook.
    { intros cls. rewrite Hval, lookup_empty, grown_None.
      by destruct (values_of cls items). }
    assert (map ec_name (def_enum b) = omap declared items) as Hnames.
    { rewrite Henum, map_map. cbn [ec_name]. apply map_id. }
    split; [done|]. split.
    - intros (enum & Hin & Hnone).
      destruct (partition_enums_only_KeyError (def_enum b) (def_val b))
        as [H|[[es left] H]]; [done|].
      exfalso. apply partition_enums_returns in H as [Hall _].
      apply list_elem_of_lookup in Hin as [i Hi].
      destruct (Forall2_lookup_l _ _ _ _ _ Hall Hi) as (e & _ & _ & [vs Hvs] & _).
      by rewrite Hlook, Hnone in Hvs.
    - intros Hsome.
      destruct (partition_enums_succeeds (def_enum b) (def_val b)) as [[es left] Hp].
      { rewrite Hnames. by apply declared_names_NoDup. }
      { intros enum Hin. rewrite Hlook. specialize (Hsome enum Hin).
        destruct (values_of (ec_name enum) items); [done|eauto]. }
      exists es, left. split; [done|].
      destruct (partition_enums_returns _ _ _ _ Hp) as [Hall Hleft].
      split.
      { exact (Forall2_names _ _
                 (fun enum e => is_Some (def_val b !! ec_name enum)
                                /\ ec_values e = def_val b !! ec_name enum) Hall). }
      split.
      + intros e Hin. apply list_elem_of_lookup in Hin as [i Hi].
        destruct (Forall2_lookup_r _ _ _ _ _ Hall Hi) as (enum & _ & Hn & [vs Hvs] & He).
        rewrite He, Hn, Hlook. rewrite Hlook in Hvs.
        by destruct (values_of (ec_name enum) items).
      + intros cls Hnot Hne. rewrite Hleft, (bool_decide_eq_false_2 _ Hnot), Hlook.
        by destruct (values_of cls items).
  }
  { intros modules wx_dict w w' f Hnd Hrun.
    destruct (run_inv _ _ _ _ _ Hnd Hrun)
      as (w1 & ov & consts & d & b & es & l & rest & picked & extra
          & _ & -> & _ & Hndd & Hd & Hover & Hcl & Hpart & Hnames & Hval & Hfinal
          & Hkeys & _ & Hevn & Hsplit & Hpicked).
    exists consts, d, w1, b, es. split; [done|]. split; [done|]. split; [done|].
    intros cls vals v Hsome Hv. rewrite Hval in Hsome.
    destruct (bool_decide (cls ∈ map ec_name es)) eqn:Hcls; [done|].
    apply bool_decide_eq_false in Hcls.
    assert (vals = values_of cls d) as ->.
    { destruct (values_of cls d); [done|]. by injection Hsome. }
    split; [done|]. split; [by rewrite Hnames|].
    unfold values_of in Hv. apply list_elem_of_filter in Hv as [Hown Hv].
    assert (v ∉ picked) as Hnot.
    { intros Hin. apply Hcls. rewrite <- Hown. by apply Hpicked. }
    assert (v ∈ extra) as Hex.
    { rewrite Hsplit in Hv. by apply elem_of_app in Hv as [?|?]. }
    assert (ev_name v ∈ map ev_name extra) as Hname.
    { apply list_elem_of_In, in_map. by apply list_elem_of_In. }
    assert (map fst d ≡ₚ map ev_name extra ++ (l ++ map ev_name picked ++ rest))
      as Hkeys'.
    { rewrite Hkeys, Hsplit, List.map_app, <- !app_assoc.
      rewrite (Permutation_app_comm (map ev_name extra) (l ++ _)), <- !app_assoc.
      do 2 apply Permutation_app_head. apply Permutation_app_comm. }
    rewrite Hkeys' in Hndd. apply NoDup_app in Hndd as (_ & Hdisj & _).
    specialize (Hdisj _ Hname).
    assert (ev_name v ∈ map fst d) as Hkey.
    { rewrite Hkeys'. apply elem_of_app. by left. }
    destruct (Hd _ Hkey) as (_ & Himp & _ & Hno & _).
    split; [|split; [|done]].
    + rewrite Hfinal. intros [Hin|Hin]%elem_of_app; [done|].
      apply Hdisj, elem_of_app. by left.
    + rewrite Hevn. intros Hin. apply Hdisj, elem_of_app. right.
      apply elem_of_app. by left. }
Qed.

Lemma enum_partition_witness :
  let items := [ ("Direction", VEnumType); ("LEFT", VEnumValue "Direction");
                 ("CURSOR_NONE", VEnumValue "StockCursor");
                 ("UP", VEnumValue "Direction") ] in
  NoDup (map fst items) /\
  values_of "Direction" items
  = [mkEnumValue "LEFT" "Direction"; mkEnumValue "UP" "Direction"] /\
  exists out b,
    classify_all (mkBuckets [] [] [] [] [] ∅) items [] = ([] ++ out, Ok b) /\
    map ec_name (def_enum b) = omap declared items /\
    ((exists enum, enum ∈ def_enum b /\ values_of (ec_name enum) items = []) ->
     partition_enums (def_enum b) (def_val b) = Raise KeyError) /\
    ((forall enum, enum ∈ def_enum b -> values_of (ec_name enum) items <> []) ->
     exists enums left,
       partition_enums (def_enum b) (def_val b) = Ok (enums, left) /\
       map ec_name enums = map ec_name (def_enum b) /\
       (forall enum, enum ∈ enums ->
          ec_values enum = Some (values_of (ec_name enum) items)) /\
       (forall cls, cls ∉ map ec_name (def_enum b) ->
          values_of cls items <> [] ->
          left !! cls = Some (values_of cls items))).
Proof.
  intros items.
  assert (NoDup (map fst items)) as Hnd.
  { apply (bool_decide_unpack _). vm_compute. exact I. }
  split; [exact Hnd|]. split; [reflexivity|].
  exact (proj1 enum_partition items [] [] Hnd).
Defined.

(** The claim C2 fails on a namespace that holds the value [LEFT] of the
    enumeration [Direction] but not the class: the run prints nothing and
    returns, no enumeration class is built, the value is left in [def_val]
    and none of the six texts of the aggregate stub mentions it. *)
Lemma undeclared_owner_is_dropped :
  ("LEFT", VEnumValue "Direction") ∈ Examples.demo_wx /\
  exists f s,
    run [] Examples.demo_wx [] = ([], Ok f) /\
    f_enum f = [] /\
    f_val f !! "Direction" = Some [mkEnumValue "LEFT" "Direction"] /\
    render f = Ok s /\
    contains "LEFT"
      (undef s +:+ imp s +:+ err s +:+ enum s +:+ const s +:+ evt s) = false.
Proof.
  split.
  { apply list_elem_of_In. vm_compute. tauto. }
  destruct (run [] Examples.demo_wx []) as [out [f|e]] eqn:Hrun;
    vm_compute in Hrun; [|discriminate].
  injection Hrun as <- <-.
  eexists _, _. split; [reflexivity|]. split; [reflexivity|].
  split; [vm_compute; reflexivity|].
  split; vm_compute; reflexivity.
Qed.

(** *** Overloaded functions *)

Lemma scan_overload_again (modstem : string) (st : FileScan) (f : FunctionDef)
    (w : list string) :
  public (fd_name f) = Ok true ->
  head (decorator_list f) = Some (Name "overload") ->
  last_overload st = fd_name f ->
  scan_node modstem st (FuncDef f) w = (w, Ok st).
Proof.
  intros Hpub Hdec Hlast. cbn [scan_node]. unfold obind at 1, olift. rewrite Hpub.
  destruct (decorator_list f) as [|d0 ds]; [done|]. injection Hdec as ->.
  unfold obind, olift, oret. cbn [expr_id].
  rewrite String.eqb_refl, Hlast, String.eqb_refl. done.
Qed.

(** A run of definitions of one public function, each decorated with
    [overload] first, is imported once: the first definition adds the
    import and takes the name out of the dictionary, the following ones
    change nothing. *)
Theorem overloads_imported_once (modstem : string) (st : FileScan)
    (f : FunctionDef) (fs : list FunctionDef) (w : list string) :
  public (fd_name f) = Ok true ->
  Forall (fun g => fd_name g = fd_name f
                   /\ head (decorator_list g) = Some (Name "overload")) (f :: fs) ->
  last_overload st <> fd_name f ->
  exists w',
    scan_nodes modstem st (map FuncDef (f :: fs)) w
    = (w', Ok (mkFileScan (dict_discard (fd_name f) (fs_dict st)) (fs_stubed st)
                 (add_import modstem (fd_name f) (fs_i st)) (fd_name f))).
Proof.
  intros Hpub Hall Hlast. apply Forall_cons in Hall as [[_ Hdec] Hall].
  cbn [map scan_nodes]. unfold obind at 1.
  set (st1 := mkFileScan (dict_discard (fd_name f) (fs_dict st)) (fs_stubed st)
                (add_import modstem (fd_name f) (fs_i st)) (fd_name f)).
  assert (exists w1, scan_node modstem st (FuncDef f) w = (w1, Ok st1)) as [w1 ->].
  { cbn [scan_node]. unfold obind at 1, olift. rewrite Hpub.
    destruct (decorator_list f) as [|d0 ds]; [done|]. injection Hdec as ->.
    unfold obind, olift, oret, print. cbn [expr_id].
    rewrite String.eqb_refl. apply String.eqb_neq in Hlast. rewrite Hlast.
    unfold st1, dict_discard.
    destruct (dict_pop (fd_name f) (fs_dict st)); by eexists. }
  exists w1. assert (last_overload st1 = fd_name f) as Hl1 by done.
  clearbody st1. clear Hlast Hdec. revert Hall.
  induction fs as [|g fs IH]; intros Hall; cbn [map scan_nodes]; [done|].
  apply Forall_cons in Hall as [[Hname Hdec] Hall]. unfold obind.
  rewrite scan_overload_again; [by apply IH|by rewrite Hname|done|by rewrite Hname].
Qed.

Lemma overloads_imported_once_witness :
  let f := {| fd_name := "Yield"; fd_args := []; decorator_list := [Name "overload"] |} in
  let st := mkFileScan Examples.demo_wx ∅ [] EmptyString in
  exists w',
    scan_nodes "_functions" st (map FuncDef [f; f; f]) []
    = (w', Ok (mkFileScan Examples.demo_wx ∅ [mkImport "Yield" "wx._functions"] "Yield")).
Proof.
  intros f st.
  destruct (overloads_imported_once "_functions" st f [f; f] []) as [w' H].
  - reflexivity.
  - repeat constructor.
  - discriminate.
  - exists w'. exact H.
Defined.

End RunSpec.
